(** * AetherMCP: provenance ledger, capability invoker, execution
      coordinator and cognitive guardian

    A shallow embedding of
      - [aethermcp/core/types.py]        (module [Types]),
      - [aethermcp/core/provenance.py]   (module [Provenance]),
      - [aethermcp/core/protocol.py]     (module [Protocol]),
      - [aethermcp/core/registry.py]     (module [Registry]),
      - [aethermcp/core/orchestrator.py] (module [Orchestrator]),
      - [aethermcp/core/kernel.py]       (module [Kernel]),
      - [aethermcp/governance/cognitive_guardian.py] (module [Guardian]),
      - [aethermcp/governance/sentinels.py] (module [Sentinels]),
    over models of what they call in Python's library: [hashlib.sha256]
    (module [Sha256]), [json.dumps] (module [Json]), the payload values
    (module [Py]), a few string methods (module [Str]) and the rounding of
    float arithmetic (module [Float]).  Module [Scenario]
    holds the concrete ledgers, targets and operators the examples run on.
    The properties follow, one module of facts per component.

    Conventions of the embedding.
      - A Python [dict] used as a store ([_chains], [_servers]) is a [gmap];
        a payload [Dict[str, Any]] is an association list in insertion order.
      - [uuid4()] and [datetime.utcnow()] are inputs: every operation that
        calls them takes the drawn values as arguments, and the kernel
        threads a counter of the readings taken from the outside.
      - Raising is a sum: [inl e] is the exception, [inr v] the result.
      - An object mutated in place (a chain, a step, the guardian) is passed
        in and handed back; the sentinels, which a manager shares with their
        creator, live in a heap.
      - Floats are exact rationals in payloads, plans and costs.  In the
        guardian they are real numbers: the risk tolerance is read without
        rounding, the deviation is computed with the rounding of the source.
      - Logging is not modelled. *)

From Stdlib Require Import ZArith NArith List String Ascii Bool Lia.
From Stdlib Require Import QArith Reals Lra DecimalString Sorted Permutation.
From stdpp Require Import gmap strings list sorting.

Local Open Scope string_scope.
Set Warnings "-register-all,-clear-no-such-hyp".

(** ** SHA-256 ([hashlib.sha256]), FIPS 180-4, on byte lists *)

Module Sha256.
Local Open Scope N_scope.

Definition w32 : N := 4294967296.
Definition add32 (a b : N) : N := (a + b) mod w32.
Definition rotr (n x : N) : N :=
  N.lor (N.shiftr x n) ((N.shiftl x (32 - n)) mod w32).
Definition shr (n x : N) : N := N.shiftr x n.
Definition not32 (x : N) : N := N.lxor x 4294967295.

Definition Ch (x y z : N) : N := N.lxor (N.land x y) (N.land (not32 x) z).
Definition Maj (x y z : N) : N :=
  N.lxor (N.lxor (N.land x y) (N.land x z)) (N.land y z).
Definition bsig0 (x : N) : N := N.lxor (N.lxor (rotr 2 x) (rotr 13 x)) (rotr 22 x).
Definition bsig1 (x : N) : N := N.lxor (N.lxor (rotr 6 x) (rotr 11 x)) (rotr 25 x).
Definition ssig0 (x : N) : N := N.lxor (N.lxor (rotr 7 x) (rotr 18 x)) (shr 3 x).
Definition ssig1 (x : N) : N := N.lxor (N.lxor (rotr 17 x) (rotr 19 x)) (shr 10 x).

(** The round constants: the first 32 bits of the fractional parts of the
    cube roots of the first 64 primes ([round_constants_are_cube_roots]). *)
Definition K : list N :=
  [
    1116352408; 1899447441; 3049323471; 3921009573;
    961987163; 1508970993; 2453635748; 2870763221;
    3624381080; 310598401; 607225278; 1426881987;
    1925078388; 2162078206; 2614888103; 3248222580;
    3835390401; 4022224774; 264347078; 604807628;
    770255983; 1249150122; 1555081692; 1996064986;
    2554220882; 2821834349; 2952996808; 3210313671;
    3336571891; 3584528711; 113926993; 338241895;
    666307205; 773529912; 1294757372; 1396182291;
    1695183700; 1986661051; 2177026350; 2456956037;
    2730485921; 2820302411; 3259730800; 3345764771;
    3516065817; 3600352804; 4094571909; 275423344;
    430227734; 506948616; 659060556; 883997877;
    958139571; 1322822218; 1537002063; 1747873779;
    1955562222; 2024104815; 2227730452; 2361852424;
    2428436474; 2756734187; 3204031479; 3329325298 ].

(** The initial hash value: the same bits of the square roots of the first 8
    primes ([initial_hash_is_square_roots]). *)
Definition H0 : list N :=
  [
    1779033703; 3144134277; 1013904242; 2773480762;
    1359893119; 2600822924; 528734635; 1541459225 ].

Definition primes64 : list N :=
  [ 2; 3; 5; 7; 11; 13; 17; 19; 23; 29; 31; 37; 41; 43; 47; 53; 59; 61; 67; 71;
    73; 79; 83; 89; 97; 101; 103; 107; 109; 113; 127; 131; 137; 139; 149; 151;
    157; 163; 167; 173; 179; 181; 191; 193; 197; 199; 211; 223; 227; 229; 233;
    239; 241; 251; 257; 263; 269; 271; 277; 281; 283; 293; 307; 311 ].

(** [c] is the fractional part, on 32 bits, of the [e]-th root of [p]: with
    [r] the integer part, [(r * 2^32 + c)^e <= p * 2^(32 e) < (r * 2^32 + c + 1)^e]. *)
Definition is_root_fraction (e : N) (p c : N) : bool :=
  existsb (fun r =>
             let x := r * w32 + c in
             (x ^ e <=? p * w32 ^ e) && (p * w32 ^ e <? (x + 1) ^ e))
    [1; 2; 3; 4; 5; 6; 7; 8; 9; 10; 11; 12; 13; 14; 15; 16; 17].

(** Big-endian bytes of [x], [n] of them. *)
Fixpoint be_bytes (n : nat) (x : N) : list N :=
  match n with
  | O => []
  | S n' => be_bytes n' (x / 256) ++ [x mod 256]
  end.

Definition be_word (bs : list N) : N :=
  fold_left (fun acc b => acc * 256 + b) bs 0.

(** Padding: 0x80, zeros up to 56 mod 64, then the bit length on 8 bytes. *)
Definition pad (msg : list N) : list N :=
  let len := N.of_nat (length msg) in
  let zeros := (55 + 64 - len mod 64) mod 64 in
  msg ++ [128] ++ repeat 0 (N.to_nat zeros) ++ be_bytes 8 (len * 8).

Fixpoint chunks (fuel k : nat) (l : list N) : list (list N) :=
  match fuel with
  | O => []
  | S fuel' =>
      match l with
      | [] => []
      | _ => firstn k l :: chunks fuel' k (skipn k l)
      end
  end.

(** The message schedule, most recent word first. *)
Definition schedule_step (w : list N) : list N :=
  add32 (add32 (ssig1 (nth 1 w 0)) (nth 6 w 0))
        (add32 (ssig0 (nth 14 w 0)) (nth 15 w 0)) :: w.

Definition schedule (block : list N) : list N :=
  rev (Nat.iter 48 schedule_step (rev (map be_word (chunks 16 4 block)))).

Definition round (st : list N) (kw : N * N) : list N :=
  match st with
  | [a; b; c; d; e; f; g; h] =>
      let t1 := add32 (add32 (add32 h (bsig1 e)) (add32 (Ch e f g) (fst kw))) (snd kw) in
      let t2 := add32 (bsig0 a) (Maj a b c) in
      [add32 t1 t2; a; b; c; add32 d t1; e; f; g]
  | _ => st
  end.

Definition zip_with {A B C} (f : A -> B -> C) : list A -> list B -> list C :=
  fix go l1 l2 :=
    match l1, l2 with
    | x :: l1', y :: l2' => f x y :: go l1' l2'
    | _, _ => []
    end.

Definition compress (h : list N) (block : list N) : list N :=
  zip_with add32 h (fold_left round (combine K (schedule block)) h).

Definition digest (msg : list N) : list N :=
  let p := pad msg in
  fold_left compress (chunks (length p) 64 p) H0.

Definition hex_digit (n : N) : ascii :=
  if n <? 10 then ascii_of_N (48 + n) else ascii_of_N (87 + n).

Definition hex_byte (b : N) : string :=
  String (hex_digit (b / 16)) (String (hex_digit (b mod 16)) EmptyString).

(** [hashlib.sha256(bs).hexdigest()] *)
Definition hexdigest (msg : list N) : string :=
  String.concat EmptyString (map hex_byte (flat_map (be_bytes 4) (digest msg))).

(** [s.encode()] for text whose code points are all below 128. *)
Definition encode (s : string) : list N :=
  map N_of_ascii (list_ascii_of_string s).

Definition sha256_hex (s : string) : string := hexdigest (encode s).


End Sha256.


(** ** Python values ([Any]) that can sit in a payload

    The payload of a node is a [Dict[str, Any]].  The universe below is what
    [json.dumps] accepts: [None], booleans, integers, floats, strings, lists,
    tuples and string-keyed dictionaries.  Floats are idealised as exact
    rationals (no rounding).  A dictionary is kept as an association list in
    insertion order, as a Python [dict] iterates. *)

Module Py.

Inductive value : Type :=
| VNone
| VBool (b : bool)
| VInt (z : Z)
| VFloat (q : Q)
| VStr (s : string)
| VList (l : list value)
| VTuple (l : list value)
| VDict (d : list (string * value)).

Definition dict : Type := list (string * value).

(** [d.get(k)] *)
Fixpoint dict_get (k : string) (d : dict) : option value :=
  match d with
  | [] => None
  | (k', v) :: d' => if String.eqb k k' then Some v else dict_get k d'
  end.


(** [d[k] = v]: an existing key keeps its place, a new one goes last. *)
Fixpoint dict_set (k : string) (v : value) (d : dict) : dict :=
  match d with
  | [] => [(k, v)]
  | (k', v') :: d' =>
      if String.eqb k k' then (k, v) :: d' else (k', v') :: dict_set k v d'
  end.

End Py.

(** ** [json.dumps(content, sort_keys=True)] with the default separators
       and [ensure_ascii] *)

Module Json.
Import Py.

Definition quote : string := String (ascii_of_N 34) EmptyString.
Definition backslash : string := String (ascii_of_N 92) EmptyString.

Definition hex4 (n : N) : string :=
  String (Sha256.hex_digit (n / 4096 mod 16))
    (String (Sha256.hex_digit (n / 256 mod 16))
       (String (Sha256.hex_digit (n / 16 mod 16))
          (String (Sha256.hex_digit (n mod 16)) EmptyString))).

(** One character of a string, as [json.encoder.py_encode_basestring_ascii]
    writes it (a character is one code point below 256). *)
Definition escape_char (c : ascii) : string :=
  let n := N_of_ascii c in
  if (n =? 34)%N then backslash +:+ quote
  else if (n =? 92)%N then backslash +:+ backslash
  else if (n =? 10)%N then backslash +:+ "n"
  else if (n =? 13)%N then backslash +:+ "r"
  else if (n =? 9)%N then backslash +:+ "t"
  else if (n =? 12)%N then backslash +:+ "f"
  else if (n =? 8)%N then backslash +:+ "b"
  else if ((32 <=? n) && (n <=? 126))%N then String c EmptyString
  else backslash +:+ "u" +:+ hex4 n.

Definition dumps_str (s : string) : string :=
  quote +:+ String.concat EmptyString (map escape_char (list_ascii_of_string s)) +:+ quote.

Definition dumps_int (z : Z) : string := NilZero.string_of_int (Z.to_int z).

(** Decimal digits of the fraction [r / d], at most [fuel] of them, at least
    one. *)
Fixpoint frac_digits (fuel : nat) (r d : Z) : string :=
  match fuel with
  | O => EmptyString
  | S fuel' =>
      let r10 := (r * 10)%Z in
      let digit := (r10 / d)%Z in
      let r' := (r10 mod d)%Z in
      dumps_int digit +:+ (if (r' =? 0)%Z then EmptyString else frac_digits fuel' r' d)
  end.

(** [float.__repr__] on the idealised floats: positional notation, exact on
    decimals of up to 17 fractional digits. *)
Definition dumps_float (q : Q) : string :=
  let n := Qnum q in
  let d := Zpos (Qden q) in
  let a := Z.abs n in
  (if (n <? 0)%Z then "-" else EmptyString)
    +:+ dumps_int (a / d) +:+ "." +:+ frac_digits 17 (a mod d) d.

(** [sorted] on the items of a dictionary, by key (insertion sort; the keys
    of a dictionary are distinct). *)
Fixpoint insert_item (kv : string * string) (l : list (string * string))
  : list (string * string) :=
  match l with
  | [] => [kv]
  | kv' :: l' =>
      if String.leb (fst kv) (fst kv') then kv :: l else kv' :: insert_item kv l'
  end.

Definition sort_items (l : list (string * string)) : list (string * string) :=
  fold_right insert_item [] l.

Definition join (sep : string) (l : list string) : string := String.concat sep l.

Fixpoint dumps (v : value) : string :=
  match v with
  | VNone => "null"
  | VBool true => "true"
  | VBool false => "false"
  | VInt z => dumps_int z
  | VFloat q => dumps_float q
  | VStr s => dumps_str s
  | VList l => "[" +:+ join ", " (map dumps l) +:+ "]"
  | VTuple l => "[" +:+ join ", " (map dumps l) +:+ "]"
  | VDict d =>
      "{" +:+ join ", "
        (map (fun kv => dumps_str (fst kv) +:+ ": " +:+ snd kv)
           (sort_items (map (fun kv => (fst kv, dumps (snd kv))) d)))
      +:+ "}"
  end.

End Json.

(** ** Exceptions *)

(** An exception: its class and [str(e)]. *)
Inductive exn : Type := Raise (cls : string) (msg : string).

Definition str_exn (e : exn) : string := match e with Raise _ msg => msg end.
Definition ValueError (msg : string) : exn := Raise "ValueError" msg.

(** ** [aethermcp/core/provenance.py] *)

Module Provenance.
Import Py.

(** A [datetime] is carried as its [isoformat()] text, the only way the
    ledger reads it. *)
Definition datetime : Type := string.

Record ProvenanceNode : Type := {
  node_id : string;
  node_type : string;
  timestamp : datetime;
  data : dict;
  parent_ids : list string;
  hash : string
}.

Record ProvenanceChain : Type := {
  session_id : string;
  nodes : list ProvenanceNode;
  root_hash : string;
  created_at : datetime;
  metadata : dict
}.

(** [self._chains] *)
Abbreviation chains := (gmap string ProvenanceChain).

Definition set_hash (h : string) (n : ProvenanceNode) : ProvenanceNode :=
  {| node_id := node_id n; node_type := node_type n; timestamp := timestamp n;
     data := data n; parent_ids := parent_ids n; hash := h |}.


Definition set_nodes (ns : list ProvenanceNode) (c : ProvenanceChain) : ProvenanceChain :=
  {| session_id := session_id c; nodes := ns; root_hash := root_hash c;
     created_at := created_at c; metadata := metadata c |}.

(** [sorted(node.parent_ids)] *)
Fixpoint insert_sorted (x : string) (l : list string) : list string :=
  match l with
  | [] => [x]
  | y :: l' => if String.leb x y then x :: l else y :: insert_sorted x l'
  end.

Definition sorted (l : list string) : list string := fold_right insert_sorted [] l.

(** The [content] dictionary of [_compute_hash], serialised. *)
Definition content_json (node : ProvenanceNode) : string :=
  Json.dumps
    (VDict [ ("node_id", VStr (node_id node));
             ("node_type", VStr (node_type node));
             ("timestamp", VStr (timestamp node));
             ("data", VDict (data node));
             ("parent_ids", VList (map VStr (sorted (parent_ids node)))) ]).

Definition _compute_hash (node : ProvenanceNode) : string :=
  Sha256.sha256_hex (content_json node).

(** [create_session]: [uuid] is [str(uuid4())], read only when no id is
    given; [now], [now_data] and [now_chain] are the three clock readings
    (node timestamp, the [created_at] entry of the payload, the chain's
    [created_at]). *)
Definition create_session (uuid : string) (now now_data now_chain : datetime)
  (sid_opt : option string) (cs : chains) : string * chains :=
  let sid := match sid_opt with Some s => s | None => uuid end in
  let genesis :=
    {| node_id := sid +:+ "_genesis"; node_type := "genesis"; timestamp := now;
       data := [("session_id", VStr sid); ("created_at", VStr now_data)];
       parent_ids := []; hash := EmptyString |} in
  let genesis := set_hash (_compute_hash genesis) genesis in
  let chain :=
    {| session_id := sid; nodes := [genesis]; root_hash := hash genesis;
       created_at := now_chain; metadata := [] |} in
  (sid, <[sid := chain]> cs).

(** [_add_node] *)
Definition _add_node (uuid : string) (now : datetime)
  (sid : string) (ntype : string) (d : dict) (parent_id : string) (cs : chains)
  : (exn + string) * chains :=
  let nid := sid +:+ "_" +:+ uuid in
  match cs !! sid with
  | None => (inl (ValueError ("Session " +:+ sid +:+ " not found")), cs)
  | Some chain =>
      let node :=
        {| node_id := nid; node_type := ntype; timestamp := now; data := d;
           parent_ids := [parent_id]; hash := EmptyString |} in
      let node := set_hash (_compute_hash node) node in
      (inr nid, <[sid := set_nodes (nodes chain ++ [node]) chain]> cs)
  end.

(** [parent_id or f"{session_id}_genesis"] *)
Definition parent_or_genesis (sid : string) (parent_id : option string) : string :=
  match parent_id with
  | Some p => if String.eqb p EmptyString then sid +:+ "_genesis" else p
  | None => sid +:+ "_genesis"
  end.

Definition record_intent uuid now sid (intent_data : dict) (parent_id : option string) cs :=
  _add_node uuid now sid "intent" intent_data (parent_or_genesis sid parent_id) cs.

Definition record_plan uuid now sid (plan_data : dict) (parent_id : string) cs :=
  _add_node uuid now sid "plan" plan_data parent_id cs.

Definition record_step uuid now sid (step_data : dict) (parent_id : string) cs :=
  _add_node uuid now sid "step" step_data parent_id cs.

Definition record_result uuid now sid (result_data : dict) (parent_id : string) cs :=
  _add_node uuid now sid "result" result_data parent_id cs.

(** [record_synthesis] *)
Definition record_synthesis (uuid : string) (now : datetime)
  (sid : string) (synthesis_data : dict) (pids : list string) (cs : chains)
  : (exn + string) * chains :=
  let nid := sid +:+ "_" +:+ uuid in
  match cs !! sid with
  | None => (inl (ValueError ("Session " +:+ sid +:+ " not found")), cs)
  | Some chain =>
      let node :=
        {| node_id := nid; node_type := "synthesis"; timestamp := now;
           data := synthesis_data; parent_ids := pids; hash := EmptyString |} in
      let node := set_hash (_compute_hash node) node in
      (inr nid, <[sid := set_nodes (nodes chain ++ [node]) chain]> cs)
  end.

(** [get_chain] *)
Definition get_chain (sid : string) (cs : chains) : option ProvenanceChain := cs !! sid.

(** [any(n.node_id == parent_id for n in chain.nodes)] *)
Definition parent_exists (ns : list ProvenanceNode) (parent_id : string) : bool :=
  existsb (fun n => String.eqb (node_id n) parent_id) ns.

(** One turn of the loop of [verify_chain]: [false] is the early
    [return False]. *)
Definition verify_node (ns : list ProvenanceNode) (node : ProvenanceNode) : bool :=
  String.eqb (hash node) (_compute_hash node)
  && forallb (parent_exists ns) (parent_ids node).

Definition verify_root (chain : ProvenanceChain) : bool :=
  match nodes chain with
  | [] => true
  | genesis :: _ => String.eqb (hash genesis) (root_hash chain)
  end.

(** [verify_chain] *)
Definition verify_chain (sid : string) (cs : chains) : bool :=
  match cs !! sid with
  | None => false
  | Some chain => forallb (verify_node (nodes chain)) (nodes chain) && verify_root chain
  end.

(** The verdict of [verify_chain] on a chain stored on its own. *)
Definition verifies (chain : ProvenanceChain) : bool :=
  verify_chain (session_id chain) (<[session_id chain := chain]> ∅).

(** [import_chain].  [ProvenanceChain( **chain_data)] is pydantic's
    validation: [validated] is its outcome, the chain or the exception it
    raised.  Nothing else under the [try] raises on the values of [Py]. *)
Definition import_chain (validated : exn + ProvenanceChain) (cs : chains)
  : bool * chains :=
  match validated with
  | inl _ => (false, cs)
  | inr chain =>
      let cs := <[session_id chain := chain]> cs in
      if verify_chain (session_id chain) cs
      then (true, cs)
      else (false, delete (session_id chain) cs)
  end.

(** [{node.node_id: node for node in chain.nodes}] *)
Definition node_map (ns : list ProvenanceNode) : gmap string ProvenanceNode :=
  fold_left (fun m n => <[node_id n := n]> m) ns ∅.

(** The [while queue] loop of [get_node_lineage].  Each turn costs one unit
    of [fuel]; [None] is "out of fuel". *)
Fixpoint lineage_loop (fuel : nat) (m : gmap string ProvenanceNode)
  (queue : list string) (visited : gset string) (lineage : list ProvenanceNode)
  {struct fuel} : option (list ProvenanceNode) :=
  match queue with
  | [] => Some lineage
  | current_id :: queue =>
      match fuel with
      | O => None
      | S fuel =>
          if decide (current_id ∈ visited)
          then lineage_loop fuel m queue visited lineage
          else
            let visited := {[current_id]} ∪ visited in
            match m !! current_id with
            | Some node =>
                lineage_loop fuel m (queue ++ parent_ids node) visited (lineage ++ [node])
            | None => lineage_loop fuel m queue visited lineage
            end
      end
  end.

(** The number of parent edges leaving the nodes of [m]. *)
Definition edge_count (m : gmap string ProvenanceNode) : nat :=
  sum_list_with (fun kv => length (parent_ids (snd kv))) (map_to_list m).

(** [get_node_lineage].  The loop is given one turn for the start id and one
    per parent edge, which it never exhausts ([lineage_loop_total]). *)
Definition get_node_lineage (sid : string) (nid : string) (cs : chains)
  : option (list ProvenanceNode) :=
  match cs !! sid with
  | None => Some []
  | Some chain =>
      let m := node_map (nodes chain) in
      match lineage_loop (S (edge_count m)) m [nid] ∅ [] with
      | Some lineage => Some (rev lineage)
      | None => None
      end
  end.



(** What the lineage is documented to satisfy: a parent that is in the list
    stands strictly before its child. *)
Definition parents_precede (l : list ProvenanceNode) : Prop :=
  forall i j child parent,
    l !! i = Some child -> l !! j = Some parent ->
    In (node_id parent) (parent_ids child) -> (j < i)%nat.

(** A chain as the kernel grows it: distinct ids, a first node without
    parent, every later node with one parent, which stands before it. *)
Definition single_parent_chain (ns : list ProvenanceNode) : Prop :=
  NoDup (map node_id ns)
  /\ forall i n, ns !! i = Some n ->
       match i with
       | O => parent_ids n = []
       | S _ => exists j p, (j < i)%nat /\ ns !! j = Some p /\ parent_ids n = [node_id p]
       end.

(** A walk from a node up to a root, child first. *)
Inductive ascends : list ProvenanceNode -> Prop :=
| ascends_root root : parent_ids root = [] -> ascends [root]
| ascends_step child parent rest :
    parent_ids child = [node_id parent] -> ascends (parent :: rest) ->
    ascends (child :: parent :: rest).

(** Following parent ids through the nodes of [m]: [reaches m a b] when [b]
    is [a], or is reached from a parent of the node that [a] names. *)
Inductive reaches (m : gmap string ProvenanceNode) : string -> string -> Prop :=
| reaches_here a : reaches m a a
| reaches_parent a node p b :
    m !! a = Some node -> In p (parent_ids node) -> reaches m p b -> reaches m a b.

End Provenance.

(** ** [aethermcp/core/types.py]

    One module per pydantic model, so that fields keep their names.  Fields
    filled by [default_factory=datetime.utcnow] and never read
    ([MCPRequest.timestamp], [MCPResponse.timestamp]) are left out. *)

Module Types.
Import Py.

Inductive TaskStatus : Type := PENDING | IN_PROGRESS | COMPLETED | FAILED | CANCELLED.

Inductive ServerCategory : Type := LLM | SIMULATION | DATA | VALIDATION | UTILITY.

Inductive ExecutionMode : Type := NARROW | FREEFIELD.

#[global] Instance TaskStatus_eq_dec : EqDecision TaskStatus.
Proof. solve_decision. Defined.

#[global] Instance ServerCategory_eq_dec : EqDecision ServerCategory.
Proof. solve_decision. Defined.

Module UserIntent.
Record t : Type := {
  raw_input : string;
  primary_objective : string;
  domain : string;
  constraints : list string;
  success_criteria : list string;
  budget : option Q;
  mode : ExecutionMode
}.
End UserIntent.

Module OrchestrationStep.
Record t : Type := {
  step_id : string;
  description : string;
  server_name : string;
  tool_name : string;
  parameters : dict;
  dependencies : list string;
  status : TaskStatus;
  parallel_group : option Z
}.

(** [step.status = s] *)
Definition set_status (s : TaskStatus) (step : t) : t :=
  {| step_id := step_id step; description := description step;
     server_name := server_name step; tool_name := tool_name step;
     parameters := parameters step; dependencies := dependencies step;
     status := s; parallel_group := parallel_group step |}.
End OrchestrationStep.

Module OrchestrationPlan.
Record t : Type := {
  intent : UserIntent.t;
  steps : list OrchestrationStep.t;
  estimated_cost : Q;
  estimated_time : Q;
  confidence : Q;
  templates_used : list string
}.
End OrchestrationPlan.

Module MCPServerCapability.
Record t : Type := {
  name : string;
  description : string;
  parameters : dict;
  returns : dict
}.
End MCPServerCapability.

Module MCPServerSpec.
Record t : Type := {
  name : string;
  category : ServerCategory;
  endpoint : string;
  capabilities : list MCPServerCapability.t;
  strengths : list string;
  cost_per_call : Q;
  auth_required : bool;
  metadata : dict
}.
End MCPServerSpec.

Module MCPRequest.
Record t : Type := {
  server_name : string;
  tool_name : string;
  parameters : dict;
  request_id : string;
  metadata : dict
}.
End MCPRequest.

Module MCPResponse.
Record t : Type := {
  request_id : string;
  server_name : string;
  tool_name : string;
  result : value;
  error : option string;
  cost : Q;
  metadata : dict
}.
End MCPResponse.

Module ExecutionResult.
Record t : Type := {
  session_id : string;
  intent : UserIntent.t;
  deliverables : dict;
  provenance : Provenance.ProvenanceChain;
  cost : Q;
  time_elapsed : Q;
  confidence : Q;
  status : TaskStatus;
  error : option string;
  metadata : dict
}.
End ExecutionResult.

(** [model_dump()] of the models whose dump goes into the ledger.  A [str]
    enum member is written by [json.dumps] as its value. *)
Definition dump_opt {A} (f : A -> value) (o : option A) : value :=
  match o with Some a => f a | None => VNone end.

Definition dump_strs (l : list string) : value := VList (map VStr l).

Definition ExecutionMode_value (m : ExecutionMode) : string :=
  match m with NARROW => "narrow" | FREEFIELD => "freefield" end.

Definition TaskStatus_value (s : TaskStatus) : string :=
  match s with
  | PENDING => "pending" | IN_PROGRESS => "in_progress" | COMPLETED => "completed"
  | FAILED => "failed" | CANCELLED => "cancelled"
  end.

Definition UserIntent_model_dump (i : UserIntent.t) : dict :=
  [ ("raw_input", VStr (UserIntent.raw_input i));
    ("primary_objective", VStr (UserIntent.primary_objective i));
    ("domain", VStr (UserIntent.domain i));
    ("constraints", dump_strs (UserIntent.constraints i));
    ("success_criteria", dump_strs (UserIntent.success_criteria i));
    ("budget", dump_opt VFloat (UserIntent.budget i));
    ("mode", VStr (ExecutionMode_value (UserIntent.mode i))) ].

Definition OrchestrationStep_model_dump (s : OrchestrationStep.t) : dict :=
  [ ("step_id", VStr (OrchestrationStep.step_id s));
    ("description", VStr (OrchestrationStep.description s));
    ("server_name", VStr (OrchestrationStep.server_name s));
    ("tool_name", VStr (OrchestrationStep.tool_name s));
    ("parameters", VDict (OrchestrationStep.parameters s));
    ("dependencies", dump_strs (OrchestrationStep.dependencies s));
    ("status", VStr (TaskStatus_value (OrchestrationStep.status s)));
    ("parallel_group", dump_opt VInt (OrchestrationStep.parallel_group s)) ].

Definition OrchestrationPlan_model_dump (p : OrchestrationPlan.t) : dict :=
  [ ("intent", VDict (UserIntent_model_dump (OrchestrationPlan.intent p)));
    ("steps", VList (map (fun s => VDict (OrchestrationStep_model_dump s))
                       (OrchestrationPlan.steps p)));
    ("estimated_cost", VFloat (OrchestrationPlan.estimated_cost p));
    ("estimated_time", VFloat (OrchestrationPlan.estimated_time p));
    ("confidence", VFloat (OrchestrationPlan.confidence p));
    ("templates_used", dump_strs (OrchestrationPlan.templates_used p)) ].

Definition ServerCategory_value (c : ServerCategory) : string :=
  match c with
  | LLM => "llm_servers" | SIMULATION => "simulation_servers" | DATA => "data_servers"
  | VALIDATION => "validation_servers" | UTILITY => "utility_servers"
  end.

End Types.

(** ** [aethermcp/core/protocol.py] *)

Module Protocol.
Import Py Types.

(** What [_execute_request] does on one call: it returns the parsed response
    or raises (transport failure, non-success status, malformed body).  The
    target is the function giving that outcome for the request and the
    number of calls already made for it. *)
Definition target : Type := MCPServerSpec.t -> MCPRequest.t -> nat -> exn + MCPResponse.t.

(** What the caller of [send_request] can observe of the loop. *)
Inductive event : Type :=
| Attempt (attempt : nat)
| Sleep (seconds : Z).

(** [MCPResponse(request_id=..., server_name=..., tool_name=..., result=None,
    error=msg)]: [cost] and [metadata] take their defaults. *)
Definition error_response (request_id server tool msg : string) : MCPResponse.t :=
  {| MCPResponse.request_id := request_id; MCPResponse.server_name := server;
     MCPResponse.tool_name := tool; MCPResponse.result := VNone;
     MCPResponse.error := Some msg; MCPResponse.cost := 0;
     MCPResponse.metadata := [] |}.

(** [for attempt in range(self.max_retries)], from [attempt] on, with [todo]
    turns left. *)
Fixpoint send_loop (net : target) (max_retries : Z) (spec : MCPServerSpec.t)
  (request : MCPRequest.t) (todo attempt : nat) : MCPResponse.t * list event :=
  match todo with
  | O =>
      (error_response (MCPRequest.request_id request) (MCPServerSpec.name spec)
         (MCPRequest.tool_name request) "Max retries exceeded", [])
  | S todo =>
      match net spec request attempt with
      | inr response => (response, [Attempt attempt])
      | inl e =>
          if (Z.of_nat attempt <? max_retries - 1)%Z
          then
            let '(response, evs) := send_loop net max_retries spec request todo (S attempt) in
            (response, Attempt attempt :: Sleep (2 ^ Z.of_nat attempt) :: evs)
          else
            (error_response (MCPRequest.request_id request) (MCPServerSpec.name spec)
               (MCPRequest.tool_name request) (str_exn e), [Attempt attempt])
      end
  end.

(** The [MCPRequest] that [send_request] builds; [uuid] is [str(uuid4())],
    [metadata] is [metadata or {}]. *)
Definition make_request (uuid : string) (spec : MCPServerSpec.t) (tool_name : string)
  (parameters : dict) (metadata : option dict) : MCPRequest.t :=
  {| MCPRequest.server_name := MCPServerSpec.name spec;
     MCPRequest.tool_name := tool_name;
     MCPRequest.parameters := parameters;
     MCPRequest.request_id := uuid;
     MCPRequest.metadata := match metadata with Some m => m | None => [] end |}.

(** [send_request] *)
Definition send_request (net : target) (max_retries : Z) (uuid : string)
  (spec : MCPServerSpec.t) (tool_name : string) (parameters : dict)
  (metadata : option dict) : MCPResponse.t * list event :=
  send_loop net max_retries spec (make_request uuid spec tool_name parameters metadata)
    (Z.to_nat max_retries) 0.

Definition attempts (evs : list event) : list nat :=
  flat_map (fun e => match e with Attempt k => [k] | Sleep _ => [] end) evs.

Definition sleeps (evs : list event) : list Z :=
  flat_map (fun e => match e with Attempt _ => [] | Sleep s => [s] end) evs.

(** The trace of [n] failed attempts from attempt [k] on: a wait of [2^k]
    after attempt [k], none after the last. *)
Fixpoint exhausted_trace (n k : nat) : list event :=
  match n with
  | O => []
  | S O => [Attempt k]
  | S n' => Attempt k :: Sleep (2 ^ Z.of_nat k) :: exhausted_trace n' (S k)
  end.

End Protocol.

(** ** String operations of Python used by the orchestrator

    A character is a code point below 256. *)

Module Str.

Definition lower_char (c : ascii) : ascii :=
  let n := N_of_ascii c in
  if ((65 <=? n) && (n <=? 90) || (192 <=? n) && (n <=? 222) && negb (n =? 215))%N
  then ascii_of_N (n + 32) else c.

(** [s.lower()] *)
Definition lower (s : string) : string :=
  string_of_list_ascii (map lower_char (list_ascii_of_string s)).

(** [s.find(sub)], [None] for -1 *)
Definition find (sub s : string) : option nat := String.index 0 sub s.

(** [sub in s] *)
Definition contains (sub s : string) : bool :=
  match find sub s with Some _ => true | None => false end.

Definition is_space (c : ascii) : bool :=
  let n := N_of_ascii c in
  ((9 <=? n) && (n <=? 13) || (28 <=? n) && (n <=? 32) || (n =? 133) || (n =? 160))%N.

Fixpoint lstrip (s : string) : string :=
  match s with
  | String c s' => if is_space c then lstrip s' else s
  | EmptyString => EmptyString
  end.

Definition rev_string (s : string) : string :=
  string_of_list_ascii (rev (list_ascii_of_string s)).

(** [s.strip()] *)
Definition strip (s : string) : string :=
  rev_string (lstrip (rev_string (lstrip s))).

(** [s[i:]] *)
Definition drop (i : nat) (s : string) : string :=
  String.substring i (String.length s - i) s.

Definition two_digits (n : Z) : string :=
  (if (n <? 10)%Z then "0" else EmptyString) +:+ Json.dumps_int n.

(** [f"{q:.2f}"]: round half to even on the exact value. *)
Definition format_2f (q : Q) : string :=
  let a := (Z.abs (Qnum q) * 100)%Z in
  let b := Zpos (Qden q) in
  let fl := (a / b)%Z in
  let r2 := (2 * (a mod b))%Z in
  let n := if (r2 <? b)%Z then fl
           else if (b <? r2)%Z then (fl + 1)%Z
           else if Z.even fl then fl else (fl + 1)%Z in
  (if (Qnum q <? 0)%Z then "-" else EmptyString)
    +:+ Json.dumps_int (n / 100) +:+ "." +:+ two_digits (n mod 100).

End Str.

(** ** [aethermcp/core/registry.py] *)

Module Registry.
Import Py Types.

Record ToolRegistry : Type := {
  _servers : gmap string MCPServerSpec.t;
  _category_index : ServerCategory -> list string
}.

(** [ToolRegistry()] *)
Definition new : ToolRegistry :=
  {| _servers := ∅; _category_index := fun _ => [] |}.

Definition mem (x : string) (l : list string) : bool := existsb (String.eqb x) l.

(** [register] *)
Definition register (spec : MCPServerSpec.t) (r : ToolRegistry) : ToolRegistry :=
  let nm := MCPServerSpec.name spec in
  {| _servers := <[nm := spec]> (_servers r);
     _category_index := fun c =>
       if decide (c = MCPServerSpec.category spec)
       then (if mem nm (_category_index r c) then _category_index r c
             else (_category_index r c ++ [nm])%list)
       else _category_index r c |}.

(** [l.remove(x)]: the first occurrence goes. *)
Fixpoint remove_first (x : string) (l : list string) : list string :=
  match l with
  | [] => []
  | y :: l' => if String.eqb x y then l' else y :: remove_first x l'
  end.

(** [unregister].  [list.remove] raises when the name is not in the index of
    its category, which [register] rules out for registries it built; the
    model keeps the list as it is there. *)
Definition unregister (server_name : string) (r : ToolRegistry) : ToolRegistry :=
  match _servers r !! server_name with
  | None => r
  | Some spec =>
      {| _servers := delete server_name (_servers r);
         _category_index := fun c =>
           if decide (c = MCPServerSpec.category spec)
           then remove_first server_name (_category_index r c)
           else _category_index r c |}
  end.

(** [get_server] *)
Definition get_server (name : string) (r : ToolRegistry) : option MCPServerSpec.t :=
  _servers r !! name.

(** [get_category_servers]; the caller may pass [None], which is no key of
    the index. *)
Definition get_category_servers (category : option ServerCategory) (r : ToolRegistry)
  : list MCPServerSpec.t :=
  let server_names :=
    match category with Some c => _category_index r c | None => [] end in
  omap (fun name => _servers r !! name) server_names.

(** [list_servers].  [self._servers.values()] is read here in the order of
    the map, which is not the order of insertion of a Python [dict]: of the
    result only its members are meaningful.  [if domain:] skips the filter
    for [None] and for the empty string. *)
Definition list_servers (category : option ServerCategory) (domain : option string)
  (r : ToolRegistry) : list MCPServerSpec.t :=
  let servers := map snd (map_to_list (_servers r)) in
  let servers :=
    match category with
    | Some c => List.filter (fun s => bool_decide (MCPServerSpec.category s = c)) servers
    | None => servers
    end in
  match domain with
  | Some d =>
      if String.eqb d EmptyString then servers
      else
        let domain_lower := Str.lower d in
        List.filter
          (fun s => existsb (fun strength => Str.contains domain_lower (Str.lower strength))
                      (MCPServerSpec.strengths s))
          servers
  | None => servers
  end.

(** [for category in ServerCategory] *)
Definition categories : list ServerCategory := [LLM; SIMULATION; DATA; VALIDATION; UTILITY].

(** [get_stats] *)
Definition get_stats (r : ToolRegistry) : dict :=
  ("total", VInt (Z.of_nat (size (_servers r))))
  :: map (fun c => (ServerCategory_value c, VInt (Z.of_nat (length (_category_index r c)))))
       categories.

(** [clear] *)
Definition clear (r : ToolRegistry) : ToolRegistry :=
  {| _servers := ∅; _category_index := fun _ => [] |}.

(** A call that changes a registry, and the registry that a sequence of
    such calls leaves, starting from [ToolRegistry()]. *)
Inductive call : Type :=
| Register (spec : MCPServerSpec.t)
| Unregister (server_name : string)
| Clear.

Definition run_call (r : ToolRegistry) (c : call) : ToolRegistry :=
  match c with
  | Register spec => register spec r
  | Unregister server_name => unregister server_name r
  | Clear => clear r
  end.

Definition after_calls (calls : list call) : ToolRegistry := fold_left run_call calls new.

(** What the calls keep true of a registry: a server is stored under its own
    name, that name is listed in the index of the server's category, and no
    index lists a name twice. *)
Definition consistent (r : ToolRegistry) : Prop :=
  (forall n spec, _servers r !! n = Some spec ->
     MCPServerSpec.name spec = n
     /\ In n (_category_index r (MCPServerSpec.category spec)))
  /\ (forall c, NoDup (_category_index r c)).

(** Reading an entry of the dictionary of [get_stats]. *)
Definition stat (key : string) (stats : dict) : Z :=
  match dict_get key stats with
  | Some (VInt z) => z
  | _ => 0%Z
  end.

End Registry.

(** ** [aethermcp/core/orchestrator.py] *)

Module Orchestrator.
Import Py Types Registry.

Definition action_verbs : list string :=
  ["design"; "create"; "build"; "analyze"; "validate"; "test"; "implement"].

(** [_extract_objective] *)
Definition _extract_objective (user_input : string) : string :=
  let low := Str.lower user_input in
  match List.find (fun verb => Str.contains verb low) action_verbs with
  | Some verb =>
      match Str.find verb low with
      | Some idx => Str.strip (Str.drop idx user_input)
      | None => user_input
      end
  | None => user_input
  end.

Definition domain_keywords : list (string * list string) :=
  [ ("security", ["security"; "secure"; "attack"; "vulnerability"; "crypto"]);
    ("ai", ["ai"; "llm"; "model"; "agent"; "sovereign"]);
    ("network", ["network"; "protocol"; "handshake"; "communication"]);
    ("data", ["data"; "database"; "storage"; "query"]);
    ("ui", ["ui"; "interface"; "design"; "frontend"]) ].

(** [_extract_domain] *)
Definition _extract_domain (user_input : string) : string :=
  let user_lower := Str.lower user_input in
  match List.find (fun dk => existsb (fun kw => Str.contains kw user_lower) (snd dk))
          domain_keywords with
  | Some dk => fst dk
  | None => "general"
  end.

(** [ExecutionMode(mode)] *)
Definition ExecutionMode_of (mode : string) : exn + ExecutionMode :=
  if String.eqb mode "narrow" then inr NARROW
  else if String.eqb mode "freefield" then inr FREEFIELD
  else inl (ValueError ("'" +:+ mode +:+ "' is not a valid ExecutionMode")).

(** [parse_intent], called with the keywords [budget], [constraints] and
    [mode] (a string). *)
Definition parse_intent (user_input : string) (budget : option Q)
  (constraints : list string) (mode : string) : exn + UserIntent.t :=
  match ExecutionMode_of mode with
  | inl e => inl e
  | inr mode =>
      inr {| UserIntent.raw_input := user_input;
             UserIntent.primary_objective := _extract_objective user_input;
             UserIntent.domain := _extract_domain user_input;
             UserIntent.constraints := constraints;
             UserIntent.success_criteria := [];
             UserIntent.budget := budget;
             UserIntent.mode := mode |}
  end.

Definition Qsum (l : list Q) : Q := fold_left Qplus l 0%Q.

(** [generate_plan].  [list_servers(domain=...)] only feeds a log line. *)
Definition generate_plan (r : ToolRegistry) (intent : UserIntent.t) : OrchestrationPlan.t :=
  let steps :=
    if Str.contains "design" (Str.lower (UserIntent.primary_objective intent))
    then
      let llm_servers :=
        get_category_servers
          (MCPServerSpec.category <$> (_servers r !! "claude_server")) r in
      match llm_servers with
      | [] => []
      | llm :: _ =>
          [ {| OrchestrationStep.step_id := "design_1";
               OrchestrationStep.description := "Generate initial design";
               OrchestrationStep.server_name := MCPServerSpec.name llm;
               OrchestrationStep.tool_name := "generate";
               OrchestrationStep.parameters :=
                 [ ("prompt", VStr (UserIntent.primary_objective intent));
                   ("temperature", VFloat (7 # 10)%Q) ];
               OrchestrationStep.dependencies := [];
               OrchestrationStep.status := PENDING;
               OrchestrationStep.parallel_group := None |} ]
      end
    else [] in
  let estimated_cost :=
    Qsum (omap (fun step => MCPServerSpec.cost_per_call
                              <$> get_server (OrchestrationStep.server_name step) r)
            steps) in
  {| OrchestrationPlan.intent := intent;
     OrchestrationPlan.steps := steps;
     OrchestrationPlan.estimated_cost := estimated_cost;
     OrchestrationPlan.estimated_time := (inject_Z (Z.of_nat (length steps)) * 30)%Q;
     OrchestrationPlan.confidence := (8 # 10)%Q;
     OrchestrationPlan.templates_used := [] |}.

(** The three checks of [validate_plan]; each gives the message of the first
    failure it meets. *)
Definition check_budget (plan : OrchestrationPlan.t) : option string :=
  match UserIntent.budget (OrchestrationPlan.intent plan) with
  | Some budget =>
      if negb (Qeq_bool budget 0)
         && negb (Qle_bool (OrchestrationPlan.estimated_cost plan) budget)
      then Some ("Estimated cost $" +:+ Str.format_2f (OrchestrationPlan.estimated_cost plan)
                 +:+ " exceeds budget $" +:+ Str.format_2f budget)
      else None
  | None => None
  end.

Definition check_servers (r : ToolRegistry) (plan : OrchestrationPlan.t) : option string :=
  match List.find (fun step =>
                match get_server (OrchestrationStep.server_name step) r with
                | Some _ => false | None => true end)
          (OrchestrationPlan.steps plan) with
  | Some step =>
      Some ("Server '" +:+ OrchestrationStep.server_name step +:+ "' not found in registry")
  | None => None
  end.

Definition check_dependencies (plan : OrchestrationPlan.t) : option string :=
  let step_ids := map OrchestrationStep.step_id (OrchestrationPlan.steps plan) in
  let bad :=
    flat_map (fun step =>
                map (fun dep_id => (dep_id, OrchestrationStep.step_id step))
                  (List.filter (fun dep_id => negb (mem dep_id step_ids))
                     (OrchestrationStep.dependencies step)))
      (OrchestrationPlan.steps plan) in
  match bad with
  | (dep_id, sid) :: _ =>
      Some ("Dependency '" +:+ dep_id +:+ "' not found for step '" +:+ sid +:+ "'")
  | [] => None
  end.

(** [validate_plan] *)
Definition validate_plan (r : ToolRegistry) (plan : OrchestrationPlan.t)
  : bool * option string :=
  match check_budget plan with
  | Some msg => (false, Some msg)
  | None =>
      match check_servers r plan with
      | Some msg => (false, Some msg)
      | None =>
          match check_dependencies plan with
          | Some msg => (false, Some msg)
          | None => (true, None)
          end
      end
  end.

(** [estimate_plan_cost] *)
Definition estimate_plan_cost (r : ToolRegistry) (plan : OrchestrationPlan.t) : Q :=
  fold_left (fun total step =>
               match get_server (OrchestrationStep.server_name step) r with
               | Some server => (total + MCPServerSpec.cost_per_call server)%Q
               | None => total
               end)
    (OrchestrationPlan.steps plan) 0%Q.

End Orchestrator.

(** ** [aethermcp/core/kernel.py]

    The kernel runs in a world made of the ledger ([self.provenance._chains]),
    the log of what each request did on the wire, and the number of readings
    taken so far from the outside: [uuid4()], [datetime.utcnow()], the event
    loop's clock, the order in which the requests of one [asyncio.gather]
    finish, and the targets themselves.  A computation either raises or
    returns, and leaves a world. *)

Module Kernel.
Import Py Types Provenance Registry Orchestrator.

Record Outside : Type := {
  uuid4 : nat -> string;
  utcnow : nat -> datetime;
  loop_time : nat -> Q;
  finish_rank : nat -> nat -> nat;
  net : Protocol.target
}.

Record World : Type := {
  ledger : chains;
  wire : list (string * list Protocol.event);
  draws : nat
}.

(** [self.registry] and [self.protocol.max_retries] *)
Record AetherMCP : Type := {
  registry : ToolRegistry;
  max_retries : Z
}.

Definition M (A : Type) : Type := World -> (exn + A) * World.

Definition ret {A} (a : A) : M A := fun w => (inr a, w).

Definition raise {A} (e : exn) : M A := fun w => (inl e, w).

Definition bind {A B} (m : M A) (f : A -> M B) : M B :=
  fun w => match m w with
           | (inl e, w') => (inl e, w')
           | (inr a, w') => f a w'
           end.

(** [try: m  except Exception as e: h e] *)
Definition try_except {A} (m : M A) (h : exn -> M A) : M A :=
  fun w => match m w with
           | (inl e, w') => h e w'
           | (inr a, w') => (inr a, w')
           end.

Notation "'let*' x ':=' c 'in' k" := (bind c (fun x => k))
  (at level 10, x pattern, c at level 100, k at level 200, only parsing).

Fixpoint mapM {A B} (f : A -> M B) (l : list A) : M (list B) :=
  match l with
  | [] => ret []
  | a :: l' => let* b := f a in let* bs := mapM f l' in ret (b :: bs)
  end.

(** Stable insertion sort on a key. *)
Fixpoint insert_by {A} (key : A -> nat) (a : A) (l : list A) : list A :=
  match l with
  | [] => [a]
  | b :: l' => if (key a <=? key b)%nat then a :: l else b :: insert_by key a l'
  end.

Definition sort_by {A} (key : A -> nat) (l : list A) : list A :=
  fold_right (insert_by key) [] l.

Section Run.
Variable o : Outside.
Variable k : AetherMCP.

Definition next (w : World) : World :=
  {| ledger := ledger w; wire := wire w; draws := S (draws w) |}.

Definition draw {A} (f : Outside -> nat -> A) : M A :=
  fun w => (inr (f o (draws w)), next w).

Definition get_draws : M nat := fun w => (inr (draws w), w).

(** A call into the ledger. *)
Definition on_ledger {A} (f : chains -> (exn + A) * chains) : M A :=
  fun w =>
    let '(r, cs) := f (ledger w) in
    (r, {| ledger := cs; wire := wire w; draws := draws w |}).

Definition log_wire (request_id : string) (evs : list Protocol.event) : M unit :=
  fun w =>
    (inr tt, {| ledger := ledger w; wire := (wire w ++ [(request_id, evs)])%list;
                draws := draws w |}).

(** [self.provenance.create_session()] *)
Definition create_session_m : M string :=
  let* uuid := draw uuid4 in
  let* now := draw utcnow in
  let* now_data := draw utcnow in
  let* now_chain := draw utcnow in
  on_ledger (fun cs =>
    let '(sid, cs') := create_session uuid now now_data now_chain None cs in
    (inr sid, cs')).

Definition record_intent_m (sid : string) (d : dict) : M string :=
  let* uuid := draw uuid4 in
  let* now := draw utcnow in
  on_ledger (record_intent uuid now sid d None).

Definition record_plan_m (sid : string) (d : dict) (parent_id : string) : M string :=
  let* uuid := draw uuid4 in
  let* now := draw utcnow in
  on_ledger (record_plan uuid now sid d parent_id).

Definition record_step_m (sid : string) (d : dict) (parent_id : string) : M string :=
  let* uuid := draw uuid4 in
  let* now := draw utcnow in
  on_ledger (record_step uuid now sid d parent_id).

Definition record_result_m (sid : string) (d : dict) (parent_id : string) : M string :=
  let* uuid := draw uuid4 in
  let* now := draw utcnow in
  on_ledger (record_result uuid now sid d parent_id).

(** [self.provenance.get_chain(session_id)] where a [ProvenanceChain] is
    required: pydantic refuses [None]. *)
Definition get_chain_m (sid : string) : M ProvenanceChain :=
  fun w =>
    match get_chain sid (ledger w) with
    | Some chain => (inr chain, w)
    | None => (inl (Raise "ValidationError" "provenance: Input should be a valid dictionary or instance of ProvenanceChain"), w)
    end.

(** [self.provenance.compute_session_cost]: the sum of the [cost] entries of
    the step nodes. *)
Definition cost_entry (node : ProvenanceNode) : Q :=
  if String.eqb (node_type node) "step"
  then match dict_get "cost" (data node) with
       | Some (VFloat q) => q
       | Some (VInt z) => inject_Z z
       | _ => 0%Q
       end
  else 0%Q.

Definition compute_session_cost (sid : string) (cs : chains) : Q :=
  match cs !! sid with
  | None => 0%Q
  | Some chain => Qsum (map cost_entry (nodes chain))
  end.

(** *** [_execute_step]

    The coroutine runs without suspending up to the first exchange of
    [send_request] ([start_step]), and resumes when its request has
    settled ([finish_step]).  [asyncio.gather(..., return_exceptions=True)]
    hands back what the coroutine returned or raised. *)

Inductive started : Type :=
| Raised (e : exn)
| Waiting (server : MCPServerSpec.t) (step_node_id : string) (request_id : string).

Definition step_data (step : OrchestrationStep.t) : dict :=
  [ ("step_id", VStr (OrchestrationStep.step_id step));
    ("server", VStr (OrchestrationStep.server_name step));
    ("tool", VStr (OrchestrationStep.tool_name step));
    ("parameters", VDict (OrchestrationStep.parameters step)) ].

Definition result_data (step : OrchestrationStep.t) (response : MCPResponse.t) : dict :=
  [ ("step_id", VStr (OrchestrationStep.step_id step));
    ("result", MCPResponse.result response);
    ("cost", VFloat (MCPResponse.cost response));
    ("error", dump_opt VStr (MCPResponse.error response)) ].

Definition start_step (sid : string) (parent_node_id : string)
  (step : OrchestrationStep.t) : M started :=
  match get_server (OrchestrationStep.server_name step) (registry k) with
  | None =>
      ret (Raised (ValueError ("Server '" +:+ OrchestrationStep.server_name step
                               +:+ "' not found")))
  | Some server =>
      try_except
        (let* step_node_id := record_step_m sid (step_data step) parent_node_id in
         let* request_id := draw uuid4 in
         ret (Waiting server step_node_id request_id))
        (fun e => ret (Raised e))
  end.

Definition finish_step (sid : string) (step : OrchestrationStep.t) (st : started)
  : M (exn + MCPResponse.t * Q) :=
  match st with
  | Raised e => ret (inl e)
  | Waiting server step_node_id request_id =>
      try_except
        (let '(response, evs) :=
           Protocol.send_request (net o) (max_retries k) request_id server
             (OrchestrationStep.tool_name step) (OrchestrationStep.parameters step) None in
         let* _ := log_wire request_id evs in
         let* _ := record_result_m sid (result_data step response) step_node_id in
         ret (inr (response, MCPResponse.cost response)))
        (fun e => ret (inl e))
  end.


(** [await asyncio.gather( *tasks, return_exceptions=True)]: the tasks start
    in the order of the group, finish in the order the outside decides, and
    the results come back in the order of the group. *)
Definition gather (sid : string) (parent_node_id : string)
  (group : list OrchestrationStep.t) : M (list (exn + MCPResponse.t * Q)) :=
  let* base := get_draws in
  let* sts := mapM (start_step sid parent_node_id) group in
  let tasks := combine (seq 0 (length group)) (combine group sts) in
  let order := sort_by (fun t => finish_rank o base (fst t)) tasks in
  let* done := mapM (fun t => let* r := finish_step sid (fst (snd t)) (snd (snd t)) in
                              ret (fst t, r)) order in
  ret (map snd (sort_by fst done)).

(** *** [_execute_plan] *)

Definition group_state : Type :=
  list (list OrchestrationStep.t) * list OrchestrationStep.t * option Z.

Definition flush (groups : list (list OrchestrationStep.t))
  (current_group : list OrchestrationStep.t) : list (list OrchestrationStep.t) :=
  match current_group with
  | [] => groups
  | _ => (groups ++ [current_group])%list
  end.

Definition group_step (st : group_state) (step : OrchestrationStep.t) : group_state :=
  let '(groups, current_group, current_parallel_id) := st in
  if decide (OrchestrationStep.parallel_group step = current_parallel_id)
  then (groups, (current_group ++ [step])%list, current_parallel_id)
  else (flush groups current_group, [step], OrchestrationStep.parallel_group step).

Definition sequential_groups (steps : list OrchestrationStep.t)
  : list (list OrchestrationStep.t) :=
  let '(groups, current_group, _) := fold_left group_step steps ([], [], None) in
  flush groups current_group.

(** The state of the run: [deliverables], [total_cost], and the steps whose
    status has been written. *)
Definition run_state : Type := dict * Q * list OrchestrationStep.t.

(** One turn of "Process results". *)
Definition process_result (acc : run_state)
  (sr : OrchestrationStep.t * (exn + MCPResponse.t * Q)) : run_state :=
  let '(deliverables, total_cost, settled) := acc in
  let '(step, result) := sr in
  match result with
  | inl _ =>
      (deliverables, total_cost,
       (settled ++ [OrchestrationStep.set_status FAILED step])%list)
  | inr (response, cost) =>
      (dict_set (OrchestrationStep.step_id step) (MCPResponse.result response) deliverables,
       (total_cost + cost)%Q,
       (settled ++ [OrchestrationStep.set_status COMPLETED step])%list)
  end.

Definition run_group (sid : string) (plan_node_id : string) (acc : run_state)
  (group : list OrchestrationStep.t) : M run_state :=
  let* results := gather sid plan_node_id group in
  ret (fold_left process_result (combine group results) acc).

Fixpoint run_groups (sid : string) (plan_node_id : string) (acc : run_state)
  (groups : list (list OrchestrationStep.t)) : M run_state :=
  match groups with
  | [] => ret acc
  | group :: groups' =>
      let* acc' := run_group sid plan_node_id acc group in
      run_groups sid plan_node_id acc' groups'
  end.

(** [_execute_plan]: besides [(deliverables, total_cost)] the model hands
    back the steps of the plan as the run leaves them, since their [status]
    is written in place. *)
Definition _execute_plan (sid : string) (plan : OrchestrationPlan.t)
  (plan_node_id : string) : M run_state :=
  run_groups sid plan_node_id ([], 0%Q, [])
    (sequential_groups (OrchestrationPlan.steps plan)).

(** *** [execute_async] *)

Definition failed_result (sid : string) (intent : UserIntent.t)
  (chain : ProvenanceChain) (cost elapsed : Q) (error : option string)
  : ExecutionResult.t :=
  {| ExecutionResult.session_id := sid;
     ExecutionResult.intent := intent;
     ExecutionResult.deliverables := [];
     ExecutionResult.provenance := chain;
     ExecutionResult.cost := cost;
     ExecutionResult.time_elapsed := elapsed;
     ExecutionResult.confidence := 0%Q;
     ExecutionResult.status := FAILED;
     ExecutionResult.error := error;
     ExecutionResult.metadata := [] |}.

(** The [except Exception as e] clause; [parsed] is [parsed_intent] when it
    is among the locals. *)
Definition on_exception (sid : string) (intent : string) (start_time : Q)
  (parsed : option UserIntent.t) (e : exn) : M ExecutionResult.t :=
  let* end_time := draw loop_time in
  let* chain := get_chain_m sid in
  let* cs := (fun w => (inr (ledger w), w)) in
  ret (failed_result sid
         (match parsed with
          | Some parsed_intent => parsed_intent
          | None => {| UserIntent.raw_input := intent;
                       UserIntent.primary_objective := intent;
                       UserIntent.domain := "unknown";
                       UserIntent.constraints := [];
                       UserIntent.success_criteria := [];
                       UserIntent.budget := None;
                       UserIntent.mode := NARROW |}
          end)
         chain (compute_session_cost sid cs) (end_time - start_time)%Q (Some (str_exn e))).

(** [execute_async], with the planner it calls as [generate]: the kernel
    calls [self.orchestrator.generate_plan]. *)
Definition execute_async_with
  (generate : ToolRegistry -> UserIntent.t -> OrchestrationPlan.t)
  (intent : string) (budget : option Q) (constraints : list string) (mode : string)
  : M ExecutionResult.t :=
  let* session_id := create_session_m in
  let* start_time := draw loop_time in
  match parse_intent intent budget constraints mode with
  | inl e => on_exception session_id intent start_time None e
  | inr parsed_intent =>
      try_except
        (let* intent_node_id := record_intent_m session_id (UserIntent_model_dump parsed_intent) in
         let plan := generate (registry k) parsed_intent in
         match validate_plan (registry k) plan with
         | (false, error) =>
             let* chain := get_chain_m session_id in
             ret (failed_result session_id parsed_intent chain 0%Q 0%Q error)
         | (true, _) =>
             let* plan_node_id := record_plan_m session_id (OrchestrationPlan_model_dump plan)
                               intent_node_id in
             let* run := _execute_plan session_id plan plan_node_id in
             let '(deliverables, total_cost, _) := run in
             let* end_time := draw loop_time in
             let* chain := get_chain_m session_id in
             ret {| ExecutionResult.session_id := session_id;
                    ExecutionResult.intent := parsed_intent;
                    ExecutionResult.deliverables := deliverables;
                    ExecutionResult.provenance := chain;
                    ExecutionResult.cost := total_cost;
                    ExecutionResult.time_elapsed := (end_time - start_time)%Q;
                    ExecutionResult.confidence := OrchestrationPlan.confidence plan;
                    ExecutionResult.status := COMPLETED;
                    ExecutionResult.error := None;
                    ExecutionResult.metadata := [] |}
         end)
        (on_exception session_id intent start_time (Some parsed_intent))
  end.

Definition execute_async : string -> option Q -> list string -> string -> M ExecutionResult.t :=
  execute_async_with generate_plan.

End Run.

(** Whether the ledger of [w] tracks [sid]. *)
Definition tracked (sid : string) (w : World) : bool :=
  match ledger w !! sid with Some _ => true | None => false end.

Definition is_exc {A} (r : exn + A) : bool :=
  match r with inl _ => true | inr _ => false end.

Definition is_raised (st : started) : bool :=
  match st with Raised _ => true | Waiting _ _ _ => false end.

(** The two ways [_execute_step] raises: the server of the step is not
    registered, or the ledger does not track the session ([b] says whether
    it does). *)
Definition raises (k : AetherMCP) (b : bool) (step : OrchestrationStep.t) : bool :=
  match get_server (OrchestrationStep.server_name step) (registry k) with
  | None => true
  | Some _ => negb b
  end.

(** The step as "Process results" leaves it. *)
Definition settle (k : AetherMCP) (b : bool) (step : OrchestrationStep.t)
  : OrchestrationStep.t :=
  OrchestrationStep.set_status (if raises k b step then FAILED else COMPLETED) step.


(** A run keeps the session tracked, or untracked, as [b] says. *)
Definition inv (sid : string) (b : bool) (w : World) : Prop := tracked sid w = b.

(** The outcome and the world a computation leaves satisfy [Q]. *)
Definition wp {A} (m : M A) (w : World) (Q : exn + A -> World -> Prop) : Prop :=
  Q (fst (m w)) (snd (m w)).

(** The world a fresh kernel starts in. *)
Definition fresh : World := {| ledger := ∅; wire := []; draws := 0 |}.

(** A computation keeps [I]: run in a world where [I] holds, it leaves one
    where [I] holds, whether it returns or raises. *)
Definition keeps {A} (I : World -> Prop) (m : M A) : Prop :=
  forall w, I w -> wp m w (fun _ w' => I w').

(** The chain that [w] holds for [sid] carries that id, is not empty and
    verifies. *)
Definition sound (sid : string) (w : World) : Prop :=
  exists chain,
    ledger w !! sid = Some chain /\ session_id chain = sid /\ nodes chain <> []
    /\ verify_chain sid (ledger w) = true.

(** The chain that [w] holds for [sid] has a node of id [p]. *)
Definition holds (sid p : string) (w : World) : Prop :=
  exists chain, ledger w !! sid = Some chain /\ parent_exists (nodes chain) p = true.

(** From [w] to [w'] the chain of [sid] stays sound and loses no node id. *)
Definition grows (sid : string) (w w' : World) : Prop :=
  sound sid w' /\ forall p, holds sid p w -> holds sid p w'.




End Kernel.

(** ** Float arithmetic

    A float is a real number of the form [m * 2^e] with [|m| < 2^53] and
    [e >= -1074] (binary64, subnormal numbers included).  An operation on
    floats gives the float nearest to the exact result, a tie going to the
    float whose last bit is 0 ([round]).  The exponent is not bounded
    above: a result of magnitude [2^1024] or more, which is [inf] in Python,
    is a real number here, and is told apart by [finite]. *)

Module Float.
Local Open Scope R_scope.

(** [2^e] *)
Definition pow2 (e : Z) : R := powerRZ 2 e.

(** The integer nearest to [x]; half way between two integers, the even
    one. *)
Definition nearest_even (x : R) : Z :=
  let f := Int_part x in
  if Rlt_dec (x - IZR f) (/ 2) then f
  else if Rlt_dec (/ 2) (x - IZR f) then (f + 1)%Z
  else if Z.even f then f else (f + 1)%Z.

(** [floor (log2 |x|)] *)
Definition mag (x : R) : Z := Int_part (ln (Rabs x) / ln 2).

(** The exponent of the last place of the floats of the size of [x]: 53
    bits, and never below [2^-1074], the step of the subnormal numbers. *)
Definition ulp_exponent (x : R) : Z := Z.max (mag x - 52) (-1074).

(** The float nearest to [x], as every float operation of Python rounds
    its exact result. *)
Definition round (x : R) : R :=
  IZR (nearest_even (x * pow2 (- ulp_exponent x))) * pow2 (ulp_exponent x).

(** [x - y], [x * y] and [x / y] on floats. *)
Definition sub (x y : R) : R := round (x - y).
Definition mul (x y : R) : R := round (x * y).
Definition div (x y : R) : R := round (x / y).


End Float.

(** ** [aethermcp/governance/cognitive_guardian.py]

    Amounts, deviations and the risk tolerance are real numbers; an amount
    of the source, a float or an integer below [2^53], is the real number of
    the same value.  The deviation is computed as the source computes it:
    [statistics.mean] and [statistics.stdev] round their exact result once,
    and every float operation gives the nearest float ([Float.round]).  The
    risk tolerance is read without rounding.  The [parameters] of a decision are
    its numeric entries.  The [timestamp] and [metadata] of a history
    record, and the [alert_id] and [message] of an alert (a clock reading
    and a rendering of the deviation), are not modelled. *)

Module Guardian.
Local Open Scope R_scope.

Inductive AlertLevel : Type := INFO | WARNING | CRITICAL.

Definition parameters : Type := list (string * R).

(** [parameters.get(k)] *)
Fixpoint get (k : string) (ps : parameters) : option R :=
  match ps with
  | [] => None
  | (k', v) :: ps' => if String.eqb k k' then Some v else get k ps'
  end.

Record record : Type := {
  decision_type : string;
  record_parameters : parameters
}.

Record GovernanceAlert : Type := {
  level : AlertLevel;
  source : string;
  requires_action : bool;
  alert_operator_id : string;
  alert_decision_type : string;
  deviation : R;
  alert_parameters : parameters
}.

Record OperatorProfile : Type := {
  profile_operator_id : string;
  selection_patterns : gmap string nat;
  risk_tolerance : R;
  baseline_deviation : R
}.

Record CognitiveGuardian : Type := {
  operator_id : string;
  profile : OperatorProfile;
  history : list record;
  alerts : list GovernanceAlert
}.

(** [CognitiveGuardian(operator_id)] *)
Definition new (operator_id : string) : CognitiveGuardian :=
  {| operator_id := operator_id;
     profile := {| profile_operator_id := operator_id; selection_patterns := ∅;
                   risk_tolerance := 0.5; baseline_deviation := 0 |};
     history := [];
     alerts := [] |}.

Definition Rsum (l : list R) : R := fold_right Rplus 0 l.

(** The mean and the sample variance of [l] as [statistics] holds them,
    in exact fractions. *)
Definition exact_mean (l : list R) : R := Rsum l / INR (length l).

Definition exact_variance (l : list R) : R :=
  Rsum (map (fun x => (x - exact_mean l) * (x - exact_mean l)) l) / (INR (length l) - 1).

(** [statistics.mean]: the exact mean, rounded once. *)
Definition mean (l : list R) : R := Float.round (exact_mean l).

(** [statistics.stdev]: the square root of the exact sample variance,
    rounded once. *)
Definition stdev (l : list R) : R := Float.round (sqrt (exact_variance l)).

(** [_update_profile] *)
Definition _update_profile (dt : string) (ps : parameters) (p : OperatorProfile)
  : OperatorProfile :=
  let patterns :=
    match selection_patterns p !! dt with
    | Some n => <[dt := S n]> (selection_patterns p)
    | None => <[dt := 1%nat]> (selection_patterns p)
    end in
  let tolerance :=
    if String.eqb dt "budget_approval"
    then match get "amount" ps with
         | Some amount =>
             let current_tolerance := risk_tolerance p in
             let alpha := 0.1 in
             let normalized_amount := Rmin (amount / 1000) 1 in
             (1 - alpha) * current_tolerance + alpha * normalized_amount
         | None => risk_tolerance p
         end
    else risk_tolerance p in
  {| profile_operator_id := profile_operator_id p; selection_patterns := patterns;
     risk_tolerance := tolerance; baseline_deviation := baseline_deviation p |}.

(** [record_decision] *)
Definition record_decision (dt : string) (ps : parameters) (g : CognitiveGuardian)
  : CognitiveGuardian :=
  {| operator_id := operator_id g;
     profile := _update_profile dt ps (profile g);
     history := (history g ++ [{| decision_type := dt; record_parameters := ps |}])%list;
     alerts := alerts g |}.

(** [sum(1 for r in self.history if r["decision_type"] == decision_type)] *)
Definition historical_count (dt : string) (h : list record) : nat :=
  length (List.filter (fun r => String.eqb (decision_type r) dt) h).

(** [[r["parameters"].get("amount", 0) for r in self.history
      if r["decision_type"] == "budget_approval"]] *)
Definition historical_amounts (h : list record) : list R :=
  map (fun r => match get "amount" (record_parameters r) with
                | Some a => a
                | None => 0
                end)
    (List.filter (fun r => String.eqb (decision_type r) "budget_approval") h).

(** [statistics.stdev(l) if len(l) > 1 else mean * 0.1] *)
Definition spread (l : list R) : R :=
  if (1 <? length l)%nat then stdev l else Float.mul (mean l) (Float.round 0.1).

(** [_calculate_deviation] *)
Definition _calculate_deviation (dt : string) (ps : parameters) (g : CognitiveGuardian)
  : R :=
  if (historical_count dt (history g) =? 0)%nat then 1.5
  else
    if String.eqb dt "budget_approval"
    then match get "amount" ps with
         | Some amount =>
             let amounts := historical_amounts (history g) in
             match amounts with
             | [] => 0
             | _ =>
                 if Rlt_dec 0 (spread amounts)
                 then Float.div (Rabs (Float.sub amount (mean amounts))) (spread amounts)
                 else 0
             end
         | None => 0
         end
    else 0.


Definition make_alert (lvl : AlertLevel) (action : bool) (dev : R)
  (dt : string) (ps : parameters) (g : CognitiveGuardian) : GovernanceAlert :=
  {| level := lvl; source := "cognitive_guardian"; requires_action := action;
     alert_operator_id := operator_id g; alert_decision_type := dt;
     deviation := dev; alert_parameters := ps |}.

Definition add_alert (a : GovernanceAlert) (g : CognitiveGuardian) : CognitiveGuardian :=
  {| operator_id := operator_id g; profile := profile g; history := history g;
     alerts := (alerts g ++ [a])%list |}.

(** [check_anomaly] *)
Definition check_anomaly (dt : string) (ps : parameters) (g : CognitiveGuardian)
  : option GovernanceAlert * CognitiveGuardian :=
  if (length (history g) <? 10)%nat then (None, g)
  else
    let dev := _calculate_deviation dt ps g in
    if Rge_dec dev 3
    then let alert := make_alert CRITICAL true dev dt ps g in
         (Some alert, add_alert alert g)
    else if Rge_dec dev 2
    then let alert := make_alert WARNING false dev dt ps g in
         (Some alert, add_alert alert g)
    else (None, g).

(** The [decision_types] counter of [get_baseline_stats]. *)
Definition count_types (h : list record) : gmap string nat :=
  fold_left (fun m r => <[decision_type r := S (default 0%nat (m !! decision_type r))]> m) h ∅.

Record baseline_stats : Type := {
  total_decisions : nat;
  decision_types : gmap string nat;
  stats_risk_tolerance : R;
  stats_baseline_deviation : R
}.

(** [get_baseline_stats]: [None] is the empty dictionary returned on an
    empty history. *)
Definition get_baseline_stats (g : CognitiveGuardian) : option baseline_stats :=
  match history g with
  | [] => None
  | _ =>
      Some {| total_decisions := length (history g);
              decision_types := count_types (history g);
              stats_risk_tolerance := risk_tolerance (profile g);
              stats_baseline_deviation := baseline_deviation (profile g) |}
  end.

(** [reset_baseline] *)
Definition reset_baseline (g : CognitiveGuardian) : CognitiveGuardian :=
  {| operator_id := operator_id g;
     profile := {| profile_operator_id := profile_operator_id (profile g);
                   selection_patterns := ∅;
                   risk_tolerance := 0.5;
                   baseline_deviation := 0 |};
     history := [];
     alerts := alerts g |}.

(** A call on a guardian, and the guardian that a sequence of calls leaves,
    starting from [CognitiveGuardian(operator_id)]. *)
Inductive call : Type :=
| Record_decision (dt : string) (ps : parameters)
| Check_anomaly (dt : string) (ps : parameters)
| Reset_baseline.

Definition run_call (g : CognitiveGuardian) (c : call) : CognitiveGuardian :=
  match c with
  | Record_decision dt ps => record_decision dt ps g
  | Check_anomaly dt ps => snd (check_anomaly dt ps g)
  | Reset_baseline => reset_baseline g
  end.

Definition after_calls (operator_id : string) (calls : list call) : CognitiveGuardian :=
  fold_left run_call calls (new operator_id).

End Guardian.

(** ** [aethermcp/governance/sentinels.py]

    A state snapshot is read through the four entries the sentinels look at,
    each absent or of the type its reader expects; numbers are exact
    rationals.  The [alert_id] and [timestamp] of an alert are clock readings
    and are not modelled.  Sentinels are objects that their creator and a
    manager both hold: they live in a heap, and the manager lists their
    addresses. *)

Module Sentinels.
Import Py.

Inductive AlertLevel : Type := INFO | WARNING | CRITICAL.

Record GovernanceAlert : Type := {
  level : AlertLevel;
  message : string;
  source : string;
  requires_action : bool;
  metadata : dict
}.

(** [state: Dict[str, Any]] *)
Record state : Type := {
  total_cost : option Q;
  validation_results : option dict;
  domain : option string;
  confidence : option Q
}.

(** The fields that the three classes add to [Sentinel]. *)
Inductive fields : Type :=
| CostSentinel (budget spent : Q)
| SecuritySentinel (violations : list value)
| ValidationSentinel (min_confidence : Q).

Record Sentinel : Type := {
  name : string;
  enabled : bool;
  alerts : list GovernanceAlert;
  own : fields
}.

(** [CostSentinel(budget)], [SecuritySentinel()],
    [ValidationSentinel(min_confidence)] *)
Definition new_cost (budget : Q) : Sentinel :=
  {| name := "cost_sentinel"; enabled := true; alerts := []; own := CostSentinel budget 0 |}.

Definition new_security : Sentinel :=
  {| name := "security_sentinel"; enabled := true; alerts := [];
     own := SecuritySentinel [] |}.

Definition new_validation (min_confidence : Q) : Sentinel :=
  {| name := "validation_sentinel"; enabled := true; alerts := [];
     own := ValidationSentinel min_confidence |}.

Definition set_enabled (b : bool) (s : Sentinel) : Sentinel :=
  {| name := name s; enabled := b; alerts := alerts s; own := own s |}.

Definition set_alerts (l : list GovernanceAlert) (s : Sentinel) : Sentinel :=
  {| name := name s; enabled := enabled s; alerts := l; own := own s |}.

Definition set_own (f : fields) (s : Sentinel) : Sentinel :=
  {| name := name s; enabled := enabled s; alerts := alerts s; own := f |}.

(** [enable], [disable] *)
Definition enable : Sentinel -> Sentinel := set_enabled true.
Definition disable : Sentinel -> Sentinel := set_enabled false.

(** [CostSentinel.update_budget]; the other classes have no such method. *)
Definition update_budget (new_budget : Q) (s : Sentinel) : Sentinel :=
  match own s with
  | CostSentinel _ spent => set_own (CostSentinel new_budget spent) s
  | _ => s
  end.

(** [isinstance(result, dict) and result.get("severity") == "critical"] *)
Definition is_critical (result : value) : bool :=
  match result with
  | VDict d =>
      match dict_get "severity" d with
      | Some (VStr severity) => String.eqb severity "critical"
      | _ => false
      end
  | _ => false
  end.

Definition high_stakes_keywords : list string := ["security"; "safety"; "health"; "financial"].

(** [any(keyword in domain.lower() for keyword in [...])] *)
Definition high_stakes (domain : string) : bool :=
  existsb (fun keyword => Str.contains keyword (Str.lower domain)) high_stakes_keywords.

Definition cost_alert (s : Sentinel) (budget current_cost : Q) : GovernanceAlert :=
  {| level := CRITICAL;
     message := "Budget exceeded: $" +:+ Str.format_2f current_cost +:+ " > $"
                +:+ Str.format_2f budget;
     source := name s;
     requires_action := true;
     metadata := [ ("budget", VFloat budget); ("spent", VFloat current_cost);
                   ("overage", VFloat (current_cost - budget)) ] |}.

Definition security_alert (s : Sentinel) (critical_failures : list value) : GovernanceAlert :=
  {| level := CRITICAL;
     message := "Critical security validation failed: "
                +:+ Json.dumps_int (Z.of_nat (length critical_failures)) +:+ " issues";
     source := name s;
     requires_action := true;
     metadata := [ ("failures", VList critical_failures);
                   ("count", VInt (Z.of_nat (length critical_failures))) ] |}.

Definition validation_alert (s : Sentinel) (domain : string) (confidence min_confidence : Q)
  : GovernanceAlert :=
  {| level := WARNING;
     message := "Low confidence in high-stakes domain: " +:+ Str.format_2f confidence
                +:+ " < " +:+ Str.format_2f min_confidence;
     source := name s;
     requires_action := true;
     metadata := [ ("domain", VStr domain); ("confidence", VFloat confidence);
                   ("min_required", VFloat min_confidence) ] |}.

(** [self.alerts.append(alert)] and [return alert] *)
Definition raise_alert (alert : GovernanceAlert) (s : Sentinel)
  : option GovernanceAlert * Sentinel :=
  (Some alert, set_alerts (alerts s ++ [alert])%list s).

(** [check], by class *)
Definition check (st : state) (s : Sentinel) : option GovernanceAlert * Sentinel :=
  if negb (enabled s) then (None, s)
  else
    match own s with
    | CostSentinel budget _ =>
        let current_cost := default 0%Q (total_cost st) in
        let s := set_own (CostSentinel budget current_cost) s in
        if negb (Qle_bool current_cost budget)
        then raise_alert (cost_alert s budget current_cost) s
        else (None, s)
    | SecuritySentinel violations =>
        let results := default [] (validation_results st) in
        let critical_failures := List.filter is_critical (map snd results) in
        match critical_failures with
        | [] => (None, s)
        | _ =>
            let '(alert, s) := raise_alert (security_alert s critical_failures) s in
            (alert, set_own (SecuritySentinel (violations ++ critical_failures)%list) s)
        end
    | ValidationSentinel min_confidence =>
        let domain := default EmptyString (domain st) in
        if negb (high_stakes domain) then (None, s)
        else
          let confidence := default 0%Q (confidence st) in
          if negb (Qle_bool min_confidence confidence)
          then raise_alert (validation_alert s domain confidence min_confidence) s
          else (None, s)
    end.

(** *** [SentinelManager] *)

Record SentinelManager : Type := {
  heap : list Sentinel;
  sentinels : list nat;
  manager_alerts : list GovernanceAlert
}.

(** [SentinelManager()], in a heap without objects *)
Definition new_manager : SentinelManager :=
  {| heap := []; sentinels := []; manager_alerts := [] |}.

(** Creating a sentinel object: its address is handed back. *)
Definition create (s : Sentinel) (m : SentinelManager) : nat * SentinelManager :=
  (length (heap m),
   {| heap := (heap m ++ [s])%list; sentinels := sentinels m;
      manager_alerts := manager_alerts m |}).

(** A method called on the object at the address [ref]. *)
Definition on_object (f : Sentinel -> Sentinel) (ref : nat) (m : SentinelManager)
  : SentinelManager :=
  {| heap := alter f ref (heap m); sentinels := sentinels m;
     manager_alerts := manager_alerts m |}.

(** [add_sentinel] *)
Definition add_sentinel (ref : nat) (m : SentinelManager) : SentinelManager :=
  {| heap := heap m; sentinels := (sentinels m ++ [ref])%list;
     manager_alerts := manager_alerts m |}.

(** [remove_sentinel] *)
Definition remove_sentinel (nm : string) (m : SentinelManager) : SentinelManager :=
  {| heap := heap m;
     sentinels :=
       List.filter (fun ref => match heap m !! ref with
                               | Some s => negb (String.eqb (name s) nm)
                               | None => true
                               end) (sentinels m);
     manager_alerts := manager_alerts m |}.

(** One turn of the loop of [check_all]; an address always names an
    object. *)
Definition check_one (st : state) (acc : list GovernanceAlert * SentinelManager) (ref : nat)
  : list GovernanceAlert * SentinelManager :=
  let '(found, m) := acc in
  match heap m !! ref with
  | None => (found, m)
  | Some s =>
      if enabled s
      then
        let '(alert, s') := check st s in
        let heap' := <[ref := s']> (heap m) in
        match alert with
        | Some alert =>
            ((found ++ [alert])%list,
             {| heap := heap'; sentinels := sentinels m;
                manager_alerts := (manager_alerts m ++ [alert])%list |})
        | None =>
            (found, {| heap := heap'; sentinels := sentinels m;
                       manager_alerts := manager_alerts m |})
        end
      else (found, m)
  end.

(** [check_all] *)
Definition check_all (st : state) (m : SentinelManager)
  : list GovernanceAlert * SentinelManager :=
  fold_left (check_one st) (sentinels m) ([], m).

Definition is_critical_level (l : AlertLevel) : bool :=
  match l with CRITICAL => true | _ => false end.

(** [has_critical_alerts] *)
Definition has_critical_alerts (m : SentinelManager) : bool :=
  existsb (fun a => is_critical_level (level a)) (manager_alerts m).

(** [get_active_alerts] *)
Definition get_active_alerts (m : SentinelManager) : list GovernanceAlert := manager_alerts m.

(** [clear_alerts] *)
Definition clear_alerts (m : SentinelManager) : SentinelManager :=
  {| heap := fold_left (fun h ref => alter (set_alerts []) ref h) (sentinels m) (heap m);
     sentinels := sentinels m;
     manager_alerts := [] |}.

(** A call made by the holder of a manager and of the sentinels. *)
Inductive call : Type :=
| Create (s : Sentinel)
| Add_sentinel (ref : nat)
| Remove_sentinel (nm : string)
| Enable (ref : nat)
| Disable (ref : nat)
| Update_budget (ref : nat) (new_budget : Q)
| Check_all (st : state)
| Clear_alerts.

Definition run_call (m : SentinelManager) (c : call) : SentinelManager :=
  match c with
  | Create s => snd (create s m)
  | Add_sentinel ref => add_sentinel ref m
  | Remove_sentinel nm => remove_sentinel nm m
  | Enable ref => on_object enable ref m
  | Disable ref => on_object disable ref m
  | Update_budget ref new_budget => on_object (update_budget new_budget) ref m
  | Check_all st => snd (check_all st m)
  | Clear_alerts => clear_alerts m
  end.

Definition is_clear (c : call) : bool :=
  match c with Clear_alerts => true | _ => false end.

End Sentinels.

(** ** Concrete ledgers used below *)

Module Scenario.
Import Py Provenance.

Definition t0 : datetime := "2024-05-01T09:00:00".
Definition t1 : datetime := "2024-05-01T09:00:01".
Definition t2 : datetime := "2024-05-01T09:00:02".
Definition t3 : datetime := "2024-05-01T09:00:03".

(** [create_session("s")] on a fresh engine. *)
Definition one_session : chains := snd (create_session "u0" t0 t0 t0 (Some "s") ∅).

(** ... then [record_intent("s", {"raw_input": "design"})]. *)
Definition with_intent : chains :=
  snd (record_intent "a" t1 "s" [("raw_input", VStr "design")] None one_session).

(** ... then [record_synthesis("s", {}, ["s_genesis", "s_a"])]. *)
Definition diamond : chains :=
  snd (record_synthesis "z" t2 "s" [] ["s_genesis"; "s_a"] with_intent).


(** A document for session ["s"] whose only node carries a hash that is not
    its digest. *)
Definition forged : ProvenanceChain :=
  {| session_id := "s";
     nodes := [ {| node_id := "s_genesis"; node_type := "genesis"; timestamp := t0;
                   data := [("session_id", VStr "s"); ("created_at", VStr t0)];
                   parent_ids := []; hash := "00" |} ];
     root_hash := "00"; created_at := t0; metadata := [] |}.



(** A registered capability endpoint. *)
Definition claude_server : Types.MCPServerSpec.t :=
  {| Types.MCPServerSpec.name := "claude_server";
     Types.MCPServerSpec.category := Types.LLM;
     Types.MCPServerSpec.endpoint := "http://localhost:8001";
     Types.MCPServerSpec.capabilities := [];
     Types.MCPServerSpec.strengths := ["design"];
     Types.MCPServerSpec.cost_per_call := 5%Q;
     Types.MCPServerSpec.auth_required := true;
     Types.MCPServerSpec.metadata := [] |}.

(** A target whose every exchange times out; [str(httpx.ReadTimeout(""))] is
    the empty string. *)
Definition always_times_out : Protocol.target :=
  fun _ _ _ => inl (Raise "ReadTimeout" EmptyString).

(** A target whose every exchange is refused with a status 503. *)
Definition always_unavailable : Protocol.target :=
  fun _ _ _ => inl (Raise "HTTPStatusError" "Server error '503 Service Unavailable'").


(** A registry holding [claude_server] alone. *)
Definition registry1 : Registry.ToolRegistry := Registry.register claude_server Registry.new.

(** A kernel over [registry1], with the default three attempts per request. *)
Definition kernel1 : Kernel.AetherMCP :=
  {| Kernel.registry := registry1; Kernel.max_retries := 3 |}.

Definition digit (n : nat) : string := Json.dumps_int (Z.of_nat n).

(** An outside whose [k]-th reading is ["id-k"] for [uuid4()] and ["tk"] for
    the clock, whose requests finish in the order they started, and whose
    targets are all [net]. *)
Definition outside_of (net : Protocol.target) : Kernel.Outside :=
  {| Kernel.uuid4 := fun k => "id-" +:+ digit k;
     Kernel.utcnow := fun k => "t" +:+ digit k;
     Kernel.loop_time := fun k => inject_Z (Z.of_nat k);
     Kernel.finish_rank := fun _ i => i;
     Kernel.net := net |}.



(** A step for the registered [claude_server]. *)
Definition design_step : Types.OrchestrationStep.t :=
  {| Types.OrchestrationStep.step_id := "design_1";
     Types.OrchestrationStep.description := "Generate initial design";
     Types.OrchestrationStep.server_name := "claude_server";
     Types.OrchestrationStep.tool_name := "generate";
     Types.OrchestrationStep.parameters := [("prompt", VStr "design a bridge")];
     Types.OrchestrationStep.dependencies := [];
     Types.OrchestrationStep.status := Types.PENDING;
     Types.OrchestrationStep.parallel_group := None |}.

(** [kernel.execute_async("Please design a bridge", budget=1.0)] on a fresh
    kernel: the plan costs 5.0. *)
Definition over_budget_run : (exn + Types.ExecutionResult.t) * Kernel.World :=
  Kernel.execute_async (outside_of always_unavailable) kernel1
    "Please design a bridge" (Some 1%Q) [] "narrow" Kernel.fresh.



(** An operator who approved the budgets [amounts], in this order. *)
Definition approvals (amounts : list R) : Guardian.CognitiveGuardian :=
  fold_left (fun g a => Guardian.record_decision "budget_approval" [("amount", a)] g)
    amounts (Guardian.new "op").

(** Ten approvals around 100: mean 100, sample variance 1000/9. *)
Definition around_100 : list R := [90; 110; 90; 110; 90; 110; 90; 110; 90; 110]%R.




(** The answer of an endpoint to [request]. *)
Definition answer (request : Types.MCPRequest.t) : Types.MCPResponse.t :=
  {| Types.MCPResponse.request_id := Types.MCPRequest.request_id request;
     Types.MCPResponse.server_name := Types.MCPRequest.server_name request;
     Types.MCPResponse.tool_name := Types.MCPRequest.tool_name request;
     Types.MCPResponse.result := VStr "a bridge";
     Types.MCPResponse.error := None;
     Types.MCPResponse.cost := 5%Q;
     Types.MCPResponse.metadata := [] |}.

(** A target that is unavailable twice and answers the third exchange. *)
Definition answers_third : Protocol.target :=
  fun _ request attempt =>
    if (attempt <? 2)%nat
    then inl (Raise "HTTPStatusError" "Server error '503 Service Unavailable'")
    else inr (answer request).

(** The chain of session ["s"] in [with_intent], as a document to import. *)
Definition exported : ProvenanceChain :=
  match with_intent !! "s" with
  | Some chain => chain
  | None => forged
  end.

(** A snapshot that reports a total cost and nothing else. *)
Definition costing (total_cost : Q) : Sentinels.state :=
  {| Sentinels.total_cost := Some total_cost; Sentinels.validation_results := None;
     Sentinels.domain := None; Sentinels.confidence := None |}.

(** A manager holding one [CostSentinel(budget=10.0)], after a check of a
    total cost of 12.0. *)
Definition tripped : Sentinels.SentinelManager :=
  fold_left Sentinels.run_call
    [Sentinels.Create (Sentinels.new_cost 10); Sentinels.Add_sentinel 0;
     Sentinels.Check_all (costing 12)]
    Sentinels.new_manager.

End Scenario.

(** * Properties *)

Example round_constants_are_cube_roots :
  length Sha256.K = 64%nat
  /\ forallb (fun pc => Sha256.is_root_fraction 3 (fst pc) (snd pc))
       (combine Sha256.primes64 Sha256.K) = true.
Proof. split; vm_compute; reflexivity. Qed.

Example initial_hash_is_square_roots :
  length Sha256.H0 = 8%nat
  /\ forallb (fun pc => Sha256.is_root_fraction 2 (fst pc) (snd pc))
       (combine Sha256.primes64 Sha256.H0) = true.
Proof. split; vm_compute; reflexivity. Qed.

Example sha256_abc :
  Sha256.sha256_hex "abc"
  = "ba7816bf8f01cfea414140de5dae2223b00361a396177a9cb410ff61f20015ad".
Proof. vm_compute. reflexivity. Qed.

Example sha256_empty :
  Sha256.sha256_hex EmptyString
  = "e3b0c44298fc1c149afbf4c8996fb92427ae41e4649b934ca495991b7852b855".
Proof. vm_compute. reflexivity. Qed.

Example sha256_two_blocks :
  Sha256.sha256_hex "abcdbcdecdefdefgefghfghighijhijkijkljklmklmnlmnomnopnopq"
  = "248d6a61d20638b8e5c026930c3e6039a33ce45964ff2167f6ecedd419db06c1".
Proof. vm_compute. reflexivity. Qed.

(** [json.dumps({"b": [1, 0.7, None], "a": "x y", "c": {}, "d": 30.0,
    "e": (True, -3)}, sort_keys=True)]; the pieces below are joined by the
    quote character. *)
Example json_dumps_sample :
  Json.dumps (Py.VDict [("b", Py.VList [Py.VInt 1; Py.VFloat (7 # 10); Py.VNone]);
                        ("a", Py.VStr "x y"); ("c", Py.VDict []); ("d", Py.VFloat 30);
                        ("e", Py.VTuple [Py.VBool true; Py.VInt (-3)])])
  = String.concat (String (ascii_of_N 34) EmptyString)
      ["{"; "a"; ": "; "x y"; ", "; "b"; ": [1, 0.7, null], "; "c"; ": {}, "; "d"; ": 30.0, "; "e"; ": [true, -3]}"].
Proof. vm_compute. reflexivity. Qed.

(** ** The ledger *)

Module ProvenanceFacts.
Import Py Provenance.

Lemma forallb_false_at {A} (f : A -> bool) (l : list A) (x : A) :
  In x l -> f x = false -> forallb f l = false.
Proof.
  intros Hin Hf. destruct (forallb f l) eqn:E; [|reflexivity].
  rewrite forallb_forall in E. rewrite (E x Hin) in Hf. discriminate.
Qed.

Lemma verify_chain_lookup sid (cs : chains) chain :
  cs !! sid = Some chain ->
  verify_chain sid cs = forallb (verify_node (nodes chain)) (nodes chain) && verify_root chain.
Proof. intros H. unfold verify_chain. rewrite H. reflexivity. Qed.

Lemma verify_chain_alone sid (cs : chains) chain :
  session_id chain = sid ->
  verify_chain sid (<[sid := chain]> cs) = verifies chain.
Proof.
  intros <-. unfold verifies.
  rewrite !(verify_chain_lookup _ _ chain) by apply lookup_insert_eq. reflexivity.
Qed.

(** A node whose parent list names an id that is no node of the chain makes
    [verify_chain] fail. *)
Lemma verify_chain_dangling sid (cs : chains) chain node pid :
  cs !! sid = Some chain -> In node (nodes chain) -> In pid (parent_ids node) ->
  parent_exists (nodes chain) pid = false ->
  verify_chain sid cs = false.
Proof.
  intros Hcs Hnode Hpid Hmiss. rewrite (verify_chain_lookup _ _ _ Hcs).
  rewrite (forallb_false_at _ _ node Hnode); [reflexivity|].
  unfold verify_node. rewrite (forallb_false_at _ _ pid Hpid Hmiss).
  apply andb_false_r.
Qed.

Lemma parent_exists_snoc ns node pid :
  parent_exists ns pid = false -> pid <> node_id node ->
  parent_exists (ns ++ [node]) pid = false.
Proof.
  intros Hns Hne. unfold parent_exists in *. rewrite existsb_app, Hns. simpl.
  rewrite orb_false_r. apply String.eqb_neq. congruence.
Qed.

(** C2, as amended.  The appends do not look at the parent ids.  For a
    tracked session and a payload that [json.dumps] serialises (a payload
    of [Py]), [_add_node] (behind [record_intent], [record_plan],
    [record_step], [record_result]) and [record_synthesis] return the new
    node id and store the node with the parent ids as supplied, whether or
    not they name a node.  A parent id that names no node of the chain, and
    is not the new node's own id, is found only afterwards: [verify_chain]
    is then false. *)
Theorem append_accepts_any_parent uuid now sid ntype d parent_id pids
  (cs : chains) chain :
  cs !! sid = Some chain ->
  let nid := sid +:+ "_" +:+ uuid in
  let added := _add_node uuid now sid ntype d parent_id cs in
  let synth := record_synthesis uuid now sid d pids cs in
  fst added = inr nid
  /\ (exists node, snd added !! sid = Some (set_nodes (nodes chain ++ [node]) chain)
                   /\ node_id node = nid /\ parent_ids node = [parent_id])
  /\ (parent_exists (nodes chain) parent_id = false -> parent_id <> nid ->
      verify_chain sid (snd added) = false)
  /\ fst synth = inr nid
  /\ (exists node, snd synth !! sid = Some (set_nodes (nodes chain ++ [node]) chain)
                   /\ node_id node = nid /\ parent_ids node = pids)
  /\ (forall pid, In pid pids -> parent_exists (nodes chain) pid = false -> pid <> nid ->
      verify_chain sid (snd synth) = false).
Proof.
  intros Hcs nid added synth. subst added synth.
  unfold _add_node, record_synthesis. rewrite Hcs. simpl fst. simpl snd.
  split; [reflexivity|]. split.
  { eexists. split; [apply lookup_insert_eq|]. split; reflexivity. }
  split.
  { intros Hmiss Hne.
    eapply verify_chain_dangling;
      [apply lookup_insert_eq | simpl; apply in_elt | left; reflexivity |].
    apply parent_exists_snoc; assumption. }
  split; [reflexivity|]. split.
  { eexists. split; [apply lookup_insert_eq|]. split; reflexivity. }
  intros pid Hpid Hmiss Hne.
  eapply verify_chain_dangling;
    [apply lookup_insert_eq | simpl; apply in_elt | exact Hpid |].
  apply parent_exists_snoc; assumption.
Qed.

(** C2, an instance: the parent ["s_nowhere"] is accepted and [verify_chain]
    is false afterwards. *)
Lemma append_accepts_any_parent_witness :
  fst (_add_node "b" Scenario.t1 "s" "step" [] "s_nowhere" Scenario.one_session) = inr "s_b"
  /\ verify_chain "s"
       (snd (_add_node "b" Scenario.t1 "s" "step" [] "s_nowhere" Scenario.one_session))
     = false.
Proof.
  edestruct (append_accepts_any_parent "b" Scenario.t1 "s" "step" [] "s_nowhere" []
               Scenario.one_session) as (H1 & _ & H3 & _).
  { apply lookup_insert_eq. }
  split; [exact H1|]. apply H3; [reflexivity | discriminate].
Defined.

(** C2, the claim as stated fails: on a chain holding the genesis node
    alone, [record_step] with the parent id ["s_nowhere"], which names no
    node, returns a node id and stores the node with that parent. *)
Lemma append_dangling_parent_accepted :
  parent_exists [] "s_nowhere" = false
  /\ (exists chain, Scenario.one_session !! "s" = Some chain
                    /\ parent_exists (nodes chain) "s_nowhere" = false)
  /\ fst (record_step "b" Scenario.t1 "s" [] "s_nowhere" Scenario.one_session) = inr "s_b"
  /\ (exists chain,
         snd (record_step "b" Scenario.t1 "s" [] "s_nowhere" Scenario.one_session) !! "s"
         = Some chain
         /\ map parent_ids (nodes chain) = [[]; ["s_nowhere"]]).
Proof.
  split; [reflexivity|]. split.
  { eexists. split; [apply lookup_insert_eq | reflexivity]. }
  split; [reflexivity|].
  eexists. split; [apply lookup_insert_eq | reflexivity].
Qed.

(** C9, as amended.  [create_session] never fails: it returns the session
    id and leaves under it a chain made of a fresh genesis node alone (no
    parent, hash recomputable, root hash equal to it), whether or not the id
    was in use; the chains of the other sessions are untouched. *)
Theorem create_session_replaces uuid now now_data now_chain sid_opt (cs : chains) :
  let sid := match sid_opt with Some s => s | None => uuid end in
  let r := create_session uuid now now_data now_chain sid_opt cs in
  fst r = sid
  /\ (exists chain genesis,
        snd r !! sid = Some chain
        /\ nodes chain = [genesis]
        /\ root_hash chain = hash genesis
        /\ node_id genesis = sid +:+ "_genesis"
        /\ node_type genesis = "genesis"
        /\ parent_ids genesis = []
        /\ hash genesis = _compute_hash genesis)
  /\ (forall sid', sid' <> sid -> snd r !! sid' = cs !! sid').
Proof.
  intros sid r. subst r. unfold create_session. fold sid. simpl fst. simpl snd.
  split; [reflexivity|]. split.
  - eexists. eexists. split; [apply lookup_insert_eq|]. repeat split.
  - intros sid' Hne. apply lookup_insert_ne. congruence.
Qed.

(** C9, the claim as stated fails: session ["s"] holds two nodes;
    [create_session("s")] returns ["s"] and the chain of ["s"] is then a
    genesis node alone. *)
Lemma create_session_collision_overwrites :
  (length <$> (nodes <$> Scenario.with_intent !! "s")) = Some 2%nat
  /\ fst (create_session "u9" Scenario.t3 Scenario.t3 Scenario.t3 (Some "s")
            Scenario.with_intent) = "s"
  /\ (map node_type <$>
        (nodes <$> snd (create_session "u9" Scenario.t3 Scenario.t3 Scenario.t3 (Some "s")
                          Scenario.with_intent) !! "s"))
     = Some ["genesis"].
Proof. repeat split; vm_compute; reflexivity. Qed.

(** C10.  When the engine tracks a chain of session [S] that verifies and
    [import_chain] is given a document of [S] that does not verify, the call
    returns false and the engine tracks no chain of [S] any more. *)
Theorem import_chain_drops_tracked_chain (cs : chains) (doc old : ProvenanceChain) :
  cs !! session_id doc = Some old ->
  verify_chain (session_id doc) cs = true ->
  verifies doc = false ->
  fst (import_chain (inr doc) cs) = false
  /\ get_chain (session_id doc) (snd (import_chain (inr doc) cs)) = None.
Proof.
  intros _ _ Hbad. unfold import_chain.
  rewrite (verify_chain_alone _ _ _ eq_refl), Hbad. simpl.
  split; [reflexivity|]. apply lookup_delete_eq.
Qed.

(** C10, an instance: importing [Scenario.forged] over the valid chain of
    session ["s"]. *)
Lemma import_chain_drops_tracked_chain_witness :
  verify_chain "s" Scenario.with_intent = true
  /\ verifies Scenario.forged = false
  /\ fst (import_chain (inr Scenario.forged) Scenario.with_intent) = false
  /\ get_chain "s" (snd (import_chain (inr Scenario.forged) Scenario.with_intent)) = None.
Proof.
  assert (Hv : verify_chain "s" Scenario.with_intent = true) by (vm_compute; reflexivity).
  assert (Hf : verifies Scenario.forged = false) by (vm_compute; reflexivity).
  split; [exact Hv|]. split; [exact Hf|].
  eapply (import_chain_drops_tracked_chain Scenario.with_intent Scenario.forged);
    [vm_compute; reflexivity | exact Hv | exact Hf].
Defined.

(** The hashes of [Scenario.diamond] are the digests [hashlib] gives for
    the same three contents. *)
Example diamond_hashes :
  (map hash <$> (nodes <$> Scenario.diamond !! "s"))
  = Some [ "4a1ffb2d979654020739107e423ed0363d3de4ab5d0e55d2ababecc3bf6db26b";
           "cf87c3fd853700b5c966f3cb96ffff8d455157b2d841db9b5696a02bad41383f";
           "8536e5191f268114352a007a113153cc58f04b3339485c6a56b541e77585886c" ].
Proof. vm_compute. reflexivity. Qed.

(** *** Tampering with a payload *)






(** *** Texts with a hole *)















(** The stored hash of a node is the computed one in a chain that verifies,
    and in a node that an append has just stored. *)
Lemma verified_node_hash sid (cs : chains) chain i node :
  cs !! sid = Some chain -> verify_chain sid cs = true ->
  nodes chain !! i = Some node -> hash node = _compute_hash node.
Proof.
  intros Hcs Hv Hi. rewrite (verify_chain_lookup _ _ _ Hcs) in Hv.
  apply andb_true_iff in Hv as [Hv _]. rewrite forallb_forall in Hv.
  assert (Hin : In node (nodes chain)).
  { apply list_elem_of_In. eapply list_elem_of_lookup_2. exact Hi. }
  specialize (Hv node Hin). unfold verify_node in Hv.
  apply andb_true_iff in Hv as [Hv _]. apply String.eqb_eq, Hv.
Qed.

Lemma appended_node_hash uuid now sid ntype d parent_id pids (cs : chains) chain :
  cs !! sid = Some chain ->
  (exists node,
      snd (_add_node uuid now sid ntype d parent_id cs) !! sid
      = Some (set_nodes (nodes chain ++ [node]) chain)
      /\ data node = d /\ hash node = _compute_hash node)
  /\ (exists node,
         snd (record_synthesis uuid now sid d pids cs) !! sid
         = Some (set_nodes (nodes chain ++ [node]) chain)
         /\ data node = d /\ hash node = _compute_hash node).
Proof.
  intros Hcs. unfold _add_node, record_synthesis. rewrite Hcs. simpl snd.
  split; eexists; (split; [apply lookup_insert_eq|]); split; reflexivity.
Qed.




(** *** Lineage *)

(** The edges of a map split at any of its keys. *)
Lemma edge_count_delete (m : gmap string ProvenanceNode) i node :
  m !! i = Some node ->
  edge_count m = length (parent_ids node) + edge_count (delete i m).
Proof.
  intros H. unfold edge_count.
  rewrite <- (map_to_list_delete m i node H). reflexivity.
Qed.

Lemma lineage_loop_total (m : gmap string ProvenanceNode) :
  forall fuel queue visited lineage (rest : gmap string ProvenanceNode),
    (forall i, rest !! i = if decide (i ∈ visited) then None else m !! i) ->
    length queue + edge_count rest <= fuel ->
    is_Some (lineage_loop fuel m queue visited lineage).
Proof.
  induction fuel as [|fuel IH]; intros queue visited lineage rest Hrest Hfuel.
  - destruct queue; simpl in *; [eauto | lia].
  - destruct queue as [|current_id queue]; simpl in *; [eauto|].
    destruct (decide (current_id ∈ visited)) as [Hin|Hout].
    + apply (IH _ _ _ rest); [assumption | lia].
    + pose proof (Hrest current_id) as Hcur.
      destruct (decide (current_id ∈ visited)) as [|_]; [contradiction|].
      destruct (m !! current_id) as [node|] eqn:Hm.
      * apply (IH _ _ _ (delete current_id rest)).
        -- intros i. destruct (decide (i = current_id)) as [->|Hne].
           ++ rewrite lookup_delete_eq. case_decide; [reflexivity | set_solver].
           ++ rewrite lookup_delete_ne by congruence. rewrite Hrest.
              repeat case_decide; try reflexivity; set_solver.
        -- rewrite (edge_count_delete rest current_id node Hcur) in Hfuel.
           rewrite length_app. lia.
      * apply (IH _ _ _ rest); [|lia].
        intros i. rewrite Hrest. destruct (decide (i = current_id)) as [->|Hne].
        -- repeat case_decide; try reflexivity; try assumption; set_solver.
        -- repeat case_decide; try reflexivity; set_solver.
Qed.

(** [get_node_lineage] always returns a list. *)
Lemma get_node_lineage_total sid nid (cs : chains) :
  is_Some (get_node_lineage sid nid cs).
Proof.
  unfold get_node_lineage. destruct (cs !! sid) as [chain|]; [|eauto].
  destruct (lineage_loop_total (node_map (nodes chain)) (S (edge_count (node_map (nodes chain))))
              [nid] ∅ [] (node_map (nodes chain))) as [l Hl].
  - intros i. case_decide; [set_solver | reflexivity].
  - simpl. lia.
  - rewrite Hl. eauto.
Qed.


(** C1: on [Scenario.diamond], built by [create_session], [record_intent] and
    [record_synthesis] alone, the lineage of the synthesis node puts the
    intent node before its parent, the genesis node, which is not first. *)
Theorem lineage_of_diamond_misordered :
  (map node_id <$> (nodes <$> Scenario.diamond !! "s")) = Some ["s_genesis"; "s_a"; "s_z"]
  /\ (map parent_ids <$> (nodes <$> Scenario.diamond !! "s"))
     = Some [[]; ["s_genesis"]; ["s_genesis"; "s_a"]]
  /\ (map node_id <$> get_node_lineage "s" "s_z" Scenario.diamond)
     = Some ["s_a"; "s_genesis"; "s_z"]
  /\ (exists lineage,
        get_node_lineage "s" "s_z" Scenario.diamond = Some lineage
        /\ ~ parents_precede lineage
        /\ (node_type <$> head lineage) = Some "intent").
Proof.
  split; [vm_compute; reflexivity|]. split; [vm_compute; reflexivity|].
  split; [vm_compute; reflexivity|].
  eexists. split; [vm_compute; reflexivity|]. split; [|reflexivity].
  intros H. specialize (H 0%nat 1%nat _ _ eq_refl eq_refl (or_introl eq_refl)). lia.
Qed.

(** *** The lineage in a chain without synthesis nodes *)

Lemma lineage_loop_fuel_mono (m : gmap string ProvenanceNode) :
  forall fuel fuel' queue visited lineage l,
    (fuel <= fuel')%nat ->
    lineage_loop fuel m queue visited lineage = Some l ->
    lineage_loop fuel' m queue visited lineage = Some l.
Proof.
  induction fuel as [|fuel IH]; intros fuel' queue visited lineage l Hle H.
  - destruct queue; [|discriminate]. destruct fuel'; exact H.
  - destruct fuel' as [|fuel']; [lia|].
    destruct queue as [|current_id queue]; [exact H|]. simpl in *.
    destruct (decide (current_id ∈ visited)); [apply (IH fuel'); [lia | exact H]|].
    destruct (m !! current_id); apply (IH fuel'); try lia; exact H.
Qed.

Lemma node_map_from_other (ns : list ProvenanceNode) (m0 : gmap string ProvenanceNode) k :
  ~ In k (map node_id ns) ->
  fold_left (fun m n => <[node_id n := n]> m) ns m0 !! k = m0 !! k.
Proof.
  revert m0. induction ns as [|n ns IH]; intros m0 Hk; simpl in *; [reflexivity|].
  rewrite IH by tauto. apply lookup_insert_ne. tauto.
Qed.

Lemma node_map_from_lookup (ns : list ProvenanceNode) (m0 : gmap string ProvenanceNode) n :
  List.NoDup (map node_id ns) -> In n ns ->
  fold_left (fun m n => <[node_id n := n]> m) ns m0 !! node_id n = Some n.
Proof.
  revert m0. induction ns as [|x ns IH]; intros m0 Hnd Hin; simpl in *; [contradiction|].
  inversion Hnd as [|? ? Hx Hnd']; subst.
  destruct Hin as [->|Hin].
  - rewrite node_map_from_other by exact Hx. apply lookup_insert_eq.
  - apply IH; assumption.
Qed.

Lemma node_map_lookup (ns : list ProvenanceNode) i n :
  NoDup (map node_id ns) -> ns !! i = Some n -> node_map ns !! node_id n = Some n.
Proof.
  intros Hnd Hi. apply node_map_from_lookup.
  - apply NoDup_ListNoDup, Hnd.
  - apply list_elem_of_In, list_elem_of_lookup. eauto.
Qed.

Lemma ids_distinct (ns : list ProvenanceNode) i j x y :
  NoDup (map node_id ns) -> ns !! i = Some x -> ns !! j = Some y ->
  node_id x = node_id y -> i = j.
Proof.
  intros Hnd Hi Hj E.
  apply (NoDup_lookup (map node_id ns) i j (node_id x) Hnd).
  - change (map node_id ns) with (node_id <$> ns). rewrite list_lookup_fmap, Hi. reflexivity.
  - change (map node_id ns) with (node_id <$> ns). rewrite list_lookup_fmap, Hj, E. reflexivity.
Qed.

(** In a single-parent chain the loop walks from the node up to the first
    node of the chain. *)
Lemma lineage_loop_walk (ns : list ProvenanceNode) :
  single_parent_chain ns ->
  forall i n visited lineage fuel,
    ns !! i = Some n ->
    (forall j p, (j <= i)%nat -> ns !! j = Some p -> node_id p ∉ visited) ->
    (i < fuel)%nat ->
    exists walk,
      lineage_loop fuel (node_map ns) [node_id n] visited lineage = Some (lineage ++ walk)%list
      /\ ascends walk
      /\ head walk = Some n
      /\ last walk = ns !! 0%nat
      /\ Forall (fun x => exists j, (j <= i)%nat /\ ns !! j = Some x) walk
      /\ NoDup (map node_id walk).
Proof.
  intros [Hnd Hshape].
  induction i as [i IH] using lt_wf_ind.
  intros n visited lineage fuel Hi Hfresh Hfuel.
  destruct fuel as [|fuel]; [lia|]. simpl.
  destruct (decide (node_id n ∈ visited)) as [Hin|_].
  { exfalso. exact (Hfresh i n (Nat.le_refl i) Hi Hin). }
  rewrite (node_map_lookup ns i n Hnd Hi).
  pose proof (Hshape i n Hi) as Hn. destruct i as [|i'].
  - rewrite Hn. simpl. exists [n]. split; [destruct fuel; reflexivity|].
    split; [constructor; exact Hn|]. split; [reflexivity|]. split; [symmetry; exact Hi|].
    split; [constructor; [|constructor]; exists 0%nat; auto|].
    apply NoDup_singleton.
  - destruct Hn as (j & p & Hj & Hp & Hn). rewrite Hn. simpl.
    destruct (IH j Hj p ({[node_id n]} ∪ visited) (lineage ++ [n])%list fuel Hp)
      as (walk & Hloop & Hasc & Hhead & Hlast & Hpos & Hwalk).
    + intros j' p' Hj' Hp' Hin.
      apply elem_of_union in Hin as [Hin|Hin].
      * apply elem_of_singleton in Hin.
        assert (j' = S i') by (eapply ids_distinct; eauto). lia.
      * exact (Hfresh j' p' ltac:(lia) Hp' Hin).
    + lia.
    + exists (n :: walk). rewrite Hloop, <- app_assoc. split; [reflexivity|].
      assert (Hn' : node_id n ∉ map node_id walk).
      { intros Hin. apply list_elem_of_fmap in Hin as (x & E & Hx).
        rewrite Forall_forall in Hpos. destruct (Hpos x Hx) as (j' & Hj' & Hx').
        pose proof (ids_distinct ns (S i') j' n x Hnd Hi Hx' E). lia. }
      destruct walk as [|q walk]; [discriminate|]. injection Hhead as ->.
      split; [constructor; assumption|]. split; [reflexivity|].
      split; [exact Hlast|]. split.
      * constructor; [exists (S i'); auto|].
        eapply Forall_impl; [exact Hpos|]. simpl. intros x (j' & Hj' & Hx).
        exists j'. split; [lia | exact Hx].
      * simpl. apply NoDup_cons. split; assumption.
Qed.

(** In a walk the parents of a node are the id of the next node. *)
Lemma ascends_next walk :
  ascends walk ->
  forall a child pid,
    walk !! a = Some child -> In pid (parent_ids child) ->
    exists parent, walk !! S a = Some parent /\ node_id parent = pid.
Proof.
  induction 1 as [root Hroot | child parent rest Hchild _ IH]; intros a c pid Ha Hpid.
  - destruct a; [|discriminate]. injection Ha as <-. rewrite Hroot in Hpid. contradiction.
  - destruct a as [|a].
    + injection Ha as <-. rewrite Hchild in Hpid. destruct Hpid as [<-|[]].
      exists parent. split; reflexivity.
    + exact (IH a c pid Ha Hpid).
Qed.

Lemma rev_lookup {A} (l : list A) i x :
  rev l !! i = Some x -> (i < length l)%nat /\ l !! (length l - S i)%nat = Some x.
Proof.
  rewrite rev_alt. change (rev_append l []) with (reverse l).
  intros H. pose proof (lookup_lt_Some _ _ _ H) as Hlt. rewrite length_reverse in Hlt.
  split; [exact Hlt|]. rewrite reverse_lookup in H by exact Hlt. exact H.
Qed.

(** Reversed, a walk without repeated ids has every parent before its
    child. *)
Lemma ascends_parents_precede walk :
  ascends walk -> NoDup (map node_id walk) -> parents_precede (rev walk).
Proof.
  intros Hasc Hnd i j child parent Hi Hj Hpid.
  apply rev_lookup in Hi as [Hi Hc]. apply rev_lookup in Hj as [Hj Hp].
  destruct (ascends_next walk Hasc _ child _ Hc Hpid) as (q & Hq & E).
  assert (Hidx : S (length walk - S i) = (length walk - S j)%nat)
    by (eapply ids_distinct; eauto).
  lia.
Qed.

(** X3.  On a chain without synthesis nodes (distinct ids, a first node
    without parent, every later node with one parent, which stands before
    it) the lineage of a node lists every parent before its child, begins
    with the first node of the chain and ends with the node asked for. *)
Lemma lineage_of_single_parent_chain sid (cs : chains) chain i n :
  cs !! sid = Some chain ->
  single_parent_chain (nodes chain) ->
  nodes chain !! i = Some n ->
  exists lineage,
    get_node_lineage sid (node_id n) cs = Some lineage
    /\ parents_precede lineage
    /\ head lineage = head (nodes chain)
    /\ last lineage = Some n.
Proof.
  intros Hcs Hshape Hi. unfold get_node_lineage. rewrite Hcs.
  set (m := node_map (nodes chain)).
  destruct (lineage_loop_walk (nodes chain) Hshape i n ∅ [] (S i) Hi)
    as (walk & Hloop & Hasc & Hhead & Hlast & _ & Hnd); [set_solver | lia |].
  simpl app in Hloop. fold m in Hloop.
  assert (Hrun : lineage_loop (S (edge_count m)) m [node_id n] ∅ [] = Some walk).
  { destruct (lineage_loop_total m (S (edge_count m)) [node_id n] ∅ [] m) as [l Hl].
    - intros k. case_decide; [set_solver | reflexivity].
    - simpl. lia.
    - destruct (Nat.le_ge_cases (S i) (S (edge_count m))) as [Hle|Hle].
      + exact (lineage_loop_fuel_mono m _ _ _ _ _ _ Hle Hloop).
      + pose proof (lineage_loop_fuel_mono m _ _ _ _ _ _ Hle Hl) as Hl'.
        rewrite Hloop in Hl'. injection Hl' as ->. exact Hl. }
  rewrite Hrun. exists (rev walk). split; [reflexivity|].
  split; [apply ascends_parents_precede; assumption|].
  rewrite rev_alt. change (rev_append walk []) with (reverse walk).
  rewrite head_reverse, last_reverse, head_lookup. split; [exact Hlast | exact Hhead].
Qed.

(** [Scenario.with_intent] is such a chain, and the lineage of its intent
    node is the genesis node, then the intent node. *)
Example lineage_of_intent :
  (exists chain, Scenario.with_intent !! "s" = Some chain
                 /\ single_parent_chain (nodes chain))
  /\ (map node_id <$> get_node_lineage "s" "s_a" Scenario.with_intent)
     = Some ["s_genesis"; "s_a"].
Proof.
  split; [|vm_compute; reflexivity].
  eexists. split; [vm_compute; reflexivity|]. split.
  - simpl. repeat constructor; set_solver.
  - intros [|[|i]] n H; simpl in H; try discriminate; injection H as <-.
    + reflexivity.
    + eexists 0%nat, _. split; [lia|]. split; reflexivity.
Qed.

(** *** Appends that keep a chain valid *)

Lemma compute_hash_set_hash h n : _compute_hash (set_hash h n) = _compute_hash n.
Proof. reflexivity. Qed.

Lemma parent_exists_app ns ns' pid :
  parent_exists ns pid = true -> parent_exists (ns ++ ns') pid = true.
Proof. unfold parent_exists. rewrite existsb_app. intros ->. reflexivity. Qed.

Lemma verify_node_app ns ns' node :
  verify_node ns node = true -> verify_node (ns ++ ns') node = true.
Proof.
  unfold verify_node. intros H. apply andb_true_iff in H as [Hh Hp].
  rewrite Hh. simpl. rewrite forallb_forall in *. intros pid Hpid.
  apply parent_exists_app, Hp, Hpid.
Qed.

Lemma verify_chain_append sid (cs : chains) chain node :
  cs !! sid = Some chain ->
  verify_chain sid cs = true ->
  nodes chain <> [] ->
  hash node = _compute_hash node ->
  forallb (parent_exists (nodes chain)) (parent_ids node) = true ->
  verify_chain sid (<[sid := set_nodes (nodes chain ++ [node]) chain]> cs) = true.
Proof.
  intros Hcs Hv Hne Hh Hp. rewrite (verify_chain_lookup _ _ _ Hcs) in Hv.
  apply andb_true_iff in Hv as [Hnodes Hroot].
  rewrite (verify_chain_lookup _ _ _ (lookup_insert_eq _ _ _)). simpl nodes.
  apply andb_true_iff. split.
  - rewrite forallb_app. apply andb_true_iff. split.
    + rewrite forallb_forall in *. intros n Hn. apply verify_node_app, Hnodes, Hn.
    + simpl. rewrite andb_true_r. apply verify_node_app.
      unfold verify_node. rewrite Hh, String.eqb_refl. exact Hp.
  - unfold verify_root in *. simpl. destruct (nodes chain); [contradiction | exact Hroot].
Qed.

Section Appends.
Local Opaque _compute_hash.

(** X1.  [verify_chain] holds of a session right after [create_session],
    whatever the engine tracked before; and appending through the ledger
    keeps a chain valid: when [verify_chain] holds of a session whose chain
    is not empty, it still holds after [_add_node] (behind [record_intent],
    [record_plan], [record_step], [record_result]) with a parent id that
    names a node of the chain, and after [record_synthesis] with parent ids
    that all do. *)
Theorem honest_appends_keep_chain_valid uuid now (cs : chains) :
  (forall now_data now_chain sid_opt,
     verify_chain (fst (create_session uuid now now_data now_chain sid_opt cs))
       (snd (create_session uuid now now_data now_chain sid_opt cs)) = true)
  /\ (forall sid ntype d parent_id pids chain,
        cs !! sid = Some chain ->
        verify_chain sid cs = true ->
        nodes chain <> [] ->
        (parent_exists (nodes chain) parent_id = true ->
         verify_chain sid (snd (_add_node uuid now sid ntype d parent_id cs)) = true)
        /\ (forallb (parent_exists (nodes chain)) pids = true ->
            verify_chain sid (snd (record_synthesis uuid now sid d pids cs)) = true)).
Proof.
  split.
  - intros now_data now_chain sid_opt. unfold create_session. simpl fst. simpl snd.
    rewrite (verify_chain_lookup _ _ _ (lookup_insert_eq _ _ _)).
    unfold verify_root, verify_node. simpl.
    rewrite compute_hash_set_hash, !String.eqb_refl. reflexivity.
  - intros sid ntype d parent_id pids chain Hcs Hv Hne. split.
    + intros Hp. unfold _add_node. rewrite Hcs. simpl snd.
      apply verify_chain_append; try assumption; [reflexivity|].
      simpl. rewrite Hp. reflexivity.
    + intros Hp. unfold record_synthesis. rewrite Hcs. simpl snd.
      apply verify_chain_append; try assumption. reflexivity.
Qed.

End Appends.

(** X1, an instance: a new session on a fresh engine, then a step under its
    genesis node. *)
Lemma honest_appends_keep_chain_valid_witness :
  verify_chain "s" Scenario.one_session = true
  /\ verify_chain "s"
       (snd (_add_node "b" Scenario.t1 "s" "step" [] "s_genesis" Scenario.one_session)) = true.
Proof.
  destruct (honest_appends_keep_chain_valid "u0" Scenario.t0 ∅) as [Hnew _].
  specialize (Hnew Scenario.t0 Scenario.t0 (Some "s")).
  assert (Hv : verify_chain "s" Scenario.one_session = true) by exact Hnew.
  split; [exact Hv|].
  destruct (honest_appends_keep_chain_valid "b" Scenario.t1 Scenario.one_session) as [_ Happ].
  edestruct (Happ "s" "step" [] "s_genesis" []) as [H _].
  - apply lookup_insert_eq.
  - exact Hv.
  - discriminate.
  - apply H. reflexivity.
Defined.

(** X2.  [import_chain] returns whether the document verifies on its own;
    when it does, the engine tracks the document under its session id
    afterwards, in place of what it tracked there, and when it does not, or
    when the document is refused by the model's validation, the call returns
    false; the chains of the other sessions are never touched. *)
Theorem import_chain_keeps_verified_chain validated (cs : chains) :
  match validated with
  | inl _ => import_chain validated cs = (false, cs)
  | inr doc =>
      fst (import_chain validated cs) = verifies doc
      /\ get_chain (session_id doc) (snd (import_chain validated cs))
         = (if verifies doc then Some doc else None)
      /\ verify_chain (session_id doc) (snd (import_chain validated cs)) = verifies doc
      /\ (forall sid, sid <> session_id doc ->
            get_chain sid (snd (import_chain validated cs)) = get_chain sid cs)
  end.
Proof.
  destruct validated as [e|doc]; [reflexivity|].
  unfold import_chain, get_chain. rewrite (verify_chain_alone _ _ _ eq_refl).
  destruct (verifies doc) eqn:E; simpl.
  - split; [reflexivity|]. split; [apply lookup_insert_eq|].
    split; [rewrite (verify_chain_alone _ _ _ eq_refl); exact E|].
    intros sid Hne. apply lookup_insert_ne. congruence.
  - split; [reflexivity|]. split; [apply lookup_delete_eq|].
    split; [unfold verify_chain; rewrite lookup_delete_eq; reflexivity|].
    intros sid Hne. rewrite lookup_delete_ne by congruence. apply lookup_insert_ne. congruence.
Qed.

(** The chain of [Scenario.with_intent] is a document that [import_chain]
    accepts on a fresh engine. *)
Example import_chain_of_exported :
  import_chain (inr Scenario.exported) ∅ = (true, Scenario.with_intent).
Proof. vm_compute. reflexivity. Qed.

(** X3, an instance: the lineage of the intent node of
    [Scenario.with_intent]. *)
Lemma lineage_of_single_parent_chain_witness :
  exists lineage,
    get_node_lineage "s" "s_a" Scenario.with_intent = Some lineage
    /\ parents_precede lineage
    /\ (node_id <$> head lineage) = Some "s_genesis"
    /\ (node_id <$> last lineage) = Some "s_a".
Proof.
  edestruct (lineage_of_single_parent_chain "s" Scenario.with_intent) as (l & H1 & H2 & H3 & H4).
  - vm_compute. reflexivity.
  - split.
    + simpl. repeat constructor; set_solver.
    + intros [|[|i]] n H; simpl in H; try discriminate; injection H as <-.
      * reflexivity.
      * eexists 0%nat, _. split; [lia|]. split; reflexivity.
  - instantiate (2 := 1%nat). reflexivity.
  - exists l. split; [exact H1|]. split; [exact H2|]. rewrite H3, H4. split; reflexivity.
Defined.

(** *** The lineage as a set *)

Lemma node_map_from_key (ns : list ProvenanceNode) : forall (m0 : gmap string ProvenanceNode) k n,
  fold_left (fun m n => <[node_id n := n]> m) ns m0 !! k = Some n ->
  m0 !! k = Some n \/ (node_id n = k /\ In n ns).
Proof.
  induction ns as [|x ns IH]; intros m0 k n H; simpl in *; [left; exact H|].
  destruct (IH _ _ _ H) as [H'|[E Hin]]; [|right; split; [exact E | right; exact Hin]].
  destruct (decide (k = node_id x)) as [->|Hne].
  - rewrite lookup_insert_eq in H'. injection H' as <-. right. split; [reflexivity | left; reflexivity].
  - rewrite lookup_insert_ne in H' by congruence. left. exact H'.
Qed.

Lemma node_map_key ns k n : node_map ns !! k = Some n -> node_id n = k /\ In n ns.
Proof.
  intros H. destruct (node_map_from_key ns ∅ k n H) as [H'|H']; [|exact H'].
  rewrite lookup_empty in H'. discriminate.
Qed.

Lemma lineage_loop_done fuel m visited lineage :
  lineage_loop fuel m [] visited lineage = Some lineage.
Proof. destruct fuel; reflexivity. Qed.

Lemma lineage_loop_visits (m : gmap string ProvenanceNode) :
  (forall k n, m !! k = Some n -> node_id n = k) ->
  forall fuel queue visited lineage l,
    lineage_loop fuel m queue visited lineage = Some l ->
    exists l' (visited' : gset string),
      l = (lineage ++ l')%list
      /\ visited ⊆ visited'
      /\ (forall q, In q queue -> q ∈ visited')
      /\ (forall n, In n l' ->
            m !! node_id n = Some n /\ (node_id n ∉ visited) /\ node_id n ∈ visited'
            /\ (forall p, In p (parent_ids n) -> p ∈ visited')
            /\ exists q, In q queue /\ reaches m q (node_id n))
      /\ NoDup (map node_id l')
      /\ (forall k, k ∈ visited' ->
            k ∈ visited \/ (m !! k = None) \/ exists n, In n l' /\ node_id n = k).
Proof.
  intros Hkey. induction fuel as [|fuel IH]; intros queue visited lineage l H.
  - destruct queue; [|discriminate]. injection H as <-.
    exists [], visited. rewrite app_nil_r. split; [reflexivity|]. split; [reflexivity|].
    split; [intros q []|]. split; [intros n []|]. split; [constructor|]. auto.
  - destruct queue as [|c qs].
    { injection H as <-. exists [], visited. rewrite app_nil_r.
      split; [reflexivity|]. split; [reflexivity|].
      split; [intros q []|]. split; [intros n []|]. split; [constructor|]. auto. }
    simpl in H. destruct (decide (c ∈ visited)) as [Hc|Hc].
    + destruct (IH _ _ _ _ H) as (l' & visited' & El & Hsub & Hq & Hn & Hnd & Hv).
      exists l', visited'. split; [exact El|]. split; [exact Hsub|].
      split; [intros q [<-|Hin]; [set_solver | exact (Hq q Hin)]|].
      split; [|split; assumption].
      intros n Hin. destruct (Hn n Hin) as (H1 & H2 & H3 & H4 & q & Hqin & Hr).
      repeat split; try assumption. exists q. split; [right; exact Hqin | exact Hr].
    + destruct (m !! c) as [node|] eqn:Em.
      * destruct (IH _ _ _ _ H) as (l' & visited' & El & Hsub & Hq & Hn & Hnd & Hv).
        pose proof (Hkey c node Em) as Hid.
        exists (node :: l'), visited'.
        split; [rewrite El, <- app_assoc; reflexivity|].
        split; [set_solver|].
        split.
        { intros q [<-|Hin]; [set_solver|]. apply Hq, in_or_app. left. exact Hin. }
        split.
        { intros n [<-|Hin].
          - rewrite Hid. split; [exact Em|]. split; [exact Hc|]. split; [set_solver|].
            split; [intros p Hp; apply Hq, in_or_app; right; exact Hp|].
            exists c. split; [left; reflexivity | constructor].
          - destruct (Hn n Hin) as (H1 & H2 & H3 & H4 & q & Hqin & Hr).
            split; [exact H1|]. split; [set_solver|]. split; [exact H3|]. split; [exact H4|].
            apply in_app_or in Hqin as [Hqin|Hqin].
            + exists q. split; [right; exact Hqin | exact Hr].
            + exists c. split; [left; reflexivity|].
              exact (reaches_parent m c node q _ Em Hqin Hr). }
        split.
        { simpl. apply NoDup_cons. split; [|exact Hnd].
          intros Hin. apply list_elem_of_fmap in Hin as (n & E & Hin).
          apply list_elem_of_In in Hin. destruct (Hn n Hin) as (_ & H2 & _).
          rewrite <- E, Hid in H2. set_solver. }
        intros k Hk. destruct (Hv k Hk) as [Hk'|[Hk'|(n & Hin & E)]].
        -- apply elem_of_union in Hk' as [Hk'|Hk']; [|left; exact Hk'].
           apply elem_of_singleton in Hk'. subst k.
           right. right. exists node. split; [left; reflexivity | exact Hid].
        -- right. left. exact Hk'.
        -- right. right. exists n. split; [right; exact Hin | exact E].
      * destruct (IH _ _ _ _ H) as (l' & visited' & El & Hsub & Hq & Hn & Hnd & Hv).
        exists l', visited'. split; [exact El|]. split; [set_solver|].
        split; [intros q [<-|Hin]; [set_solver | exact (Hq q Hin)]|].
        split.
        { intros n Hin. destruct (Hn n Hin) as (H1 & H2 & H3 & H4 & q & Hqin & Hr).
          split; [exact H1|]. split; [set_solver|]. split; [exact H3|]. split; [exact H4|].
          exists q. split; [right; exact Hqin | exact Hr]. }
        split; [exact Hnd|].
        intros k Hk. destruct (Hv k Hk) as [Hk'|[Hk'|Hk']]; [|auto|auto].
        apply elem_of_union in Hk' as [Hk'|Hk']; [|left; exact Hk'].
        apply elem_of_singleton in Hk'. subst k. right. left. exact Em.
Qed.

(** X4.  For a tracked session [get_node_lineage] returns, without
    repetition, exactly the nodes that are reached from the requested id by
    following parent ids through the chain's node dictionary: the requested
    node itself, which comes last, and all its ancestors, each of them a node
    of the chain.  It returns the empty list for an id that names no node,
    and for a session that is not tracked. *)
Theorem lineage_is_the_ancestors sid nid (cs : chains) :
  match cs !! sid with
  | None => get_node_lineage sid nid cs = Some []
  | Some chain =>
      let m := node_map (nodes chain) in
      exists lineage,
        get_node_lineage sid nid cs = Some lineage
        /\ NoDup (map node_id lineage)
        /\ (forall n, In n lineage <-> m !! node_id n = Some n /\ reaches m nid (node_id n))
        /\ (forall n, In n lineage -> In n (nodes chain))
        /\ (forall n, m !! nid = Some n -> last lineage = Some n)
        /\ (m !! nid = None -> lineage = [])
  end.
Proof.
  unfold get_node_lineage. destruct (cs !! sid) as [chain|]; [|reflexivity].
  cbv zeta. set (m := node_map (nodes chain)).
  assert (Hkey : forall k n, m !! k = Some n -> node_id n = k).
  { intros k n H. apply (node_map_key (nodes chain) k n H). }
  destruct (lineage_loop_total m (S (edge_count m)) [nid] ∅ [] m) as [l Hl].
  { intros k. case_decide; [set_solver | reflexivity]. }
  { simpl. lia. }
  rewrite Hl. exists (rev l). split; [reflexivity|].
  destruct (lineage_loop_visits m Hkey _ _ _ _ _ Hl)
    as (l' & visited' & El & _ & Hq & Hn & Hnd & Hv).
  simpl in El. subst l'.
  assert (Hin : forall n, In n l <-> m !! node_id n = Some n /\ reaches m nid (node_id n)).
  { intros n. split.
    - intros H. destruct (Hn n H) as (H1 & _ & _ & _ & q & [<-|[]] & Hr). auto.
    - intros [Hm Hr].
      assert (Hclosed : forall a b, reaches m a b -> a ∈ visited' ->
                          forall nb, m !! b = Some nb -> In nb l).
      { clear n Hm Hr. induction 1 as [a | a node p b Ha Hp Hr IH]; intros Hvis nb Hb.
        - destruct (Hv a Hvis) as [H|[H|(n & Hnl & E)]]; [set_solver | congruence|].
          destruct (Hn n Hnl) as (Hn1 & _). rewrite E, Hb in Hn1. injection Hn1 as ->. exact Hnl.
        - apply IH; [|exact Hb].
          destruct (Hv a Hvis) as [H|[H|(n & Hnl & E)]]; [set_solver | congruence|].
          destruct (Hn n Hnl) as (Hn1 & _ & _ & Hn4 & _).
          rewrite E, Ha in Hn1. injection Hn1 as ->. apply Hn4, Hp. }
      apply (Hclosed nid (node_id n) Hr); [apply Hq; left; reflexivity | exact Hm]. }
  split.
  { rewrite map_rev, rev_alt. change (rev_append (map node_id l) []) with (reverse (map node_id l)).
    rewrite reverse_Permutation. exact Hnd. }
  split; [intros n; rewrite <- in_rev; apply Hin|].
  split.
  { intros n H. apply in_rev, Hin in H as [H _]. apply (node_map_key _ _ _ H). }
  split.
  - intros n Hm. simpl in Hl. destruct (decide (nid ∈ (∅ : gset string))) as [Hx|_]; [set_solver|].
    rewrite Hm in Hl.
    destruct (lineage_loop_visits m Hkey _ _ _ _ _ Hl) as (l' & _ & El & _).
    rewrite El. simpl. apply last_snoc.
  - intros Hm. simpl in Hl. destruct (decide (nid ∈ (∅ : gset string))) as [Hx|_]; [set_solver|].
    rewrite Hm, lineage_loop_done in Hl. injection Hl as <-. reflexivity.
Qed.

End ProvenanceFacts.

(** ** The capability invoker *)

Module ProtocolFacts.
Import Py Types Protocol.

Lemma attempts_exhausted_trace n : forall k, attempts (exhausted_trace n k) = seq k n.
Proof.
  induction n as [|n IH]; intros k; [reflexivity|].
  destruct n as [|n]; [reflexivity|].
  change (attempts (exhausted_trace (S (S n)) k))
    with (k :: attempts (exhausted_trace (S n) (S k))).
  rewrite IH. reflexivity.
Qed.

Lemma sleeps_exhausted_trace n :
  forall k, sleeps (exhausted_trace n k) = map (fun a => (2 ^ Z.of_nat a)%Z) (seq k (n - 1)).
Proof.
  induction n as [|n IH]; intros k; [reflexivity|].
  destruct n as [|n]; [reflexivity|].
  change (sleeps (exhausted_trace (S (S n)) k))
    with ((2 ^ Z.of_nat k)%Z :: sleeps (exhausted_trace (S n) (S k))).
  rewrite IH. simpl. rewrite Nat.sub_0_r. reflexivity.
Qed.

(** The waits grow: each is below every later one. *)
Lemma backoff_increasing n :
  forall k, StronglySorted Z.lt (map (fun a => (2 ^ Z.of_nat a)%Z) (seq k n)).
Proof.
  induction n as [|n IH]; intros k; simpl; constructor; [apply IH|].
  apply Forall_forall. intros z Hz. apply list_elem_of_In in Hz.
  apply in_map_iff in Hz as (a & <- & Ha).
  apply in_seq in Ha. apply Z.pow_lt_mono_r; lia.
Qed.

Lemma send_loop_exhausts (net : target) max_retries spec request :
  (forall k, exists e, net spec request k = inl e) ->
  forall todo attempt,
    (attempt + S todo)%nat = Z.to_nat max_retries ->
    exists e,
      net spec request (attempt + todo)%nat = inl e
      /\ send_loop net max_retries spec request (S todo) attempt
         = (error_response (MCPRequest.request_id request) (MCPServerSpec.name spec)
              (MCPRequest.tool_name request) (str_exn e),
            exhausted_trace (S todo) attempt).
Proof.
  intros Hfail. induction todo as [|todo IH]; intros attempt Hn.
  - destruct (Hfail attempt) as [e He]. exists e.
    rewrite Nat.add_0_r. split; [exact He|].
    simpl. rewrite He.
    destruct (Z.ltb_spec (Z.of_nat attempt) (max_retries - 1)); [lia | reflexivity].
  - destruct (IH (S attempt)) as (e & He & Hloop); [lia|].
    exists e. replace (attempt + S todo)%nat with (S attempt + todo)%nat by lia.
    split; [exact He|].
    destruct (Hfail attempt) as [e0 He0].
    change (send_loop net max_retries spec request (S (S todo)) attempt)
      with (match net spec request attempt with
            | inr response => (response, [Attempt attempt])
            | inl e =>
                if (Z.of_nat attempt <? max_retries - 1)%Z
                then
                  let '(response, evs) :=
                    send_loop net max_retries spec request (S todo) (S attempt) in
                  (response, Attempt attempt :: Sleep (2 ^ Z.of_nat attempt) :: evs)
                else
                  (error_response (MCPRequest.request_id request) (MCPServerSpec.name spec)
                     (MCPRequest.tool_name request) (str_exn e), [Attempt attempt])
            end).
    rewrite He0.
    destruct (Z.ltb_spec (Z.of_nat attempt) (max_retries - 1)); [|lia].
    rewrite Hloop. reflexivity.
Qed.

(** C5, as amended.  Against a target whose every exchange raises,
    [send_request] makes [max(max_retries, 0)] attempts, numbered from 0,
    waits [2^k] after the failed attempt [k] and before the next one (so the
    waits increase strictly), and returns a response with result [None], cost
    0 and the request's id, whose error is [str(e)] of the exception of the
    last attempt, or ["Max retries exceeded"] when no attempt was made. *)
Theorem send_request_exhausts_retries (net : target) max_retries uuid spec tool_name
  parameters metadata :
  let request := make_request uuid spec tool_name parameters metadata in
  let n := Z.to_nat max_retries in
  (forall k, exists e, net spec request k = inl e) ->
  exists response evs,
    send_request net max_retries uuid spec tool_name parameters metadata = (response, evs)
    /\ evs = exhausted_trace n 0
    /\ attempts evs = seq 0 n
    /\ Z.of_nat (length (attempts evs)) = Z.max 0 max_retries
    /\ sleeps evs = map (fun a => (2 ^ Z.of_nat a)%Z) (seq 0 (n - 1))
    /\ StronglySorted Z.lt (sleeps evs)
    /\ MCPResponse.result response = VNone
    /\ Qeq (MCPResponse.cost response) 0
    /\ MCPResponse.request_id response = uuid
    /\ (n = 0%nat -> MCPResponse.error response = Some "Max retries exceeded")
    /\ (forall e, (0 < n)%nat -> net spec request (n - 1)%nat = inl e ->
        MCPResponse.error response = Some (str_exn e)).
Proof.
  intros request n Hfail. unfold send_request. fold request. fold n.
  assert (Hn : Z.of_nat n = Z.max 0 max_retries) by (unfold n; lia).
  destruct n as [|m] eqn:En.
  - do 2 eexists. split; [reflexivity|]. simpl.
    repeat split; try reflexivity; try constructor; try lia.
  - destruct (send_loop_exhausts net max_retries spec request Hfail m 0%nat) as (e & He & ->);
      [fold n; lia|].
    do 2 eexists. split; [reflexivity|]. split; [reflexivity|].
    rewrite attempts_exhausted_trace, sleeps_exhausted_trace, length_seq.
    split; [reflexivity|]. split; [lia|]. split; [reflexivity|].
    split; [apply backoff_increasing|]. split; [reflexivity|]. split; [reflexivity|].
    split; [reflexivity|]. split; [discriminate|].
    intros e' _ He'. simpl in He'. rewrite Nat.sub_0_r in He'.
    simpl in He. rewrite He in He'. injection He' as <-. reflexivity.
Qed.

(** C5, an instance: three attempts against a target that answers 503. *)
Lemma send_request_exhausts_retries_witness :
  exists response evs,
    send_request Scenario.always_unavailable 3 "r1" Scenario.claude_server "generate" [] None
    = (response, evs)
    /\ attempts evs = [0; 1; 2]%nat
    /\ sleeps evs = [1; 2]%Z
    /\ MCPResponse.error response = Some "Server error '503 Service Unavailable'".
Proof.
  destruct (send_request_exhausts_retries Scenario.always_unavailable 3 "r1"
              Scenario.claude_server "generate" [] None)
    as (response & evs & E & _ & Ha & _ & Hs & _ & _ & _ & _ & _ & He).
  { intros k. eexists. reflexivity. }
  exists response, evs. split; [exact E|]. split; [exact Ha|]. split; [exact Hs|].
  apply (He (Raise "HTTPStatusError" "Server error '503 Service Unavailable'")).
  - simpl. lia.
  - reflexivity.
Defined.

(** C5, the claim as stated fails: against a target whose exchanges time out
    with an exception of empty text, [send_request] makes its three attempts
    and returns a response whose error is the empty string. *)
Lemma send_request_empty_error :
  (forall k, exists e,
      Scenario.always_times_out Scenario.claude_server
        (make_request "r1" Scenario.claude_server "generate" [] None) k = inl e)
  /\ attempts (snd (send_request Scenario.always_times_out 3 "r1" Scenario.claude_server
                      "generate" [] None)) = [0; 1; 2]%nat
  /\ MCPResponse.error
       (fst (send_request Scenario.always_times_out 3 "r1" Scenario.claude_server
               "generate" [] None))
     = Some EmptyString.
Proof.
  split; [intros k; eexists; reflexivity|]. split; reflexivity.
Qed.

Lemma exhausted_trace_cons n k :
  (1 <= n)%nat ->
  exhausted_trace (S n) k = Attempt k :: Sleep (2 ^ Z.of_nat k) :: exhausted_trace n (S k).
Proof. destruct n; [lia | reflexivity]. Qed.

Lemma send_loop_cons (net : target) max_retries spec request todo attempt :
  send_loop net max_retries spec request (S todo) attempt
  = match net spec request attempt with
    | inr response => (response, [Attempt attempt])
    | inl e =>
        if (Z.of_nat attempt <? max_retries - 1)%Z
        then
          let '(response, evs) := send_loop net max_retries spec request todo (S attempt) in
          (response, Attempt attempt :: Sleep (2 ^ Z.of_nat attempt) :: evs)
        else
          (error_response (MCPRequest.request_id request) (MCPServerSpec.name spec)
             (MCPRequest.tool_name request) (str_exn e), [Attempt attempt])
    end.
Proof. reflexivity. Qed.

Lemma last_exhausted_trace k : forall a,
  last (exhausted_trace (S k) a) = Some (Attempt (a + k)).
Proof.
  induction k as [|k IH]; intros a; [simpl; rewrite Nat.add_0_r; reflexivity|].
  rewrite exhausted_trace_cons by lia.
  change (last (Attempt a :: Sleep (2 ^ Z.of_nat a) :: exhausted_trace (S k) (S a)))
    with (match exhausted_trace (S k) (S a) with
          | [] => Some (Sleep (2 ^ Z.of_nat a))
          | _ => last (exhausted_trace (S k) (S a))
          end).
  rewrite IH. replace (S a + k)%nat with (a + S k)%nat by lia.
  destruct (exhausted_trace (S k) (S a)) eqn:E; [|reflexivity].
  destruct k; discriminate.
Qed.

Lemma send_loop_succeeds (net : target) max_retries spec request k response :
  (Z.of_nat k < max_retries)%Z ->
  (forall j, (j < k)%nat -> exists e, net spec request j = inl e) ->
  net spec request k = inr response ->
  forall d attempt todo,
    (attempt + d = k)%nat -> (d < todo)%nat ->
    send_loop net max_retries spec request todo attempt
    = (response, exhausted_trace (S d) attempt).
Proof.
  intros Hk Hfail Hok. induction d as [|d IH]; intros attempt todo Hd Htodo;
    (destruct todo as [|todo]; [lia|]); rewrite send_loop_cons.
  - replace attempt with k by lia. rewrite Hok. reflexivity.
  - destruct (Hfail attempt) as [e He]; [lia|]. rewrite He.
    destruct (Z.ltb_spec (Z.of_nat attempt) (max_retries - 1)); [|lia].
    rewrite (IH (S attempt) todo) by lia.
    rewrite (exhausted_trace_cons (S d)) by lia. reflexivity.
Qed.

(** X5.  When the exchanges numbered 0 to [k - 1] fail and exchange [k]
    answers, with [k] below [max_retries], [send_request] returns that
    answer as it is and stops: it has made the attempts 0 to [k], waited
    [2^j] after each failed attempt [j], and makes no further attempt. *)
Theorem send_request_returns_first_answer (net : target) max_retries uuid spec tool_name
  parameters metadata k response :
  let request := make_request uuid spec tool_name parameters metadata in
  (Z.of_nat k < max_retries)%Z ->
  (forall j, (j < k)%nat -> exists e, net spec request j = inl e) ->
  net spec request k = inr response ->
  exists evs,
    send_request net max_retries uuid spec tool_name parameters metadata = (response, evs)
    /\ attempts evs = seq 0 (S k)
    /\ sleeps evs = map (fun a => (2 ^ Z.of_nat a)%Z) (seq 0 k)
    /\ last evs = Some (Attempt k).
Proof.
  intros request Hk Hfail Hok. unfold send_request. fold request.
  rewrite (send_loop_succeeds net max_retries spec request k response Hk Hfail Hok k 0%nat)
    by lia.
  eexists. split; [reflexivity|].
  rewrite attempts_exhausted_trace, sleeps_exhausted_trace.
  split; [reflexivity|]. split; [simpl; rewrite Nat.sub_0_r; reflexivity|].
  apply (last_exhausted_trace k 0).
Qed.

(** X5, an instance: two refusals, then the answer. *)
Lemma send_request_returns_first_answer_witness :
  exists evs,
    send_request Scenario.answers_third 3 "r1" Scenario.claude_server "generate" [] None
    = (Scenario.answer (make_request "r1" Scenario.claude_server "generate" [] None), evs)
    /\ attempts evs = [0; 1; 2]%nat
    /\ sleeps evs = [1; 2]%Z.
Proof.
  destruct (send_request_returns_first_answer Scenario.answers_third 3 "r1"
              Scenario.claude_server "generate" [] None 2
              (Scenario.answer (make_request "r1" Scenario.claude_server "generate" [] None)))
    as (evs & E & Ha & Hs & _).
  - simpl. lia.
  - intros [|[|j]] Hj; [eexists; reflexivity | eexists; reflexivity | lia].
  - reflexivity.
  - exists evs. split; [exact E|]. split; [exact Ha | exact Hs].
Defined.

Lemma send_loop_shape (net : target) max_retries spec request :
  forall todo attempt,
    (attempt + todo)%nat = Z.to_nat max_retries ->
    exists n,
      (n <= todo)%nat /\ ((1 <= todo)%nat -> (1 <= n)%nat)
      /\ snd (send_loop net max_retries spec request todo attempt) = exhausted_trace n attempt
      /\ ((exists j, net spec request j = inr (fst (send_loop net max_retries spec request todo attempt)))
          \/ exists msg,
               fst (send_loop net max_retries spec request todo attempt)
               = error_response (MCPRequest.request_id request) (MCPServerSpec.name spec)
                   (MCPRequest.tool_name request) msg).
Proof.
  induction todo as [|todo IH]; intros attempt Hn.
  - exists 0%nat. simpl. split; [lia|]. split; [lia|]. split; [reflexivity|]. right. eauto.
  - rewrite send_loop_cons. destruct (net spec request attempt) as [e|response] eqn:E.
    + destruct (Z.ltb_spec (Z.of_nat attempt) (max_retries - 1)).
      * destruct (IH (S attempt)) as (n & Hle & Hpos & Htr & Hresp); [lia|].
        destruct (send_loop net max_retries spec request todo (S attempt)) as [response evs].
        simpl in *. exists (S n). split; [lia|]. split; [lia|].
        rewrite exhausted_trace_cons by (apply Hpos; lia). rewrite Htr.
        split; [reflexivity | exact Hresp].
      * exists 1%nat. simpl. split; [lia|]. split; [lia|]. split; [reflexivity|]. right. eauto.
    + exists 1%nat. simpl. split; [lia|]. split; [lia|]. split; [reflexivity|]. left. eauto.
Qed.

Lemma backoff_sum n : forall k,
  (fold_right Z.add 0 (map (fun a => 2 ^ Z.of_nat a) (seq k n)) = 2 ^ Z.of_nat (k + n) - 2 ^ Z.of_nat k)%Z.
Proof.
  induction n as [|n IH]; intros k; simpl.
  - rewrite Nat.add_0_r. lia.
  - rewrite IH. replace (Z.of_nat (S k)) with (Z.of_nat k + 1)%Z by lia.
    replace (Z.of_nat (S k + n)) with (Z.of_nat (k + S n)) by lia.
    rewrite Z.pow_add_r by lia. lia.
Qed.

(** X6.  Whatever the target does, [send_request] returns: it makes [n]
    attempts, numbered from 0, for some [n] that is at most [max_retries]
    and at least 1 when [max_retries] is, waits [2^j] after attempt [j]
    except after the last one, so [2^(n-1) - 1] in all; and what it returns
    is either an answer of the target or a response with result [None] and
    an error text, made for this request. *)
Theorem send_request_always_returns (net : target) max_retries uuid spec tool_name
  parameters metadata :
  let request := make_request uuid spec tool_name parameters metadata in
  let response := fst (send_request net max_retries uuid spec tool_name parameters metadata) in
  let evs := snd (send_request net max_retries uuid spec tool_name parameters metadata) in
  exists n,
    (Z.of_nat n <= Z.max 0 max_retries)%Z
    /\ ((1 <= max_retries)%Z <-> (1 <= n)%nat)
    /\ evs = exhausted_trace n 0
    /\ attempts evs = seq 0 n
    /\ sleeps evs = map (fun a => (2 ^ Z.of_nat a)%Z) (seq 0 (n - 1))
    /\ (fold_right Z.add 0 (sleeps evs) = 2 ^ Z.of_nat (n - 1) - 1)%Z
    /\ ((exists j, net spec request j = inr response)
        \/ (exists msg,
              MCPResponse.error response = Some msg
              /\ MCPResponse.result response = VNone
              /\ MCPResponse.request_id response = uuid
              /\ MCPResponse.server_name response = MCPServerSpec.name spec
              /\ MCPResponse.tool_name response = tool_name)).
Proof.
  intros request response evs. unfold response, evs, send_request. fold request.
  destruct (send_loop_shape net max_retries spec request (Z.to_nat max_retries) 0%nat eq_refl)
    as (n & Hle & Hpos & Htr & Hresp).
  exists n. split; [lia|]. split; [lia|]. split; [exact Htr|]. rewrite Htr.
  rewrite attempts_exhausted_trace, sleeps_exhausted_trace.
  split; [reflexivity|]. split; [reflexivity|]. split.
  { rewrite backoff_sum. simpl. lia. }
  destruct Hresp as [Hj | [msg ->]]; [left; exact Hj|].
  right. exists msg. repeat split.
Qed.

End ProtocolFacts.

(** ** The registry *)

Module RegistryFacts.
Import Py Types Registry.

Lemma mem_In x l : mem x l = true <-> In x l.
Proof.
  unfold mem. rewrite existsb_exists. split.
  - intros (y & Hy & E). apply String.eqb_eq in E. subst. exact Hy.
  - intros H. exists x. split; [exact H | apply String.eqb_refl].
Qed.

Lemma remove_first_In x y l : In y (remove_first x l) -> In y l.
Proof.
  induction l as [|z l IH]; simpl; [tauto|].
  destruct (String.eqb x z); simpl; tauto.
Qed.

Lemma remove_first_other x y l : y <> x -> In y l -> In y (remove_first x l).
Proof.
  intros Hne. induction l as [|z l IH]; simpl; [tauto|].
  destruct (String.eqb_spec x z) as [E|Hz]; simpl; intros [E'|H]; try tauto; congruence.
Qed.

Lemma remove_first_NoDup x l :
  NoDup l -> NoDup (remove_first x l) /\ ~ In x (remove_first x l).
Proof.
  induction 1 as [|z l Hz Hl [IH1 IH2]]; simpl.
  - split; [constructor | tauto].
  - rewrite list_elem_of_In in Hz.
    destruct (String.eqb_spec x z) as [->|Hne].
    + split; assumption.
    + split.
      * constructor; [|exact IH1]. rewrite list_elem_of_In.
        intros H. apply Hz. exact (remove_first_In _ _ _ H).
      * simpl. intros [E|H]; [congruence | tauto].
Qed.

Lemma register_consistent spec r : consistent r -> consistent (register spec r).
Proof.
  intros [Hs Hi]. split.
  - intros n spec' H. simpl in *.
    destruct (decide (n = MCPServerSpec.name spec)) as [->|Hne].
    + rewrite lookup_insert_eq in H. injection H as <-. split; [reflexivity|].
      destruct (decide _) as [_|Hc]; [|congruence].
      destruct (mem _ _) eqn:E; [apply mem_In, E | apply in_or_app; right; left; reflexivity].
    + rewrite lookup_insert_ne in H by congruence.
      destruct (Hs n spec' H) as [Hn Hin]. split; [exact Hn|].
      destruct (decide _) as [_|_]; [|exact Hin].
      destruct (mem _ _); [exact Hin | apply in_or_app; left; exact Hin].
  - intros c. simpl. destruct (decide _) as [_|_]; [|apply Hi].
    destruct (mem _ _) eqn:E; [apply Hi|].
    apply NoDup_app. split; [apply Hi|]. split; [|apply NoDup_singleton].
    intros x Hx Hx'. apply list_elem_of_singleton in Hx'. subst x.
    apply list_elem_of_In, mem_In in Hx. congruence.
Qed.

Lemma unregister_consistent server_name r : consistent r -> consistent (unregister server_name r).
Proof.
  intros [Hs Hi]. unfold unregister.
  destruct (_servers r !! server_name) as [spec|] eqn:E; [|split; assumption].
  split.
  - intros n spec' H. simpl in *.
    destruct (decide (n = server_name)) as [->|Hne].
    + rewrite lookup_delete_eq in H. discriminate.
    + rewrite lookup_delete_ne in H by congruence.
      destruct (Hs n spec' H) as [Hn Hin]. split; [exact Hn|].
      destruct (decide _) as [_|_]; [|exact Hin].
      apply remove_first_other; assumption.
  - intros c. simpl. destruct (decide _) as [_|_]; [|apply Hi].
    apply remove_first_NoDup, Hi.
Qed.

Lemma after_calls_consistent calls : consistent (after_calls calls).
Proof.
  unfold after_calls.
  assert (H : forall r, consistent r -> consistent (fold_left run_call calls r)).
  { induction calls as [|c calls IH]; intros r Hr; simpl; [exact Hr|].
    apply IH. destruct c as [spec|server_name|]; simpl.
    - apply register_consistent, Hr.
    - apply unregister_consistent, Hr.
    - split; [intros n spec H; simpl in H; rewrite lookup_empty in H; discriminate|].
      intros c. constructor. }
  apply H. split; [intros n spec E; simpl in E; rewrite lookup_empty in E; discriminate|].
  intros c. constructor.
Qed.

(** X7.  Whatever calls of [register], [unregister] and [clear] a registry
    has received since [ToolRegistry()], every server is stored under its own
    name, that name is listed in the index of the server's category, and no
    index lists a name twice; so the [list.remove] of [unregister] always
    finds the name, and after [unregister] the name is neither in the
    dictionary nor in the index of that category. *)
Theorem registry_stays_consistent calls :
  let r := after_calls calls in
  (forall n spec, get_server n r = Some spec ->
     MCPServerSpec.name spec = n
     /\ In n (_category_index r (MCPServerSpec.category spec))
     /\ get_server n (unregister n r) = None
     /\ ~ In n (_category_index (unregister n r) (MCPServerSpec.category spec)))
  /\ (forall c, NoDup (_category_index r c)).
Proof.
  intros r. destruct (after_calls_consistent calls) as [Hs Hi]. fold r in Hs, Hi.
  split; [|exact Hi].
  intros n spec H. unfold get_server in *. destruct (Hs n spec H) as [Hn Hin].
  split; [exact Hn|]. split; [exact Hin|].
  unfold unregister. rewrite H. simpl. split; [apply lookup_delete_eq|].
  destruct (decide _) as [_|Hc]; [|congruence].
  apply remove_first_NoDup, Hi.
Qed.

Lemma omap_remove_first (m : gmap string MCPServerSpec.t) x l :
  m !! x = None -> omap (fun name => m !! name) (remove_first x l) = omap (fun name => m !! name) l.
Proof.
  intros Hx. induction l as [|z l IH]; simpl; [reflexivity|].
  destruct (String.eqb_spec x z) as [<-|Hne]; simpl.
  - rewrite Hx. reflexivity.
  - destruct (m !! z); [f_equal|]; exact IH.
Qed.

(** X8.  [register] then [get_server] gives the specification back and
    leaves the other names alone; [unregister] after it makes the name
    unknown; and when the name was not registered before, [register]
    followed by [unregister] leaves a registry that answers [get_server] and
    [get_category_servers] as the first one did. *)
Theorem unregister_undoes_register spec r :
  let nm := MCPServerSpec.name spec in
  let r' := unregister nm (register spec r) in
  get_server nm (register spec r) = Some spec
  /\ (forall n, n <> nm -> get_server n (register spec r) = get_server n r)
  /\ get_server nm r' = None
  /\ (get_server nm r = None ->
      (forall n, get_server n r' = get_server n r)
      /\ (forall c, get_category_servers c r' = get_category_servers c r)).
Proof.
  intros nm r'. unfold get_server.
  assert (E : _servers (register spec r) !! nm = Some spec) by apply lookup_insert_eq.
  split; [exact E|]. split.
  { intros n Hne. simpl. apply lookup_insert_ne. intros Heq. apply Hne. symmetry. exact Heq. }
  assert (Hm : _servers r' = delete nm (<[nm := spec]> (_servers r))).
  { unfold r', unregister. rewrite E. reflexivity. }
  split; [rewrite Hm; apply lookup_delete_eq|].
  intros Hfresh. rewrite Hm, (delete_insert_id _ _ _ Hfresh).
  split; [reflexivity|].
  intros [c|]; [|reflexivity]. unfold get_category_servers. rewrite Hm, (delete_insert_id _ _ _ Hfresh).
  unfold r', unregister. rewrite E. simpl.
  destruct (decide (c = MCPServerSpec.category spec)) as [_|_]; [|reflexivity].
  rewrite (omap_remove_first _ _ _ Hfresh).
  destruct (mem _ _); [reflexivity|].
  rewrite omap_app. simpl. fold nm. rewrite Hfresh. apply app_nil_r.
Qed.

(** X8, an instance: [claude_server] on an empty registry. *)
Lemma unregister_undoes_register_witness :
  get_server "claude_server" new = None
  /\ get_server "claude_server" (register Scenario.claude_server new)
     = Some Scenario.claude_server
  /\ get_category_servers (Some LLM)
       (unregister "claude_server" (register Scenario.claude_server new)) = [].
Proof.
  destruct (unregister_undoes_register Scenario.claude_server new) as (H1 & _ & _ & H4).
  split; [reflexivity|]. split; [exact H1|].
  destruct (H4 eq_refl) as [_ Hc]. exact (Hc (Some LLM)).
Defined.

Lemma category_servers_names (r : ToolRegistry) l :
  (forall n spec, _servers r !! n = Some spec -> MCPServerSpec.name spec = n) ->
  map MCPServerSpec.name (omap (fun name => _servers r !! name) l)
  = List.filter (fun n => match _servers r !! n with Some _ => true | None => false end) l.
Proof.
  intros Hs. induction l as [|n l IH]; simpl; [reflexivity|].
  destruct (_servers r !! n) as [spec|] eqn:E; simpl.
  - rewrite (Hs n spec E). f_equal. exact IH.
  - exact IH.
Qed.

Lemma filter_NoDup {A} (f : A -> bool) l : NoDup l -> NoDup (List.filter f l).
Proof.
  induction 1 as [|x l Hx Hl IH]; simpl; [constructor|].
  destruct (f x); [|exact IH].
  constructor; [|exact IH]. rewrite list_elem_of_In, filter_In, <- list_elem_of_In. tauto.
Qed.

(** X9.  In a registry built by calls, [get_category_servers] returns
    registered servers only, each under its own name and none twice, among
    them every registered server whose category is the one asked for, hence
    everything [list_servers] returns for that category; for [None] it
    returns nothing. *)
Theorem category_servers_are_registered calls c :
  let r := after_calls calls in
  (forall spec, In spec (get_category_servers (Some c) r) ->
     get_server (MCPServerSpec.name spec) r = Some spec)
  /\ NoDup (map MCPServerSpec.name (get_category_servers (Some c) r))
  /\ (forall n spec, get_server n r = Some spec -> MCPServerSpec.category spec = c ->
        In spec (get_category_servers (Some c) r))
  /\ (forall spec domain, In spec (list_servers (Some c) domain r) ->
        In spec (get_category_servers (Some c) r))
  /\ get_category_servers None r = [].
Proof.
  intros r. destruct (after_calls_consistent calls) as [Hs Hi]. fold r in Hs, Hi.
  unfold get_category_servers, get_server.
  assert (Hall : forall n spec, _servers r !! n = Some spec -> MCPServerSpec.category spec = c ->
                   In spec (omap (fun name => _servers r !! name) (_category_index r c))).
  { intros n spec H <-. apply list_elem_of_In, list_elem_of_omap.
    exists n. split; [apply list_elem_of_In, (Hs n spec H) | exact H]. }
  split; [|split; [|split; [exact Hall|split; [|reflexivity]]]].
  - intros spec H. apply list_elem_of_In, list_elem_of_omap in H as (n & _ & H).
    destruct (Hs n spec H) as [-> _]. exact H.
  - rewrite category_servers_names by (intros n spec H; apply (Hs n spec H)).
    apply filter_NoDup, Hi.
  - intros spec domain H.
    assert (H' : In spec (List.filter (fun s => bool_decide (MCPServerSpec.category s = c))
                            (map snd (map_to_list (_servers r))))).
    { unfold list_servers in H. destruct domain as [d|]; [|exact H].
      destruct (String.eqb d EmptyString); [exact H|]. apply filter_In in H. tauto. }
    apply filter_In in H' as [Hin Hc]. apply bool_decide_eq_true in Hc.
    apply in_map_iff in Hin as ([n spec'] & <- & Hin). simpl in *.
    apply list_elem_of_In, elem_of_map_to_list in Hin.
    exact (Hall n spec' Hin Hc).
Qed.

(** A name registered again under another category stays in the index of
    the first one: [get_category_servers] then returns, for the first
    category, a server of the second. *)
Example category_servers_of_another_category :
  let data_server :=
    {| MCPServerSpec.name := "claude_server"; MCPServerSpec.category := DATA;
       MCPServerSpec.endpoint := "http://localhost:8002"; MCPServerSpec.capabilities := [];
       MCPServerSpec.strengths := []; MCPServerSpec.cost_per_call := 0%Q;
       MCPServerSpec.auth_required := true; MCPServerSpec.metadata := [] |} in
  map MCPServerSpec.category
    (get_category_servers (Some LLM)
       (after_calls [Register Scenario.claude_server; Register data_server]))
  = [DATA].
Proof. vm_compute. reflexivity. Qed.

Lemma size_at_most_index r :
  consistent r ->
  size (_servers r) <= sum_list (map (fun c => length (_category_index r c)) categories).
Proof.
  intros [Hs _].
  set (entries := flat_map (fun c => map (pair c) (_category_index r c)) categories).
  set (stored := (fun kv : string * MCPServerSpec.t => (MCPServerSpec.category (snd kv), fst kv))
                   <$> map_to_list (_servers r)).
  assert (Hlen : length entries
                 = sum_list (map (fun c => length (_category_index r c)) categories)).
  { unfold entries, categories. simpl. rewrite !length_app, !length_map. simpl. lia. }
  assert (Hsize : length stored = size (_servers r)).
  { unfold stored. rewrite length_fmap. apply length_map_to_list. }
  rewrite <- Hlen, <- Hsize. apply submseteq_length, NoDup_submseteq.
  - apply (NoDup_fmap_1 snd). unfold stored. rewrite <- list_fmap_compose.
    apply NoDup_fst_map_to_list.
  - intros [c n] H. unfold stored in H.
    apply list_elem_of_fmap in H as ([n' spec] & E & H). simpl in E. injection E as -> ->.
    apply elem_of_map_to_list in H. destruct (Hs n' spec H) as [_ Hin].
    apply list_elem_of_In, in_flat_map. exists (MCPServerSpec.category spec). split.
    + unfold categories. destruct (MCPServerSpec.category spec); simpl; tauto.
    + apply in_map, Hin.
Qed.

(** X10.  In the dictionary of [get_stats] of a registry built by calls,
    [total] is the number of registered servers and never exceeds the sum of
    the five category counts, which count the names in the indexes; after
    [clear] every entry is 0. *)
Theorem stats_total_at_most_categories calls :
  let r := after_calls calls in
  let stats := get_stats r in
  stat "total" stats = Z.of_nat (size (_servers r))
  /\ (stat "total" stats
      <= stat "llm_servers" stats + stat "simulation_servers" stats
         + stat "data_servers" stats + stat "validation_servers" stats
         + stat "utility_servers" stats)%Z
  /\ map snd (get_stats (clear r)) = repeat (VInt 0) 6.
Proof.
  intros r stats. split; [reflexivity|]. split; [|reflexivity].
  pose proof (size_at_most_index r (after_calls_consistent calls)) as H.
  unfold stats, stat, get_stats, categories in *. simpl in *. lia.
Qed.

End RegistryFacts.

(** ** The planner *)

Module OrchestratorFacts.
Import Py Types Registry Orchestrator RegistryFacts.

Lemma find_None {A} (f : A -> bool) l :
  List.find f l = None <-> forall x, In x l -> f x = false.
Proof.
  split; [apply find_none|].
  induction l as [|x l IH]; intros H; simpl; [reflexivity|].
  rewrite (H x (or_introl eq_refl)). apply IH. intros y Hy. apply H. right. exact Hy.
Qed.

Lemma filter_nil {A} (f : A -> bool) l :
  List.filter f l = [] <-> forall x, In x l -> f x = false.
Proof.
  induction l as [|x l IH]; simpl; [tauto|].
  destruct (f x) eqn:E; split.
  - discriminate.
  - intros H. rewrite (H x (or_introl eq_refl)) in E. discriminate.
  - intros H y [<-|Hy]; [exact E | apply IH; assumption].
  - intros H. apply IH. intros y Hy. apply H. right. exact Hy.
Qed.

Lemma flat_map_nil {A B} (f : A -> list B) l :
  flat_map f l = [] <-> forall x, In x l -> f x = [].
Proof.
  induction l as [|x l IH]; simpl; [tauto|]. split.
  - intros H. apply app_eq_nil in H as [Hx Hl]. intros y [<-|Hy]; [exact Hx | apply IH; assumption].
  - intros H. rewrite (H x (or_introl eq_refl)). simpl. apply IH.
    intros y Hy. apply H. right. exact Hy.
Qed.

Lemma check_budget_None plan :
  check_budget plan = None
  <-> match UserIntent.budget (OrchestrationPlan.intent plan) with
      | None => True
      | Some budget =>
          (budget == 0)%Q \/ (OrchestrationPlan.estimated_cost plan <= budget)%Q
      end.
Proof.
  unfold check_budget.
  destruct (UserIntent.budget (OrchestrationPlan.intent plan)) as [budget|]; [|tauto].
  rewrite <- Qeq_bool_iff, <- Qle_bool_iff.
  destruct (Qeq_bool budget 0), (Qle_bool (OrchestrationPlan.estimated_cost plan) budget);
    simpl; split; intros H; try reflexivity; try discriminate; try tauto;
    destruct H; discriminate.
Qed.

Lemma check_servers_None r plan :
  check_servers r plan = None
  <-> forall step, In step (OrchestrationPlan.steps plan) ->
        get_server (OrchestrationStep.server_name step) r <> None.
Proof.
  unfold check_servers.
  destruct (List.find _ _) as [step|] eqn:E.
  - split; [discriminate|]. intros H. apply find_some in E as [Hin Hf].
    specialize (H step Hin). destruct (get_server _ r); [discriminate | contradiction].
  - split; [|reflexivity]. intros _ step Hin.
    pose proof (proj1 (find_None _ _) E step Hin) as Hf. simpl in Hf.
    destruct (get_server _ r); [discriminate | discriminate].
Qed.

Lemma check_dependencies_None plan :
  check_dependencies plan = None
  <-> forall step dep_id,
        In step (OrchestrationPlan.steps plan) ->
        In dep_id (OrchestrationStep.dependencies step) ->
        exists step', In step' (OrchestrationPlan.steps plan)
                      /\ OrchestrationStep.step_id step' = dep_id.
Proof.
  unfold check_dependencies.
  set (step_ids := map OrchestrationStep.step_id (OrchestrationPlan.steps plan)).
  set (bad := flat_map _ _).
  assert (Hbad : bad = [] <-> forall step dep_id,
                   In step (OrchestrationPlan.steps plan) ->
                   In dep_id (OrchestrationStep.dependencies step) ->
                   In dep_id step_ids).
  { unfold bad. rewrite flat_map_nil. split.
    - intros H step dep_id Hstep Hdep. specialize (H step Hstep).
      apply map_eq_nil in H. pose proof (proj1 (filter_nil _ _) H dep_id Hdep) as Hm.
      apply negb_false_iff, mem_In in Hm. exact Hm.
    - intros H step Hstep.
      assert (Hf : List.filter (fun dep_id => negb (mem dep_id step_ids))
                     (OrchestrationStep.dependencies step) = []).
      { apply filter_nil. intros dep_id Hdep. apply negb_false_iff, mem_In.
        exact (H step dep_id Hstep Hdep). }
      rewrite Hf. reflexivity. }
  assert (Hids : forall dep_id, In dep_id step_ids
                 <-> exists step', In step' (OrchestrationPlan.steps plan)
                                   /\ OrchestrationStep.step_id step' = dep_id).
  { intros dep_id. unfold step_ids. rewrite in_map_iff. split; intros (s & H1 & H2); eauto. }
  destruct bad as [|[dep_id sid] bad'].
  - split; [|reflexivity]. intros _ step dep_id Hstep Hdep.
    apply Hids. exact (proj1 Hbad eq_refl step dep_id Hstep Hdep).
  - split; [discriminate|]. intros H. exfalso.
    assert (Hnil : (dep_id, sid) :: bad' = []); [|discriminate].
    apply Hbad. intros step d Hstep Hdep. apply Hids. exact (H step d Hstep Hdep).
Qed.

(** X11.  [validate_plan] accepts a plan exactly when the three checks pass:
    the intent has no budget, or a budget of 0, or the estimated cost is at
    most the budget; the server of every step is registered; and every
    dependency of every step is the id of a step of the plan.  A refusal
    always carries a message, and an exceeded budget is the failure that is
    reported, whatever else is wrong. *)
Theorem validate_plan_accepts_iff r plan :
  let budget_ok :=
    match UserIntent.budget (OrchestrationPlan.intent plan) with
    | None => True
    | Some budget =>
        (budget == 0)%Q \/ (OrchestrationPlan.estimated_cost plan <= budget)%Q
    end in
  let servers_ok :=
    forall step, In step (OrchestrationPlan.steps plan) ->
      get_server (OrchestrationStep.server_name step) r <> None in
  let dependencies_ok :=
    forall step dep_id,
      In step (OrchestrationPlan.steps plan) ->
      In dep_id (OrchestrationStep.dependencies step) ->
      exists step', In step' (OrchestrationPlan.steps plan)
                    /\ OrchestrationStep.step_id step' = dep_id in
  (validate_plan r plan = (true, None) <-> budget_ok /\ servers_ok /\ dependencies_ok)
  /\ (validate_plan r plan = (true, None)
      \/ exists msg, validate_plan r plan = (false, Some msg))
  /\ (forall msg, check_budget plan = Some msg -> validate_plan r plan = (false, Some msg)).
Proof.
  intros budget_ok servers_ok dependencies_ok.
  pose proof (check_budget_None plan) as Hb.
  pose proof (check_servers_None r plan) as Hs.
  pose proof (check_dependencies_None plan) as Hd.
  fold budget_ok in Hb. fold servers_ok in Hs. fold dependencies_ok in Hd.
  unfold validate_plan.
  destruct (check_budget plan) as [mb|].
  { split; [|split; [right; eauto | intros msg [= ->]; reflexivity]].
    split; [discriminate|]. intros (H & _ & _). apply Hb in H. discriminate. }
  destruct (check_servers r plan) as [ms|].
  { split; [|split; [right; eauto | discriminate]].
    split; [discriminate|]. intros (_ & H & _). apply Hs in H. discriminate. }
  destruct (check_dependencies plan) as [md|].
  { split; [|split; [right; eauto | discriminate]].
    split; [discriminate|]. intros (_ & _ & H). apply Hd in H. discriminate. }
  split; [|split; [left; reflexivity | discriminate]].
  split; [|reflexivity]. intros _. split; [apply Hb; reflexivity|].
  split; [apply Hs; reflexivity | apply Hd; reflexivity].
Qed.

(** The step that [generate_plan] writes for the server [llm]. *)
Lemma generate_plan_steps r intent :
  let plan := generate_plan r intent in
  (OrchestrationPlan.steps plan = []
   /\ (Str.contains "design" (Str.lower (UserIntent.primary_objective intent)) = false
       \/ get_category_servers
            (MCPServerSpec.category <$> get_server "claude_server" r) r = []))
  \/ (exists llm rest step,
        Str.contains "design" (Str.lower (UserIntent.primary_objective intent)) = true
        /\ get_category_servers
             (MCPServerSpec.category <$> get_server "claude_server" r) r = llm :: rest
        /\ OrchestrationPlan.steps plan = [step]
        /\ OrchestrationStep.server_name step = MCPServerSpec.name llm
        /\ OrchestrationStep.step_id step = "design_1"
        /\ OrchestrationStep.tool_name step = "generate"
        /\ OrchestrationStep.dependencies step = []
        /\ OrchestrationStep.parallel_group step = None).
Proof.
  intros plan. unfold plan, generate_plan, get_server. simpl.
  destruct (Str.contains "design" _); [|left; auto].
  destruct (get_category_servers _ r) as [|llm rest]; [left; auto|].
  right. exists llm, rest. eexists. repeat split.
Qed.

Lemma fold_cost r (steps : list OrchestrationStep.t) : forall q,
  fold_left (fun total step =>
               match get_server (OrchestrationStep.server_name step) r with
               | Some server => (total + MCPServerSpec.cost_per_call server)%Q
               | None => total
               end) steps q
  = fold_left Qplus
      (omap (fun step => MCPServerSpec.cost_per_call
                           <$> get_server (OrchestrationStep.server_name step) r) steps) q.
Proof.
  induction steps as [|step steps IH]; intros q; simpl; [reflexivity|].
  destruct (get_server (OrchestrationStep.server_name step) r); simpl; apply IH.
Qed.

(** X12.  On a registry built by calls, the plan that [generate_plan] makes
    holds at most one step; it holds one exactly when the objective contains
    "design" and a server named [claude_server] is registered, and the step
    then goes to the first server that [get_category_servers] lists for the
    category of [claude_server], which is registered.  Such a plan always
    passes the server and the dependency checks, so [validate_plan] refuses
    it only for its budget; and [estimate_plan_cost] gives the plan's
    [estimated_cost]. *)
Theorem generated_plan_fails_only_on_budget calls intent :
  let r := after_calls calls in
  let plan := generate_plan r intent in
  length (OrchestrationPlan.steps plan) <= 1
  /\ (OrchestrationPlan.steps plan <> []
      <-> Str.contains "design" (Str.lower (UserIntent.primary_objective intent)) = true
          /\ get_server "claude_server" r <> None)
  /\ (forall step, In step (OrchestrationPlan.steps plan) ->
        exists claude llm rest,
          get_server "claude_server" r = Some claude
          /\ get_category_servers (Some (MCPServerSpec.category claude)) r = llm :: rest
          /\ OrchestrationStep.server_name step = MCPServerSpec.name llm
          /\ get_server (OrchestrationStep.server_name step) r = Some llm)
  /\ check_servers r plan = None
  /\ check_dependencies plan = None
  /\ validate_plan r plan
     = match check_budget plan with
       | Some msg => (false, Some msg)
       | None => (true, None)
       end
  /\ estimate_plan_cost r plan = OrchestrationPlan.estimated_cost plan.
Proof.
  intros r plan.
  destruct (after_calls_consistent calls) as [Hs Hi]. fold r in Hs, Hi.
  assert (Hlive : forall c llm rest,
            get_category_servers (Some c) r = llm :: rest ->
            get_server (MCPServerSpec.name llm) r = Some llm).
  { intros c llm rest E.
    assert (Hin : llm ∈ get_category_servers (Some c) r) by (rewrite E; left).
    apply list_elem_of_omap in Hin as (n & _ & Hn).
    destruct (Hs n llm Hn) as [-> _]. exact Hn. }
  assert (Hclaude : forall claude, get_server "claude_server" r = Some claude ->
            get_category_servers (Some (MCPServerSpec.category claude)) r <> []).
  { intros claude Hc E. destruct (Hs _ _ Hc) as [_ Hin].
    assert (H : claude ∈ get_category_servers (Some (MCPServerSpec.category claude)) r).
    { apply list_elem_of_omap. exists "claude_server". split; [apply list_elem_of_In, Hin | exact Hc]. }
    rewrite E in H. inversion H. }
  assert (Hcost : estimate_plan_cost r plan = OrchestrationPlan.estimated_cost plan).
  { unfold plan, generate_plan, estimate_plan_cost, Qsum. simpl. apply fold_cost. }
  destruct (generate_plan_steps r intent) as [[Hnil Hwhy] | (llm & rest & step & Hd & Hl & Hst & Hn & _ & _ & Hdep & _)];
    fold plan in Hnil || fold plan in Hst.
  - assert (Hv : check_servers r plan = None /\ check_dependencies plan = None).
    { unfold check_servers, check_dependencies. rewrite Hnil. auto. }
    destruct Hv as [Hv1 Hv2].
    split; [rewrite Hnil; simpl; lia|]. split.
    { split; [rewrite Hnil; tauto|]. intros [Hd Hc]. exfalso.
      destruct Hwhy as [Hw|Hw]; [congruence|].
      destruct (get_server "claude_server" r) as [claude|] eqn:E; [|tauto].
      exact (Hclaude claude eq_refl Hw). }
    split; [rewrite Hnil; intros step []|].
    split; [exact Hv1|]. split; [exact Hv2|]. split; [|exact Hcost].
    unfold validate_plan. rewrite Hv1, Hv2. destruct (check_budget plan); reflexivity.
  - destruct (get_server "claude_server" r) as [claude|] eqn:Ec; [|discriminate].
    simpl in Hl. pose proof (Hlive _ _ _ Hl) as Hreg.
    assert (Hv1 : check_servers r plan = None).
    { apply check_servers_None. rewrite Hst. intros s [<-|[]]. rewrite Hn, Hreg. discriminate. }
    assert (Hv2 : check_dependencies plan = None).
    { apply check_dependencies_None. rewrite Hst. intros s d [<-|[]]. rewrite Hdep. intros []. }
    split; [rewrite Hst; simpl; lia|]. split.
    { split; [intros _; split; [exact Hd | discriminate] | rewrite Hst; discriminate]. }
    split.
    { rewrite Hst. intros s [<-|[]]. exists claude, llm, rest.
      split; [reflexivity|]. split; [exact Hl|]. split; [exact Hn|]. rewrite Hn. exact Hreg. }
    split; [exact Hv1|]. split; [exact Hv2|]. split; [|exact Hcost].
    unfold validate_plan. rewrite Hv1, Hv2. destruct (check_budget plan); reflexivity.
Qed.

End OrchestratorFacts.

(** ** The execution coordinator *)

Module KernelFacts.
Import Py Types Provenance Registry Orchestrator Kernel.

(** *** Rules for [wp] *)

Lemma wp_ret {A} (a : A) w Q : Q (inr a) w -> wp (ret a) w Q.
Proof. exact (fun H => H). Qed.

Lemma wp_bind {A B} (m : M A) (f : A -> M B) w Q :
  wp m w (fun r w' => match r with
                      | inl e => Q (inl e) w'
                      | inr a => wp (f a) w' Q
                      end) ->
  wp (bind m f) w Q.
Proof. unfold wp, bind. destruct (m w) as [[e|a] w']; simpl; exact (fun H => H). Qed.

Lemma wp_try {A} (m : M A) (h : exn -> M A) w Q :
  wp m w (fun r w' => match r with
                      | inl e => wp (h e) w' Q
                      | inr a => Q (inr a) w'
                      end) ->
  wp (try_except m h) w Q.
Proof. unfold wp, try_except. destruct (m w) as [[e|a] w']; simpl; exact (fun H => H). Qed.

Lemma wp_mono {A} (m : M A) w (Q Q' : exn + A -> World -> Prop) :
  (forall r w', Q r w' -> Q' r w') -> wp m w Q -> wp m w Q'.
Proof. unfold wp. auto. Qed.

Lemma wp_draw {A} o (f : Outside -> nat -> A) w Q :
  Q (inr (f o (draws w))) (next w) -> wp (draw o f) w Q.
Proof. exact (fun H => H). Qed.

Lemma wp_run {A} (m : M A) w Q :
  wp m w Q -> exists r w', m w = (r, w') /\ Q r w'.
Proof. unfold wp. intros H. exists (fst (m w)), (snd (m w)). split; [apply surjective_pairing | exact H]. Qed.

(** *** The ledger under the kernel's appends *)

(** An append raises exactly when the session is not tracked, and leaves
    every session tracked or not as it was. *)
Lemma wp_add_node uuid now sid ntype d parent_id w :
  wp (on_ledger (_add_node uuid now sid ntype d parent_id)) w
     (fun r w' =>
        is_exc r = negb (tracked sid w)
        /\ (forall sid', tracked sid' w' = tracked sid' w)
        /\ wire w' = wire w).
Proof.
  unfold wp, on_ledger, _add_node, tracked.
  destruct (ledger w !! sid) as [chain|] eqn:E; simpl.
  - split; [reflexivity|]. split; [|reflexivity]. intros sid'.
    destruct (decide (sid' = sid)) as [->|Hne].
    + rewrite lookup_insert_eq, E. reflexivity.
    + rewrite lookup_insert_ne by congruence. reflexivity.
  - split; [reflexivity|]. split; reflexivity.
Qed.

Lemma tracked_next sid w : tracked sid (next w) = tracked sid w.
Proof. reflexivity. Qed.

Section Steps.
Variable o : Outside.
Variable k : AetherMCP.
Variable sid : string.
Variable b : bool.

Lemma raises_absorb step : raises k b step || negb b = raises k b step.
Proof. unfold raises. destruct (get_server _ _), b; reflexivity. Qed.

Lemma wp_record (ntype : string) d parent_id w :
  inv sid b w ->
  wp (let* uuid := draw o uuid4 in
      let* now := draw o utcnow in
      on_ledger (_add_node uuid now sid ntype d parent_id)) w
     (fun r w' => is_exc r = negb b /\ inv sid b w').
Proof.
  intros Hw. apply wp_bind, wp_draw, wp_bind, wp_draw.
  eapply wp_mono; [|apply wp_add_node].
  simpl. intros r w' (Hr & Ht & _). unfold inv in *.
  rewrite Hr, Ht, !tracked_next, Hw. split; reflexivity.
Qed.

Lemma wp_start_step parent_node_id step w :
  inv sid b w ->
  wp (start_step o k sid parent_node_id step) w
     (fun r w' => exists st, r = inr st /\ is_raised st = raises k b step /\ inv sid b w').
Proof.
  intros Hw. unfold start_step, raises.
  destruct (get_server _ _) as [server|].
  - apply wp_try, wp_bind.
    eapply wp_mono; [|apply (wp_record "step"); exact Hw].
    simpl. intros [e|nid] w' [Hr Hw']; simpl in Hr.
    + apply wp_ret. exists (Raised e). rewrite <- Hr. auto.
    + apply wp_bind, wp_draw, wp_ret. eexists. split; [reflexivity|].
      rewrite <- Hr. split; [reflexivity | exact Hw'].
  - apply wp_ret. eexists. split; [reflexivity|]. split; [reflexivity | exact Hw].
Qed.

Lemma wp_finish_step step st w :
  inv sid b w ->
  wp (finish_step o k sid step st) w
     (fun r w' => exists res, r = inr res
                              /\ is_exc res = is_raised st || negb b
                              /\ inv sid b w').
Proof.
  intros Hw. unfold finish_step. destruct st as [e|server step_node_id request_id].
  - apply wp_ret. eexists. split; [reflexivity|]. split; [reflexivity | exact Hw].
  - destruct (Protocol.send_request _ _ _ _ _ _ _) as [response evs].
    apply wp_try, wp_bind. unfold wp at 1. simpl.
    apply wp_bind.
    eapply wp_mono; [|apply (wp_record "result"); exact Hw].
    simpl. intros [e|nid] w' [Hr Hw']; simpl in Hr.
    + apply wp_ret. eexists. split; [reflexivity|]. rewrite <- Hr. auto.
    + apply wp_ret. eexists. split; [reflexivity|]. rewrite <- Hr. auto.
Qed.

(** [mapM] under an invariant. *)
Lemma wp_mapM {A B} (f : A -> M B) (P : A -> B -> Prop) :
  (forall a w, inv sid b w -> wp (f a) w (fun r w' => exists y, r = inr y /\ P a y /\ inv sid b w')) ->
  forall l w, inv sid b w ->
    wp (mapM f l) w (fun r w' => exists ys, r = inr ys /\ Forall2 P l ys /\ inv sid b w').
Proof.
  intros Hf. induction l as [|a l IH]; intros w Hw; simpl.
  - apply wp_ret. exists []. split; [reflexivity|]. split; [constructor | exact Hw].
  - apply wp_bind. eapply wp_mono; [|apply Hf; exact Hw].
    simpl. intros r w1 (y & -> & Hy & Hw1).
    apply wp_bind. eapply wp_mono; [|apply IH; exact Hw1].
    simpl. intros r w2 (ys & -> & Hys & Hw2).
    apply wp_ret. exists (y :: ys). split; [reflexivity|]. split; [constructor; assumption | exact Hw2].
Qed.

End Steps.

(** *** Sorting on a key *)

Lemma insert_by_perm {A} (key : A -> nat) a l : insert_by key a l ≡ₚ a :: l.
Proof.
  induction l as [|x l IH]; simpl; [reflexivity|].
  destruct (key a <=? key x)%nat; [reflexivity|].
  rewrite IH. apply perm_swap.
Qed.

Lemma sort_by_perm {A} (key : A -> nat) l : sort_by key l ≡ₚ l.
Proof.
  induction l as [|x l IH]; simpl; [reflexivity|].
  rewrite insert_by_perm, IH. reflexivity.
Qed.

Lemma insert_by_sorted {A} (key : A -> nat) a l :
  StronglySorted (fun x y => key x <= key y) l ->
  StronglySorted (fun x y => key x <= key y) (insert_by key a l).
Proof.
  induction 1 as [|x l Hl IH Hx]; simpl.
  - repeat constructor.
  - destruct (Nat.leb_spec (key a) (key x)).
    + constructor; [constructor; assumption|].
      constructor; [assumption|].
      eapply Forall_impl; [exact Hx|]. simpl. intros; lia.
    + constructor; [exact IH|].
      rewrite insert_by_perm. constructor; [lia | exact Hx].
Qed.

Lemma sort_by_sorted {A} (key : A -> nat) l :
  StronglySorted (fun x y => key x <= key y) (sort_by key l).
Proof.
  induction l as [|x l IH]; simpl; [constructor | apply insert_by_sorted, IH].
Qed.

Lemma StronglySorted_map_key {A} (key : A -> nat) l :
  StronglySorted (fun x y => key x <= key y) l -> StronglySorted le (map key l).
Proof.
  induction 1 as [|x l Hl IH Hx]; simpl; constructor; [exact IH|].
  rewrite Forall_fmap. exact Hx.
Qed.

Lemma seq_sorted n : forall s, StronglySorted le (seq s n).
Proof.
  induction n as [|n IH]; intros s; simpl; constructor; [apply IH|].
  apply Forall_forall. intros x Hx. apply list_elem_of_In, in_seq in Hx. lia.
Qed.

(** Sorting on the index puts indexed items back in the order of the indices. *)
Lemma sort_back {A} (l : list (nat * A)) n :
  map fst l ≡ₚ seq 0 n -> map fst (sort_by fst l) = seq 0 n.
Proof.
  intros Hp. apply (StronglySorted_unique le).
  - apply StronglySorted_map_key, sort_by_sorted.
  - apply seq_sorted.
  - rewrite <- Hp. apply fmap_Permutation, sort_by_perm.
Qed.

Lemma lookup_combine {A B} (l1 : list A) (l2 : list B) i x y :
  combine l1 l2 !! i = Some (x, y) <-> l1 !! i = Some x /\ l2 !! i = Some y.
Proof.
  revert l2 i. induction l1 as [|a l1 IH]; intros [|c l2] [|i]; simpl;
    try (split; [discriminate | intros [? ?]; discriminate]).
  - split; [intros [= -> ->]; auto | intros [[= ->] [= ->]]; reflexivity].
  - apply IH.
Qed.

Lemma map_fst_combine {A B} (l1 : list A) (l2 : list B) :
  length l1 = length l2 -> map fst (combine l1 l2) = l1.
Proof.
  revert l2. induction l1 as [|a l1 IH]; intros [|c l2] H; simpl in *;
    try discriminate; [reflexivity|].
  f_equal. apply IH. lia.
Qed.

Section Gather.
Variable o : Outside.
Variable k : AetherMCP.
Variable sid : string.
Variable b : bool.

Abbreviation result := (exn + MCPResponse.t * Q)%type.

(** What [gather] hands back, read off what its two passes produced. *)
Lemma gather_results (group : list OrchestrationStep.t) (sts : list started)
  (order : list (nat * (OrchestrationStep.t * started))) (done : list (nat * result)) :
  Forall2 (fun step st => is_raised st = raises k b step) group sts ->
  order ≡ₚ combine (seq 0 (length group)) (combine group sts) ->
  Forall2 (fun t y => fst y = fst t
                      /\ is_exc (snd y) = is_raised (snd (snd t)) || negb b) order done ->
  Forall2 (fun step res => is_exc res = raises k b step) group (map snd (sort_by fst done)).
Proof.
  intros Hsts Hperm Hdone.
  set (n := length group) in *.
  set (tasks := combine (seq 0 n) (combine group sts)) in *.
  assert (Hlen : length sts = n) by (symmetry; apply (Forall2_length _ _ _ Hsts)).
  assert (Hfst : map fst tasks = seq 0 n).
  { apply map_fst_combine. rewrite length_seq, length_combine. lia. }
  assert (Hkeys : map fst done = map fst order).
  { clear -Hdone. induction Hdone as [|t y order done [E _] _ IH]; simpl; congruence. }
  assert (Hsorted : map fst (sort_by fst done) = seq 0 n).
  { apply sort_back. rewrite Hkeys, <- Hfst. apply fmap_Permutation, Hperm. }
  assert (Hgood : Forall (fun y => exists step, group !! fst y = Some step
                                               /\ is_exc (snd y) = raises k b step)
                    (sort_by fst done)).
  { rewrite sort_by_perm.
    assert (Htasks : Forall (fun t => group !! fst t = Some (fst (snd t))
                                       /\ is_raised (snd (snd t)) = raises k b (fst (snd t)))
                       order).
    { rewrite Hperm. apply Forall_lookup. intros i [j [step st]] Hi. simpl.
      apply lookup_combine in Hi as [Hj Hi]. apply lookup_combine in Hi as [Hstep Hst].
      apply lookup_seq in Hj as [-> _]. split; [exact Hstep|].
      exact (Forall2_lookup_lr _ _ _ _ _ _ Hsts Hstep Hst). }
    clear -Hdone Htasks. induction Hdone as [|t y order done [E1 E2] _ IH]; [constructor|].
    apply Forall_cons in Htasks as [[Ht1 Ht2] Htasks].
    constructor; [|apply IH, Htasks].
    exists (fst (snd t)). rewrite E1, E2, Ht2. split; [exact Ht1 | apply raises_absorb]. }
  apply Forall2_same_length_lookup_2.
  - rewrite length_map, <- (length_map fst), Hsorted, length_seq. reflexivity.
  - intros i step res Hstep Hres.
    rewrite list_lookup_fmap in Hres.
    destruct (sort_by fst done !! i) as [y|] eqn:Hy; [|discriminate].
    injection Hres as <-.
    assert (Hi : fst y = i).
    { assert (H : map fst (sort_by fst done) !! i = Some (fst y))
        by (rewrite list_lookup_fmap, Hy; reflexivity).
      rewrite Hsorted in H. apply lookup_seq in H as [H _]. simpl in H. congruence. }
    rewrite Forall_lookup in Hgood. destruct (Hgood i y Hy) as (step' & Hs' & He).
    rewrite Hi, Hstep in Hs'. injection Hs' as <-. exact He.
Qed.

Lemma wp_gather parent_node_id group w :
  inv sid b w ->
  wp (gather o k sid parent_node_id group) w
     (fun r w' => exists results,
          r = inr results
          /\ Forall2 (fun step res => is_exc res = raises k b step) group results
          /\ inv sid b w').
Proof.
  intros Hw. unfold gather. apply wp_bind. unfold wp at 1. simpl.
  apply wp_bind.
  eapply wp_mono;
    [|apply (wp_mapM sid b _ (fun step st => is_raised st = raises k b step)); [|exact Hw]].
  2:{ intros step w0 Hw0. eapply wp_mono; [|apply wp_start_step; exact Hw0].
      simpl. intros r w' (st & -> & Hst & Hw'). eauto. }
  simpl. intros r w1 (sts & -> & Hsts & Hw1).
  apply wp_bind.
  eapply wp_mono;
    [|apply (wp_mapM sid b _
               (fun (t : nat * (OrchestrationStep.t * started)) (y : nat * result) =>
                  fst y = fst t /\ is_exc (snd y) = is_raised (snd (snd t)) || negb b));
      [|exact Hw1]].
  2:{ intros t w0 Hw0. apply wp_bind.
      eapply wp_mono; [|apply wp_finish_step; exact Hw0].
      simpl. intros r w' (res & -> & Hres & Hw'). apply wp_ret.
      eexists. split; [reflexivity|]. split; [split; [reflexivity | exact Hres] | exact Hw']. }
  simpl. intros r w2 (done & -> & Hdone & Hw2).
  apply wp_ret. eexists. split; [reflexivity|]. split; [|exact Hw2].
  eapply gather_results; [exact Hsts | apply sort_by_perm | exact Hdone].
Qed.

(** "Process results": every step of the group gets its status. *)
Lemma process_results group (results : list result) :
  Forall2 (fun step res => is_exc res = raises k b step) group results ->
  forall deliverables total_cost settled,
  exists deliverables' total_cost',
    fold_left process_result (combine group results) (deliverables, total_cost, settled)
    = (deliverables', total_cost',
       (settled ++ map (fun step =>
                          OrchestrationStep.set_status
                            (if raises k b step then FAILED else COMPLETED) step)
                     group)%list).
Proof.
  induction 1 as [|step res group results Hres _ IH]; intros deliverables total_cost settled.
  - simpl. rewrite app_nil_r. eauto.
  - simpl. rewrite <- Hres.
    destruct res as [e|[response cost]]; simpl;
      edestruct IH as (d' & c' & ->); rewrite <- app_assoc; eauto.
Qed.

Lemma wp_run_group plan_node_id deliverables total_cost settled group w :
  inv sid b w ->
  wp (run_group o k sid plan_node_id (deliverables, total_cost, settled) group) w
     (fun r w' => exists deliverables' total_cost',
          r = inr (deliverables', total_cost', (settled ++ map (settle k b) group)%list)
          /\ inv sid b w').
Proof.
  intros Hw. unfold run_group. apply wp_bind.
  eapply wp_mono; [|apply wp_gather; exact Hw].
  simpl. intros r w1 (results & -> & Hres & Hw1). apply wp_ret.
  destruct (process_results group results Hres deliverables total_cost settled)
    as (d' & c' & ->).
  eauto.
Qed.

Lemma wp_run_groups plan_node_id groups :
  forall deliverables total_cost settled w,
    inv sid b w ->
    wp (run_groups o k sid plan_node_id (deliverables, total_cost, settled) groups) w
       (fun r w' => exists deliverables' total_cost',
            r = inr (deliverables', total_cost',
                     (settled ++ map (settle k b) (concat groups))%list)
            /\ inv sid b w').
Proof.
  induction groups as [|group groups IH]; intros deliverables total_cost settled w Hw; simpl.
  - apply wp_ret. rewrite app_nil_r. eauto.
  - apply wp_bind. eapply wp_mono; [|apply wp_run_group; exact Hw].
    simpl. intros r w1 (d1 & c1 & -> & Hw1).
    eapply wp_mono; [|apply IH; exact Hw1].
    simpl. intros r w2 (d2 & c2 & -> & Hw2).
    rewrite map_app, app_assoc. eauto.
Qed.

End Gather.

(** The groups are the steps of the plan, cut into runs. *)
Lemma concat_flush groups current_group :
  concat (flush groups current_group) = (concat groups ++ current_group)%list.
Proof.
  destruct current_group as [|step rest]; simpl.
  - rewrite app_nil_r. reflexivity.
  - rewrite concat_app. simpl. rewrite app_nil_r. reflexivity.
Qed.

Lemma concat_sequential_groups steps : concat (sequential_groups steps) = steps.
Proof.
  unfold sequential_groups.
  assert (H : forall groups current_group current_parallel_id,
             let '(groups', current_group', _) :=
               fold_left group_step steps (groups, current_group, current_parallel_id) in
             concat (flush groups' current_group')
             = (concat (flush groups current_group) ++ steps)%list).
  { induction steps as [|step steps IH]; intros groups current_group current_parallel_id.
    - simpl. rewrite app_nil_r. reflexivity.
    - simpl. destruct (decide (OrchestrationStep.parallel_group step = current_parallel_id)).
      + specialize (IH groups (current_group ++ [step])%list current_parallel_id).
        destruct (fold_left group_step steps _) as [[groups' current_group'] ?].
        rewrite IH, !concat_flush, <- !app_assoc. reflexivity.
      + specialize (IH (flush groups current_group) [step]
                      (OrchestrationStep.parallel_group step)).
        destruct (fold_left group_step steps _) as [[groups' current_group'] ?].
        rewrite IH. rewrite (concat_flush (flush groups current_group) [step]).
        rewrite <- app_assoc. reflexivity. }
  specialize (H [] [] None).
  destruct (fold_left group_step steps _) as [[groups' current_group'] ?].
  exact H.
Qed.


(** *** Validation *)

Section Validation.
Local Opaque _compute_hash.

(** C3, as amended.  When the plan made for the parsed intent fails
    validation, for whichever of the three reasons, [execute_async] returns a
    [FAILED] result carrying the message of the validation.  By then the run
    has created its session and recorded the intent: the chain of the session
    holds the genesis and the intent node and nothing else, no request has
    gone on the wire, and the chains of the other sessions are as they
    were. *)
Theorem validation_failure_after_intent o k generate intent budget constraints mode w
  parsed error :
  parse_intent intent budget constraints mode = inr parsed ->
  validate_plan (registry k) (generate (registry k) parsed) = (false, error) ->
  exists result w',
    execute_async_with o k generate intent budget constraints mode w = (inr result, w')
    /\ ExecutionResult.status result = FAILED
    /\ ExecutionResult.error result = error
    /\ ExecutionResult.intent result = parsed
    /\ ExecutionResult.session_id result = uuid4 o (draws w)
    /\ map node_type (nodes (ExecutionResult.provenance result)) = ["genesis"; "intent"]
    /\ ledger w' !! ExecutionResult.session_id result = Some (ExecutionResult.provenance result)
    /\ (forall sid', sid' <> ExecutionResult.session_id result ->
          ledger w' !! sid' = ledger w !! sid')
    /\ wire w' = wire w.
Proof.
  intros Hparse Hvalid.
  unfold execute_async_with, create_session_m, create_session, record_intent_m, record_intent,
    _add_node, get_chain_m, get_chain, try_except, bind, draw, on_ledger, ret.
  simpl. rewrite Hparse. simpl. rewrite lookup_insert_eq. simpl. rewrite Hvalid.
  simpl. rewrite lookup_insert_eq. simpl.
  do 2 eexists. split; [reflexivity|]. simpl.
  split; [reflexivity|]. split; [reflexivity|]. split; [reflexivity|].
  split; [reflexivity|]. split; [reflexivity|].
  split; [apply lookup_insert_eq|]. split; [|reflexivity].
  intros sid' Hne. rewrite !lookup_insert_ne by congruence. reflexivity.
Qed.

End Validation.

(** C3, an instance: the plan costs 5.0 and the budget is 1.0. *)
Lemma validation_failure_after_intent_witness :
  exists result w',
    Scenario.over_budget_run = (inr result, w')
    /\ ExecutionResult.status result = FAILED
    /\ ExecutionResult.error result = Some "Estimated cost $5.00 exceeds budget $1.00"
    /\ map node_type (nodes (ExecutionResult.provenance result)) = ["genesis"; "intent"]
    /\ wire w' = [].
Proof.
  edestruct (validation_failure_after_intent
               (Scenario.outside_of Scenario.always_unavailable) Scenario.kernel1
               generate_plan "Please design a bridge" (Some 1%Q) [] "narrow" Kernel.fresh)
    as (result & w' & E & Hs & He & _ & _ & Hn & _ & _ & Hw).
  - vm_compute. reflexivity.
  - vm_compute. reflexivity.
  - exists result, w'. split; [exact E|]. split; [exact Hs|]. split; [exact He|].
    split; [exact Hn | exact Hw].
Defined.

(** C3, the claim as stated fails: on a fresh kernel, a run whose plan
    exceeds the budget ends [FAILED] and leaves in the ledger a session with
    a genesis and an intent node, recorded before validation. *)
Lemma validation_failure_leaves_nodes :
  ledger Kernel.fresh !! "id-0" = None
  /\ (ExecutionResult.status <$> (match fst Scenario.over_budget_run with
                                  | inr result => Some result | inl _ => None end))
     = Some FAILED
  /\ (map node_type <$> (nodes <$> ledger (snd Scenario.over_budget_run) !! "id-0"))
     = Some ["genesis"; "intent"].
Proof. repeat split; vm_compute; reflexivity. Qed.


(** *** The groups of a plan *)

Lemma fold_group_step_same steps : forall groups current id,
  Forall (fun step => OrchestrationStep.parallel_group step = id) steps ->
  fold_left group_step steps (groups, current, id) = (groups, (current ++ steps)%list, id).
Proof.
  induction steps as [|step steps IH]; intros groups current id H; simpl.
  - rewrite app_nil_r. reflexivity.
  - apply Forall_cons in H as [Hs H].
    destruct (decide (OrchestrationStep.parallel_group step = id)); [|contradiction].
    rewrite IH by exact H. rewrite <- app_assoc. reflexivity.
Qed.

(** X13.  Steps that stand next to each other in a plan and carry the same
    [parallel_group], [None] included, are put into one group and so are
    started together by one [asyncio.gather]: a plan all of whose steps carry
    the same [parallel_group] runs as a single group. *)
Theorem same_parallel_group_is_one_group steps id :
  steps <> [] ->
  Forall (fun step => OrchestrationStep.parallel_group step = id) steps ->
  sequential_groups steps = [steps].
Proof.
  intros Hne H. destruct steps as [|step steps]; [contradiction|].
  apply Forall_cons in H as [Hs H].
  unfold sequential_groups. simpl.
  destruct (decide (OrchestrationStep.parallel_group step = None)) as [E|E].
  - rewrite fold_group_step_same by (rewrite <- E, Hs; exact H). reflexivity.
  - rewrite fold_group_step_same by (rewrite Hs; exact H). reflexivity.
Qed.

(** X13, an instance: two steps without [parallel_group]. *)
Lemma same_parallel_group_is_one_group_witness :
  sequential_groups [Scenario.design_step; Scenario.design_step]
  = [[Scenario.design_step; Scenario.design_step]].
Proof.
  apply (same_parallel_group_is_one_group [Scenario.design_step; Scenario.design_step] None).
  - discriminate.
  - repeat constructor.
Defined.

Lemma groups_snoc (groups : list (list OrchestrationStep.t)) group id :
  (forall g, In g groups ->
     g <> [] /\ exists p, forall s, In s g -> OrchestrationStep.parallel_group s = p) ->
  (forall (i : nat) g g' s s', groups !! i = Some g -> groups !! S i = Some g' ->
     In s g -> In s' g' ->
     OrchestrationStep.parallel_group s <> OrchestrationStep.parallel_group s') ->
  group <> [] ->
  (forall s, In s group -> OrchestrationStep.parallel_group s = id) ->
  (forall g s, last groups = Some g -> In s g -> OrchestrationStep.parallel_group s <> id) ->
  (forall g, In g (groups ++ [group])%list ->
     g <> [] /\ exists p, forall s, In s g -> OrchestrationStep.parallel_group s = p)
  /\ (forall (i : nat) g g' s s', (groups ++ [group])%list !! i = Some g -> (groups ++ [group])%list !! S i = Some g' ->
        In s g -> In s' g' ->
        OrchestrationStep.parallel_group s <> OrchestrationStep.parallel_group s').
Proof.
  intros Hg Hadj Hne Hid Hlast. split.
  - intros g Hin. apply in_app_or in Hin as [Hin|[<-|[]]]; [exact (Hg g Hin)|].
    split; [exact Hne | exists id; exact Hid].
  - intros i g g' s s' Hi Hi' Hs Hs'.
    destruct (decide (S i < length groups)) as [Hlt|Hge].
    + rewrite lookup_app_l in Hi by lia. rewrite lookup_app_l in Hi' by lia.
      exact (Hadj i g g' s s' Hi Hi' Hs Hs').
    + assert (Hi'' := lookup_lt_Some _ _ _ Hi'). rewrite length_app in Hi''. simpl in Hi''.
      assert (E : S i = length groups) by lia.
      rewrite lookup_app_l in Hi by lia.
      rewrite lookup_app_r in Hi' by lia. rewrite E, Nat.sub_diag in Hi'. injection Hi' as <-.
      rewrite (Hid s' Hs'). apply (Hlast g s); [|exact Hs].
      rewrite last_lookup. rewrite <- E. exact Hi.
Qed.

Lemma fold_group_step_runs steps : forall groups current id,
  (forall g, In g groups ->
     g <> [] /\ exists p, forall s, In s g -> OrchestrationStep.parallel_group s = p) ->
  (forall (i : nat) g g' s s', groups !! i = Some g -> groups !! S i = Some g' ->
     In s g -> In s' g' ->
     OrchestrationStep.parallel_group s <> OrchestrationStep.parallel_group s') ->
  (forall s, In s current -> OrchestrationStep.parallel_group s = id) ->
  (forall g s, last groups = Some g -> In s g -> OrchestrationStep.parallel_group s <> id) ->
  (current = [] -> groups = []) ->
  let '(groups', current', _) := fold_left group_step steps (groups, current, id) in
  (forall g, In g (flush groups' current') ->
     g <> [] /\ exists p, forall s, In s g -> OrchestrationStep.parallel_group s = p)
  /\ (forall (i : nat) g g' s s', flush groups' current' !! i = Some g ->
        flush groups' current' !! S i = Some g' -> In s g -> In s' g' ->
        OrchestrationStep.parallel_group s <> OrchestrationStep.parallel_group s').
Proof.
  induction steps as [|step steps IH]; intros groups current id Hg Hadj Hid Hlast Hnil.
  - simpl. destruct current as [|s current].
    + rewrite (Hnil eq_refl). simpl. split; [intros g [] | intros i g g' s s' H; discriminate].
    + apply (groups_snoc groups (s :: current) id); try assumption. discriminate.
  - simpl. destruct (decide (OrchestrationStep.parallel_group step = id)) as [E|E].
    + apply IH; try assumption.
      * intros s Hs. apply in_app_or in Hs as [Hs|[<-|[]]]; [exact (Hid s Hs) | exact E].
      * intros H. apply app_eq_nil in H as [_ H]. discriminate.
    + destruct current as [|s current].
      * rewrite (Hnil eq_refl). simpl. apply IH.
        -- intros g [].
        -- intros i g g' s s' H. discriminate.
        -- intros s [<-|[]]. reflexivity.
        -- intros g s H. discriminate.
        -- discriminate.
      * destruct (groups_snoc groups (s :: current) id Hg Hadj ltac:(discriminate) Hid Hlast)
          as [Hg' Hadj'].
        simpl flush. apply IH.
        -- exact Hg'.
        -- exact Hadj'.
        -- intros s0 [<-|[]]. reflexivity.
        -- intros g s0 H Hs0. rewrite last_snoc in H. injection H as <-.
           rewrite (Hid s0 Hs0). congruence.
        -- discriminate.
Qed.

(** X14.  [_execute_plan] cuts the steps of a plan, in their order, into
    groups: put end to end the groups are the steps of the plan; no group is
    empty; the steps of a group all carry the same [parallel_group]; and the
    steps of two consecutive groups carry different ones.  So steps with
    the same [parallel_group] that do not stand together end in different
    groups. *)
Theorem sequential_groups_are_runs steps :
  let groups := sequential_groups steps in
  concat groups = steps
  /\ (forall g, In g groups ->
        g <> [] /\ exists p, forall s, In s g -> OrchestrationStep.parallel_group s = p)
  /\ (forall (i : nat) g g' s s', groups !! i = Some g -> groups !! S i = Some g' ->
        In s g -> In s' g' ->
        OrchestrationStep.parallel_group s <> OrchestrationStep.parallel_group s').
Proof.
  intros groups. split; [apply concat_sequential_groups|].
  unfold groups, sequential_groups.
  pose proof (fold_group_step_runs steps [] [] None) as H.
  destruct (fold_left group_step steps ([], [], None)) as [[groups' current'] id'].
  apply H.
  - intros g [].
  - intros i g g' s s' Hi. discriminate.
  - intros s [].
  - intros g s Hl. discriminate.
  - reflexivity.
Qed.

(** *** A whole run *)

Section Runs.
Local Opaque _compute_hash.

Lemma wp_create_session o w :
  wp (create_session_m o) w
     (fun r w' => r = inr (uuid4 o (draws w)) /\ inv (uuid4 o (draws w)) true w').
Proof.
  unfold wp, create_session_m, create_session, bind, draw, on_ledger, inv, tracked. simpl.
  split; [reflexivity|]. rewrite lookup_insert_eq. reflexivity.
Qed.

Lemma wp_get_chain sid w :
  inv sid true w ->
  wp (get_chain_m sid) w
     (fun r w' => exists chain, r = inr chain /\ w' = w /\ ledger w !! sid = Some chain).
Proof.
  unfold wp, get_chain_m, get_chain, inv, tracked.
  destruct (ledger w !! sid) as [chain|]; [|discriminate]. intros _. simpl. eauto.
Qed.

Lemma inv_next sid b w : inv sid b w -> inv sid b (next w).
Proof. exact (fun H => H). Qed.

(** X15.  [execute_async] never raises: whatever the request, the
    registry, the ledger and the targets, it returns a result for the
    session it has created, carrying that session's chain as the ledger
    holds it at the end.  The result is [FAILED], with the text of the
    exception as its error and an intent of domain ["unknown"], when
    [parse_intent] raises; [FAILED] with the message of [validate_plan] when
    the plan is refused; and [COMPLETED] without error in every other case,
    whatever became of the steps. *)
Theorem execute_async_always_returns o k generate intent budget constraints mode w :
  exists result w',
    execute_async_with o k generate intent budget constraints mode w = (inr result, w')
    /\ ExecutionResult.session_id result = uuid4 o (draws w)
    /\ ledger w' !! ExecutionResult.session_id result
       = Some (ExecutionResult.provenance result)
    /\ match parse_intent intent budget constraints mode with
       | inl e =>
           ExecutionResult.status result = FAILED
           /\ ExecutionResult.error result = Some (str_exn e)
           /\ UserIntent.raw_input (ExecutionResult.intent result) = intent
           /\ UserIntent.domain (ExecutionResult.intent result) = "unknown"
       | inr parsed =>
           ExecutionResult.intent result = parsed
           /\ match validate_plan (registry k) (generate (registry k) parsed) with
              | (false, error) =>
                  ExecutionResult.status result = FAILED
                  /\ ExecutionResult.error result = error
              | (true, _) =>
                  ExecutionResult.status result = COMPLETED
                  /\ ExecutionResult.error result = None
              end
       end.
Proof.
  set (sid := uuid4 o (draws w)).
  assert (H : wp (execute_async_with o k generate intent budget constraints mode) w
                (fun r w' => exists result,
                     r = inr result
                     /\ ExecutionResult.session_id result = sid
                     /\ ledger w' !! sid = Some (ExecutionResult.provenance result)
                     /\ match parse_intent intent budget constraints mode with
                        | inl e =>
                            ExecutionResult.status result = FAILED
                            /\ ExecutionResult.error result = Some (str_exn e)
                            /\ UserIntent.raw_input (ExecutionResult.intent result) = intent
                            /\ UserIntent.domain (ExecutionResult.intent result) = "unknown"
                        | inr parsed =>
                            ExecutionResult.intent result = parsed
                            /\ match validate_plan (registry k) (generate (registry k) parsed) with
                               | (false, error) =>
                                   ExecutionResult.status result = FAILED
                                   /\ ExecutionResult.error result = error
                               | (true, _) =>
                                   ExecutionResult.status result = COMPLETED
                                   /\ ExecutionResult.error result = None
                               end
                        end)).
  { unfold execute_async_with. apply wp_bind.
    eapply wp_mono; [|apply wp_create_session]. fold sid.
    simpl. intros r w1 [-> Hw1]. apply wp_bind, wp_draw.
    apply inv_next in Hw1. revert Hw1. generalize (next w1). generalize (loop_time o (draws w1)).
    intros start_time w2 Hw2.
    destruct (parse_intent intent budget constraints mode) as [e|parsed].
    - unfold on_exception. apply wp_bind, wp_draw, wp_bind.
      eapply wp_mono; [|apply wp_get_chain, inv_next, Hw2].
      simpl. intros r w3 (chain & -> & -> & Hchain).
      apply wp_bind. unfold wp at 1. simpl. apply wp_ret.
      eexists. split; [reflexivity|]. simpl. repeat split; try reflexivity; assumption.
    - apply wp_try. apply wp_bind.
      eapply wp_mono; [|apply (wp_record o sid true "intent"); exact Hw2].
      simpl. intros [e|intent_node_id] w3 [Hr Hw3]; [discriminate|].
      destruct (validate_plan (registry k) (generate (registry k) parsed)) as [[|] error].
      + apply wp_bind.
        eapply wp_mono; [|apply (wp_record o sid true "plan"); exact Hw3].
        simpl. intros [e|plan_node_id] w4 [Hr' Hw4]; [discriminate|].
        apply wp_bind. unfold _execute_plan.
        eapply wp_mono; [|apply (wp_run_groups o k sid true); exact Hw4].
        simpl. intros r w5 (deliverables & total_cost & -> & Hw5).
        apply wp_bind, wp_draw, wp_bind.
        eapply wp_mono; [|apply wp_get_chain, inv_next, Hw5].
        simpl. intros r w6 (chain & -> & -> & Hchain). apply wp_ret.
        eexists. split; [reflexivity|]. simpl. repeat split; try reflexivity; assumption.
      + apply wp_bind.
        eapply wp_mono; [|apply wp_get_chain, Hw3].
        simpl. intros r w4 (chain & -> & -> & Hchain). apply wp_ret.
        eexists. split; [reflexivity|]. simpl. repeat split; try reflexivity; assumption. }
  apply wp_run in H as (r & w' & E & result & -> & Hsid & Hchain & Hrest).
  exists result, w'. rewrite Hsid. auto.
Qed.

End Runs.

(** *** What a run keeps *)

Section Keeps.
Variable I : World -> Prop.

Lemma keeps_ret {A} (a : A) : keeps I (ret a).
Proof. intros w Hw. exact Hw. Qed.

Lemma keeps_bind {A B} (m : M A) (f : A -> M B) :
  keeps I m -> (forall a, keeps I (f a)) -> keeps I (bind m f).
Proof.
  intros Hm Hf w Hw. apply wp_bind. eapply wp_mono; [|apply Hm, Hw].
  simpl. intros [e|a] w' Hw'; [exact Hw' | apply Hf, Hw'].
Qed.

Lemma keeps_try {A} (m : M A) (h : exn -> M A) :
  keeps I m -> (forall e, keeps I (h e)) -> keeps I (try_except m h).
Proof.
  intros Hm Hh w Hw. apply wp_try. eapply wp_mono; [|apply Hm, Hw].
  simpl. intros [e|a] w' Hw'; [apply Hh, Hw' | exact Hw'].
Qed.

Lemma keeps_mapM {A B} (f : A -> M B) l : (forall a, keeps I (f a)) -> keeps I (mapM f l).
Proof.
  intros Hf. induction l as [|a l IH]; simpl; [apply keeps_ret|].
  apply keeps_bind; [apply Hf|]. intros b.
  apply keeps_bind; [exact IH|]. intros bs. apply keeps_ret.
Qed.

Hypothesis I_next : forall w, I w -> I (next w).
Hypothesis I_wire : forall w request_id evs, I w -> I (snd (log_wire request_id evs w)).
Hypothesis I_step : forall w uuid now sid step parent_id,
  I w -> I (snd (on_ledger (record_step uuid now sid (step_data step) parent_id) w)).
Hypothesis I_result : forall w uuid now sid step response parent_id,
  I w -> I (snd (on_ledger (record_result uuid now sid (result_data step response) parent_id) w)).

Lemma keeps_draw {A} o (f : Outside -> nat -> A) : keeps I (draw o f).
Proof. intros w Hw. apply I_next, Hw. Qed.

Lemma keeps_start_step o k sid parent_node_id step :
  keeps I (start_step o k sid parent_node_id step).
Proof.
  unfold start_step. destruct (get_server _ _); [|apply keeps_ret].
  apply keeps_try; [|intros e; apply keeps_ret].
  apply keeps_bind.
  - unfold record_step_m. apply keeps_bind; [apply keeps_draw|]. intros uuid.
    apply keeps_bind; [apply keeps_draw|]. intros now w Hw. apply I_step, Hw.
  - intros nid. apply keeps_bind; [apply keeps_draw|]. intros rid. apply keeps_ret.
Qed.

Lemma keeps_finish_step o k sid step st : keeps I (finish_step o k sid step st).
Proof.
  unfold finish_step. destruct st as [e|server step_node_id request_id]; [apply keeps_ret|].
  destruct (Protocol.send_request _ _ _ _ _ _ _) as [response evs].
  apply keeps_try; [|intros e; apply keeps_ret].
  apply keeps_bind; [intros w Hw; apply I_wire, Hw|]. intros _.
  apply keeps_bind; [|intros nid; apply keeps_ret].
  unfold record_result_m. apply keeps_bind; [apply keeps_draw|]. intros uuid.
  apply keeps_bind; [apply keeps_draw|]. intros now w Hw. apply I_result, Hw.
Qed.

Lemma keeps_execute_plan o k sid plan plan_node_id :
  keeps I (_execute_plan o k sid plan plan_node_id).
Proof.
  unfold _execute_plan. generalize (([], 0%Q, []) : run_state).
  induction (sequential_groups (OrchestrationPlan.steps plan)) as [|group groups IH];
    intros acc; simpl; [apply keeps_ret|].
  apply keeps_bind; [|exact IH].
  unfold run_group. apply keeps_bind; [|intros results; apply keeps_ret].
  unfold gather. apply keeps_bind; [intros w Hw; exact Hw|]. intros base.
  apply keeps_bind; [apply keeps_mapM; intros step; apply keeps_start_step|]. intros sts.
  apply keeps_bind; [|intros done; apply keeps_ret].
  apply keeps_mapM. intros t.
  apply keeps_bind; [apply keeps_finish_step | intros r; apply keeps_ret].
Qed.

End Keeps.

Section Costs.
Local Opaque _compute_hash.

Lemma Qsum_snoc l q : (Qsum (l ++ [q]) == Qsum l + q)%Q.
Proof. unfold Qsum. rewrite fold_left_app. simpl. reflexivity. Qed.

(** Appending a node that is no step, or a step without [cost] entry,
    changes the cost of no session. *)
Lemma cost_after_add_node uuid now sid ntype d parent_id (cs : chains) sid' :
  ntype <> "step" \/ dict_get "cost" d = None ->
  (compute_session_cost sid' (snd (_add_node uuid now sid ntype d parent_id cs))
   == compute_session_cost sid' cs)%Q.
Proof.
  intros Hfree. unfold _add_node.
  destruct (cs !! sid) as [chain|] eqn:E; simpl; [|reflexivity].
  unfold compute_session_cost.
  destruct (decide (sid' = sid)) as [->|Hne].
  - rewrite lookup_insert_eq, E. unfold set_nodes. cbn [nodes].
    rewrite map_app. cbn [map]. rewrite Qsum_snoc.
    match goal with |- (_ + cost_entry ?n == _)%Q => assert (Hz : cost_entry n = 0%Q) end.
    { unfold cost_entry, set_hash. cbn [node_type data].
      destruct Hfree as [Ht|Hd].
      - apply String.eqb_neq in Ht. rewrite Ht. reflexivity.
      - rewrite Hd. destruct (String.eqb ntype "step"); reflexivity. }
    rewrite Hz. apply Qplus_0_r.
  - rewrite lookup_insert_ne by congruence. reflexivity.
Qed.

(** X16.  [_execute_plan] changes what [compute_session_cost] returns for
    no session, whatever the responses cost: the cost of a response is
    written into its result node, and [compute_session_cost] adds up the
    [cost] entries of step nodes, which the kernel writes without one.  So
    after [execute_async] the cost that the ledger computes for the session
    of the run is 0. *)
Theorem execute_plan_leaves_session_cost o k :
  (forall sid plan plan_node_id w sid',
     (compute_session_cost sid' (ledger (snd (_execute_plan o k sid plan plan_node_id w)))
      == compute_session_cost sid' (ledger w))%Q)
  /\ (forall generate intent budget constraints mode w,
        (compute_session_cost (uuid4 o (draws w))
           (ledger (snd (execute_async_with o k generate intent budget constraints mode w)))
         == 0)%Q).
Proof.
  assert (Hkeep : forall (c : Q) sid', let I := fun w => (compute_session_cost sid' (ledger w) == c)%Q in
            (forall w, I w -> I (next w))
            /\ (forall w request_id evs, I w -> I (snd (log_wire request_id evs w)))
            /\ (forall w uuid now sid ntype d parent_id,
                  ntype <> "step" \/ dict_get "cost" d = None ->
                  I w -> I (snd (on_ledger (_add_node uuid now sid ntype d parent_id) w)))).
  { intros c sid' I. split; [intros w Hw; exact Hw|]. split; [intros w rid evs Hw; exact Hw|].
    intros w uuid now sid ntype d parent_id Hfree Hw. unfold I in *.
    rewrite <- Hw. unfold on_ledger.
    pose proof (cost_after_add_node uuid now sid ntype d parent_id (ledger w) sid' Hfree) as H.
    destruct (_add_node uuid now sid ntype d parent_id (ledger w)) as [r cs]. exact H. }
  assert (Hplan : forall c sid' sid plan plan_node_id,
            keeps (fun w => (compute_session_cost sid' (ledger w) == c)%Q)
              (_execute_plan o k sid plan plan_node_id)).
  { intros c sid' sid plan plan_node_id.
    destruct (Hkeep c sid') as (Hn & Hw & Ha).
    apply keeps_execute_plan; [exact Hn | exact Hw | |].
    - intros w uuid now sid0 step parent_id. apply Ha. right. reflexivity.
    - intros w uuid now sid0 step response parent_id. apply Ha. left. discriminate. }
  split.
  - intros sid plan plan_node_id w sid'.
    exact (Hplan (compute_session_cost sid' (ledger w)) sid' sid plan plan_node_id w
             ltac:(reflexivity)).
  - intros generate intent budget constraints mode w.
    set (sid := uuid4 o (draws w)).
    destruct (Hkeep 0%Q sid) as (Hn & Hw & Ha).
    set (I := fun w => (compute_session_cost sid (ledger w) == 0)%Q) in *.
    assert (Hdraw : forall A (f : Outside -> nat -> A), keeps I (draw o f)).
    { intros A f w0 Hw0. apply Hn, Hw0. }
    assert (Hchain : forall s, keeps I (get_chain_m s)).
    { intros s w0 Hw0. unfold wp, get_chain_m. destruct (get_chain s (ledger w0)); exact Hw0. }
    assert (Hrec : forall s ntype d parent_id, ntype <> "step" ->
              keeps I (let* uuid := draw o uuid4 in
                       let* now := draw o utcnow in
                       on_ledger (_add_node uuid now s ntype d parent_id))).
    { intros s ntype d parent_id Ht.
      apply keeps_bind; [apply Hdraw|]. intros uuid.
      apply keeps_bind; [apply Hdraw|]. intros now w0 Hw0. apply Ha; [left; exact Ht | exact Hw0]. }
    assert (Hexc : forall s i t p e, keeps I (on_exception o s i t p e)).
    { intros s i t p e. unfold on_exception.
      apply keeps_bind; [apply Hdraw|]. intros end_time.
      apply keeps_bind; [apply Hchain|]. intros chain.
      apply keeps_bind; [intros w0 Hw0; exact Hw0|]. intros cs. apply keeps_ret. }
    assert (Hrun : wp (execute_async_with o k generate intent budget constraints mode) w
                     (fun _ w' => I w')).
    { unfold execute_async_with. apply wp_bind.
      assert (Hcreate : wp (create_session_m o) w
                          (fun r w' => r = inr sid /\ I w')).
      { unfold wp, create_session_m, create_session, bind, draw, on_ledger, I,
          compute_session_cost. simpl. split; [reflexivity|].
        rewrite lookup_insert_eq. reflexivity. }
      eapply wp_mono; [|exact Hcreate]. simpl. intros r w1 [-> Hw1].
      apply (fun H : keeps I _ => H w1 Hw1).
      apply keeps_bind; [apply Hdraw|]. intros start_time.
      destruct (parse_intent intent budget constraints mode) as [e|parsed]; [apply Hexc|].
      apply keeps_try; [|apply Hexc].
      apply keeps_bind; [apply Hrec; discriminate|]. intros intent_node_id.
      cbv zeta.
      destruct (validate_plan (registry k) (generate (registry k) parsed)) as [[|] error].
      - apply keeps_bind; [apply Hrec; discriminate|]. intros plan_node_id.
        apply keeps_bind; [apply Hplan|]. intros [[deliverables total_cost] settled].
        apply keeps_bind; [apply Hdraw|]. intros end_time.
        apply keeps_bind; [apply Hchain|]. intros chain. apply keeps_ret.
      - apply keeps_bind; [apply Hchain|]. intros chain. apply keeps_ret. }
    exact Hrun.
Qed.

End Costs.

(** *** The chain of a run *)

Section Sound.
Local Opaque _compute_hash.
Variable o : Outside.
Variable k : AetherMCP.
Variable sid : string.

Lemma grows_same w w' : sound sid w -> ledger w' = ledger w -> grows sid w w'.
Proof.
  intros (chain & H1 & H2 & H3 & H4) E. split.
  - exists chain. rewrite E. auto.
  - intros p (c & Hc & Hp). exists c. rewrite E. auto.
Qed.

Lemma grows_trans w w' w'' : grows sid w w' -> grows sid w' w'' -> grows sid w w''.
Proof. intros [_ H] [Hs H']. split; [exact Hs|]. intros p Hp. apply H', H, Hp. Qed.

Lemma wp_record_grows ntype d parent_id w :
  sound sid w -> holds sid parent_id w ->
  wp (let* uuid := draw o uuid4 in
      let* now := draw o utcnow in
      on_ledger (_add_node uuid now sid ntype d parent_id)) w
     (fun r w' => exists nid, r = inr nid /\ grows sid w w' /\ holds sid nid w').
Proof.
  intros (chain & Hc & Hs & Hne & Hv) (chain' & Hc' & Hp).
  rewrite Hc in Hc'. injection Hc' as <-.
  unfold wp, bind, draw, on_ledger, _add_node. simpl. rewrite Hc. simpl.
  eexists. split; [reflexivity|]. split; [split|].
  - eexists. split; [apply lookup_insert_eq|]. split; [exact Hs|]. split.
    + simpl. intros E. apply app_eq_nil in E as [_ E]. discriminate.
    + apply ProvenanceFacts.verify_chain_append; try assumption; [reflexivity|].
      simpl. rewrite Hp. reflexivity.
  - intros p (c & Hcp & Hpp). simpl in Hcp. rewrite Hc in Hcp. injection Hcp as <-.
    eexists. split; [apply lookup_insert_eq|]. simpl. apply ProvenanceFacts.parent_exists_app, Hpp.
  - eexists. split; [apply lookup_insert_eq|]. simpl.
    unfold parent_exists. rewrite existsb_app. simpl. rewrite String.eqb_refl.
    apply orb_true_iff. right. reflexivity.
Qed.

Lemma wp_start_step_grows parent_node_id step w :
  sound sid w -> holds sid parent_node_id w ->
  wp (start_step o k sid parent_node_id step) w
     (fun r w' => exists st, r = inr st /\ grows sid w w'
                             /\ match st with
                                | Waiting _ step_node_id _ => holds sid step_node_id w'
                                | Raised _ => True
                                end).
Proof.
  intros Hs Hp. unfold start_step. destruct (get_server _ _) as [server|].
  - apply wp_try, wp_bind. unfold record_step_m, record_step.
    eapply wp_mono; [|apply wp_record_grows; assumption].
    simpl. intros r w' (nid & -> & Hg & Hn).
    apply wp_bind, wp_draw, wp_ret. eexists. split; [reflexivity|].
    split.
    + apply (grows_trans _ _ _ Hg). apply grows_same; [apply Hg | reflexivity].
    + destruct Hn as (c & Hc & Hn). exists c. auto.
  - apply wp_ret. eexists. split; [reflexivity|]. split; [|exact Logic.I].
    apply grows_same; [exact Hs | reflexivity].
Qed.

Lemma wp_finish_step_grows step st w :
  sound sid w ->
  match st with Waiting _ step_node_id _ => holds sid step_node_id w | Raised _ => True end ->
  wp (finish_step o k sid step st) w (fun r w' => exists res, r = inr res /\ grows sid w w').
Proof.
  intros Hs Hp. unfold finish_step. destruct st as [e|server step_node_id request_id].
  - apply wp_ret. eexists. split; [reflexivity|]. apply grows_same; [exact Hs | reflexivity].
  - destruct (Protocol.send_request _ _ _ _ _ _ _) as [response evs].
    apply wp_try, wp_bind. unfold wp at 1. simpl. apply wp_bind.
    unfold record_result_m, record_result.
    eapply wp_mono; [|apply wp_record_grows].
    + simpl. intros r w' (nid & -> & Hg & _). apply wp_ret. eexists. split; [reflexivity|].
      refine (grows_trans _ _ _ _ Hg). apply grows_same; [exact Hs | reflexivity].
    + destruct Hs as (c & H1 & H2 & H3 & H4). exists c. auto.
    + destruct Hp as (c & H1 & H2). exists c. auto.
Qed.

(** [mapM] over a growing chain. *)
Lemma wp_mapM_grows {A B} (f : A -> M B) (Pre : A -> World -> Prop) (Post : B -> World -> Prop) :
  (forall a w w', Pre a w -> grows sid w w' -> Pre a w') ->
  (forall y w w', Post y w -> grows sid w w' -> Post y w') ->
  (forall a w, sound sid w -> Pre a w ->
     wp (f a) w (fun r w' => exists y, r = inr y /\ grows sid w w' /\ Post y w')) ->
  forall l w, sound sid w -> Forall (fun a => Pre a w) l ->
    wp (mapM f l) w
       (fun r w' => exists ys, r = inr ys /\ grows sid w w' /\ Forall (fun y => Post y w') ys).
Proof.
  intros Hpre Hpost Hf. induction l as [|a l IH]; intros w Hs Hl; simpl.
  - apply wp_ret. exists []. split; [reflexivity|]. split; [|constructor].
    apply grows_same; [exact Hs | reflexivity].
  - apply Forall_cons in Hl as [Ha Hl]. apply wp_bind.
    eapply wp_mono; [|apply Hf; assumption].
    simpl. intros r w1 (y & -> & Hg1 & Hy).
    apply wp_bind. eapply wp_mono; [|apply IH; [apply Hg1|]].
    + simpl. intros r w2 (ys & -> & Hg2 & Hys). apply wp_ret.
      exists (y :: ys). split; [reflexivity|]. split; [exact (grows_trans _ _ _ Hg1 Hg2)|].
      constructor; [exact (Hpost _ _ _ Hy Hg2) | exact Hys].
    + eapply Forall_impl; [exact Hl|]. simpl. intros x Hx. exact (Hpre _ _ _ Hx Hg1).
Qed.

Lemma Forall_combine_snd {A B} (P : B -> Prop) (l1 : list A) (l2 : list B) :
  Forall P l2 -> Forall (fun t => P (snd t)) (combine l1 l2).
Proof.
  intros H. revert l1. induction H as [|y l2 Hy _ IH]; intros [|x l1]; simpl; constructor;
    [exact Hy | apply IH].
Qed.

Lemma wp_gather_grows parent_node_id group w :
  sound sid w -> holds sid parent_node_id w ->
  wp (gather o k sid parent_node_id group) w
     (fun r w' => exists results, r = inr results /\ grows sid w w').
Proof.
  intros Hs Hp. unfold gather. apply wp_bind. unfold wp at 1. simpl. apply wp_bind.
  eapply wp_mono;
    [|apply (wp_mapM_grows (start_step o k sid parent_node_id)
               (fun _ w0 => holds sid parent_node_id w0)
               (fun st w0 => match st with
                             | Waiting _ step_node_id _ => holds sid step_node_id w0
                             | Raised _ => True
                             end))].
  - simpl. intros r w1 (sts & -> & Hg1 & Hsts). apply wp_bind.
    eapply wp_mono;
      [|apply (wp_mapM_grows
                 (fun t : nat * (OrchestrationStep.t * started) =>
                    let* r := finish_step o k sid (fst (snd t)) (snd (snd t)) in ret (fst t, r))
                 (fun t w0 => match snd (snd t) with
                              | Waiting _ step_node_id _ => holds sid step_node_id w0
                              | Raised _ => True
                              end)
                 (fun _ _ => True))].
    + simpl. intros r w2 (done & -> & Hg2 & _). apply wp_ret.
      eexists. split; [reflexivity | exact (grows_trans _ _ _ Hg1 Hg2)].
    + intros t w0 w0' Ht Hg. destruct (snd (snd t)); [exact Logic.I | apply Hg, Ht].
    + auto.
    + intros t w0 Hs0 Ht. apply wp_bind.
      eapply wp_mono; [|apply wp_finish_step_grows; assumption].
      simpl. intros r w' (res & -> & Hg). apply wp_ret. eexists. split; [reflexivity|]. auto.
    + apply Hg1.
    + rewrite sort_by_perm.
      apply (Forall_combine_snd
               (fun p : OrchestrationStep.t * started =>
                  match snd p with
                  | Waiting _ step_node_id _ => holds sid step_node_id w1
                  | Raised _ => True
                  end)).
      apply (Forall_combine_snd
               (fun st : started =>
                  match st with
                  | Waiting _ step_node_id _ => holds sid step_node_id w1
                  | Raised _ => True
                  end)).
      exact Hsts.
  - intros _ w0 w0' H Hg. apply Hg, H.
  - intros st w0 w0' H Hg. destruct st; [exact Logic.I | apply Hg, H].
  - intros step w0 Hs0 Hp0. apply wp_start_step_grows; assumption.
  - exact Hs.
  - apply Forall_forall. intros step _. exact Hp.
Qed.

Lemma wp_run_groups_grows plan_node_id groups :
  forall acc w, sound sid w -> holds sid plan_node_id w ->
    wp (run_groups o k sid plan_node_id acc groups) w
       (fun r w' => exists acc', r = inr acc' /\ grows sid w w').
Proof.
  induction groups as [|group groups IH]; intros acc w Hs Hp; simpl.
  - apply wp_ret. eexists. split; [reflexivity|]. apply grows_same; [exact Hs | reflexivity].
  - apply wp_bind. unfold run_group. apply wp_bind.
    eapply wp_mono; [|apply wp_gather_grows; eassumption].
    simpl. intros r w1 (results & -> & Hg1). apply wp_ret.
    eapply wp_mono; [|apply IH; [apply Hg1 | apply Hg1, Hp]].
    simpl. intros r w2 (acc' & -> & Hg2). eexists. split; [reflexivity|].
    exact (grows_trans _ _ _ Hg1 Hg2).
Qed.

End Sound.

Section Verified.
Local Opaque _compute_hash.

(** X22.  The chain of the session that [execute_async] has run in verifies
    when the call returns, whatever the request, the plan, the targets and
    the order in which the requests of a group finish: [verify_chain] holds
    of the session in the ledger, and the chain handed back in the result
    verifies on its own, so that [import_chain] accepts it. *)
Theorem execute_async_leaves_verified_chain o k generate intent budget constraints mode w :
  let run := execute_async_with o k generate intent budget constraints mode w in
  verify_chain (uuid4 o (draws w)) (ledger (snd run)) = true
  /\ exists result,
       fst run = inr result
       /\ verifies (ExecutionResult.provenance result) = true
       /\ (forall cs, fst (import_chain (inr (ExecutionResult.provenance result)) cs) = true).
Proof.
  intros run. set (sid := uuid4 o (draws w)).
  assert (H : wp (execute_async_with o k generate intent budget constraints mode) w
                (fun r w' => sound sid w'
                             /\ exists result, r = inr result
                                  /\ ledger w' !! sid = Some (ExecutionResult.provenance result))).
  { unfold execute_async_with. apply wp_bind.
    assert (Hcreate : wp (create_session_m o) w
                        (fun r w' => r = inr sid /\ sound sid w'
                                     /\ holds sid (sid +:+ "_genesis") w')).
    { unfold wp, create_session_m, create_session, bind, draw, on_ledger. simpl. fold sid.
      split; [reflexivity|]. split.
      - eexists. split; [apply lookup_insert_eq|]. split; [reflexivity|].
        split; [discriminate|]. cbn [ledger].
        rewrite (ProvenanceFacts.verify_chain_lookup _ _ _ (lookup_insert_eq _ _ _)).
        unfold verify_root, verify_node. simpl.
        rewrite ProvenanceFacts.compute_hash_set_hash, !String.eqb_refl. reflexivity.
      - eexists. split; [apply lookup_insert_eq|]. simpl. rewrite String.eqb_refl. reflexivity. }
    eapply wp_mono; [|exact Hcreate]. simpl. intros r w1 (-> & Hs1 & Hg1).
    apply wp_bind, wp_draw.
    assert (Hs2 : sound sid (next w1)) by (apply (grows_same sid w1); [exact Hs1 | reflexivity]).
    assert (Hg2 : holds sid (sid +:+ "_genesis") (next w1)) by exact Hg1.
    revert Hs2 Hg2. generalize (next w1). generalize (loop_time o (draws w1)).
    intros start_time w2 Hs2 Hg2.
    assert (Hchain : forall w0, sound sid w0 ->
              wp (get_chain_m sid) w0
                 (fun r w' => exists chain, r = inr chain /\ w' = w0
                                            /\ ledger w0 !! sid = Some chain)).
    { intros w0 (c & Hc & _). unfold wp, get_chain_m, get_chain. rewrite Hc. simpl. eauto. }
    destruct (parse_intent intent budget constraints mode) as [e|parsed].
    - unfold on_exception. apply wp_bind, wp_draw, wp_bind.
      eapply wp_mono; [|apply Hchain, (grows_same sid w2); [exact Hs2 | reflexivity]].
      simpl. intros r w3 (chain & -> & -> & Hc).
      apply wp_bind. unfold wp at 1. simpl. apply wp_ret.
      split; [apply (grows_same sid w2); [exact Hs2 | reflexivity]|].
      eexists. split; [reflexivity | exact Hc].
    - apply wp_try. apply wp_bind. unfold record_intent_m, record_intent. simpl parent_or_genesis.
      eapply wp_mono; [|apply wp_record_grows; eassumption].
      simpl. intros r w3 (intent_node_id & -> & Hg3 & Hi3).
      destruct (validate_plan (registry k) (generate (registry k) parsed)) as [[|] error].
      + apply wp_bind. unfold record_plan_m, record_plan.
        eapply wp_mono; [|apply wp_record_grows; [apply Hg3 | exact Hi3]].
        simpl. intros r w4 (plan_node_id & -> & Hg4 & Hp4).
        apply wp_bind. unfold _execute_plan.
        eapply wp_mono; [|apply wp_run_groups_grows; [apply Hg4 | exact Hp4]].
        simpl. intros r w5 ([[deliverables total_cost] settled] & -> & Hg5).
        apply wp_bind, wp_draw, wp_bind.
        eapply wp_mono; [|apply Hchain, (grows_same sid w5); [apply Hg5 | reflexivity]].
        simpl. intros r w6 (chain & -> & -> & Hc). apply wp_ret.
        split; [apply (grows_same sid w5); [apply Hg5 | reflexivity]|].
        eexists. split; [reflexivity | exact Hc].
      + apply wp_bind.
        eapply wp_mono; [|apply Hchain, Hg3].
        simpl. intros r w4 (chain & -> & -> & Hc). apply wp_ret.
        split; [apply Hg3|]. eexists. split; [reflexivity | exact Hc]. }
  unfold wp in H. fold run in H. destruct H as ((chain & Hc & Hsid & _ & Hv) & result & Hr & Hp).
  split; [exact Hv|]. exists result. split; [exact Hr|].
  rewrite Hc in Hp. injection Hp as <-.
  assert (Hver : verifies chain = true).
  { rewrite <- (ProvenanceFacts.verify_chain_alone sid (ledger (snd run)) chain Hsid).
    rewrite (insert_id _ _ _ Hc). exact Hv. }
  split; [exact Hver|].
  intros cs. unfold import_chain. rewrite (ProvenanceFacts.verify_chain_alone _ _ _ eq_refl), Hver. reflexivity.
Qed.

End Verified.

(** *** The deliverables of a run *)


Section Deliverables.
Variable o : Outside.
Variable k : AetherMCP.
Variable sid : string.
Variable b : bool.



End Deliverables.


(** *** The requests of a run *)

Section Requests.
Variable o : Outside.
Variable k : AetherMCP.
Variable sid : string.
Variable b : bool.
Variable w0 : World.










End Requests.


End KernelFacts.
(** ** Float arithmetic *)

Module FloatFacts.
Import Float.
Local Open Scope R_scope.

Lemma pow2_pos e : 0 < pow2 e.
Proof. apply powerRZ_lt. lra. Qed.

Lemma pow2_add a b : pow2 (a + b) = pow2 a * pow2 b.
Proof. apply powerRZ_add. lra. Qed.

Lemma pow2_opp a : pow2 (- a) = / pow2 a.
Proof. apply powerRZ_neg'. Qed.

Lemma pow2_cancel a : pow2 (- a) * pow2 a = 1.
Proof. rewrite pow2_opp. apply Rinv_l. pose proof (pow2_pos a). lra. Qed.

Lemma pow2_IZR k : (0 <= k)%Z -> pow2 k = IZR (2 ^ k).
Proof.
  intros H. unfold pow2. destruct k as [|p|p]; [reflexivity| |lia].
  rewrite <- Zpower_pos_powerRZ. reflexivity.
Qed.

Lemma pow2_ge_1 k : (0 <= k)%Z -> 1 <= pow2 k.
Proof.
  intros H. rewrite (pow2_IZR k H). apply IZR_le.
  pose proof (Z.pow_pos_nonneg 2 k). lia.
Qed.

Lemma pow2_le a b : (a <= b)%Z -> pow2 a <= pow2 b.
Proof.
  intros H. replace b with (a + (b - a))%Z by lia. rewrite pow2_add.
  pose proof (pow2_pos a). pose proof (pow2_ge_1 (b - a) ltac:(lia)). nra.
Qed.

Lemma pow2_lt a b : (a < b)%Z -> pow2 a < pow2 b.
Proof.
  intros H. replace b with (a + (b - a))%Z by lia. rewrite pow2_add.
  pose proof (pow2_pos a).
  assert (2 <= pow2 (b - a)).
  { rewrite pow2_IZR by lia. apply IZR_le.
    change 2%Z with (2 ^ 1)%Z at 1. apply Z.pow_le_mono_r; lia. }
  nra.
Qed.

Lemma ln_pow2 e : ln (pow2 e) = IZR e * ln 2.
Proof. unfold pow2. rewrite powerRZ_Rpower by lra. apply ln_Rpower. Qed.

Lemma ln2_pos : 0 < ln 2.
Proof. pose proof ln_lt_2. lra. Qed.

Lemma mag_spec x : x <> 0 -> pow2 (mag x) <= Rabs x < pow2 (mag x + 1).
Proof.
  intros Hx. assert (Ha : 0 < Rabs x) by (apply Rabs_pos_lt, Hx).
  unfold mag. set (L := ln (Rabs x) / ln 2).
  destruct (base_Int_part L) as [H1 H2]. pose proof ln2_pos as H0.
  assert (HL : ln (Rabs x) = L * ln 2) by (unfold L; field; lra).
  split.
  - destruct (Rle_lt_dec (pow2 (Int_part L)) (Rabs x)) as [H|H]; [exact H|].
    apply ln_increasing in H; [|exact Ha]. rewrite ln_pow2, HL in H. nra.
  - apply ln_lt_inv; [exact Ha | apply pow2_pos |].
    rewrite ln_pow2, HL, plus_IZR. nra.
Qed.

Lemma mag_unique x e : pow2 e <= Rabs x < pow2 (e + 1) -> mag x = e.
Proof.
  intros [H1 H2]. pose proof (pow2_pos e) as Hp. pose proof ln2_pos as H0.
  assert (Ha : 0 < Rabs x) by lra.
  unfold mag. symmetry. apply Int_part_spec.
  set (L := ln (Rabs x) / ln 2).
  assert (HL : ln (Rabs x) = L * ln 2) by (unfold L; field; lra).
  assert (A : IZR e * ln 2 <= ln (Rabs x)).
  { rewrite <- ln_pow2. destruct H1 as [H1|H1]; [left; apply ln_increasing; assumption|].
    rewrite H1. right. reflexivity. }
  assert (B : ln (Rabs x) < (IZR e + 1) * ln 2).
  { rewrite <- plus_IZR, <- ln_pow2. apply ln_increasing; assumption. }
  rewrite HL in A, B. split; nra.
Qed.

Lemma Int_part_IZR n : Int_part (IZR n) = n.
Proof. symmetry. apply Int_part_spec. lra. Qed.


Lemma nearest_even_IZR n : nearest_even (IZR n) = n.
Proof.
  unfold nearest_even. rewrite Int_part_IZR.
  destruct (Rlt_dec (IZR n - IZR n) (/ 2)); [reflexivity | lra].
Qed.





Lemma round_0 : round 0 = 0.
Proof.
  unfold round. rewrite Rmult_0_l. change 0 with (IZR 0) at 1.
  rewrite nearest_even_IZR. lra.
Qed.







(** A number with at most 53 bits at an exponent of the format is a float. *)
Lemma round_representable m e :
  (Z.abs m <= 2 ^ 53)%Z -> (-1074 <= e)%Z -> round (IZR m * pow2 e) = IZR m * pow2 e.
Proof.
  intros Hm He. destruct (Z.eq_dec m 0%Z) as [->|Hm0].
  { rewrite Rmult_0_l. apply round_0. }
  set (x := IZR m * pow2 e). pose proof (pow2_pos e) as Hp.
  assert (Hx : x <> 0).
  { unfold x. apply Rmult_integral_contrapositive_currified; [|lra].
    intros H. apply eq_IZR in H. contradiction. }
  destruct (mag_spec x Hx) as [X1 X2].
  assert (Hab : Rabs x <= pow2 (53 + e)).
  { unfold x. rewrite Rabs_mult, (Rabs_right (pow2 e)) by lra.
    rewrite pow2_add, (pow2_IZR 53) by lia. rewrite <- abs_IZR.
    apply Rmult_le_compat_r; [lra|]. apply IZR_le. exact Hm. }
  assert (Hc : (ulp_exponent x <= e \/ (ulp_exponent x = e + 1 /\ Rabs x = pow2 (53 + e)))%Z).
  { destruct (Z_le_gt_dec (mag x) (52 + e)) as [H|H].
    - left. unfold ulp_exponent. lia.
    - right. assert (pow2 (53 + e) <= pow2 (mag x)) by (apply pow2_le; lia).
      assert (Rabs x = pow2 (53 + e)) by lra. split; [|assumption].
      assert (mag x = 53 + e)%Z.
      { apply mag_unique. rewrite H1. split; [lra|]. apply pow2_lt. lia. }
      unfold ulp_exponent. lia. }
  unfold round. fold x. set (c := ulp_exponent x) in *.
  destruct Hc as [Hc|[Hc Habs]].
  - assert (E : x * pow2 (- c) = IZR (m * 2 ^ (e - c))).
    { unfold x. rewrite mult_IZR, <- pow2_IZR by lia.
      replace (e - c)%Z with (e + - c)%Z by lia. rewrite pow2_add. ring. }
    rewrite E, nearest_even_IZR, mult_IZR, <- pow2_IZR by lia.
    unfold x. rewrite Rmult_assoc, <- pow2_add. do 2 f_equal. lia.
  - (* |m| = 2^53 *)
    assert (Hm2 : Z.abs m = (2 ^ 53)%Z).
    { unfold x in Habs. rewrite Rabs_mult, (Rabs_right (pow2 e)) in Habs by lra.
      rewrite pow2_add, (pow2_IZR 53) in Habs by lia. rewrite <- abs_IZR in Habs.
      apply Rmult_eq_reg_r in Habs; [|lra]. apply eq_IZR in Habs. exact Habs. }
    assert (Hdiv : m = (2 * (m / 2))%Z).
    { apply Z_div_exact_2; [lia|].
      destruct (Z.abs_eq_or_opp m) as [E|E]; rewrite E in Hm2.
      - rewrite Hm2. reflexivity.
      - replace m with (- (2 ^ 53))%Z by lia. reflexivity. }
    assert (E : x * pow2 (- c) = IZR (m / 2)).
    { unfold x. rewrite Hc. rewrite Hdiv at 1. rewrite mult_IZR.
      replace (- (e + 1))%Z with (- e + -1)%Z by lia. rewrite pow2_add.
      pose proof (pow2_cancel e). replace (pow2 (-1)) with (/ 2) by (unfold pow2; simpl; lra).
      rewrite pow2_opp in *. field. lra. }
    rewrite E, nearest_even_IZR. unfold x. rewrite Hdiv at 2. rewrite mult_IZR, Hc, pow2_add.
    replace (pow2 1) with 2 by (unfold pow2; simpl; lra). ring.
Qed.








Lemma round_idempotent_on m e :
  (Z.abs m <= 2 ^ 53)%Z -> (-1074 <= e)%Z ->
  round (round (IZR m * pow2 e)) = round (IZR m * pow2 e).
Proof. intros Hm He. rewrite !round_representable by assumption. reflexivity. Qed.

End FloatFacts.

(** ** The cognitive guardian *)

Module GuardianFacts.
Import Guardian.
Local Open Scope R_scope.

(** C8.  From the initial tolerance 0.5, recording the decision
    [budget_approval] with the amount -10000 sets the risk tolerance to
    -0.55, below 0: [min(amount / 1000, 1)] clamps the upper side only. *)
Theorem negative_amount_leaves_unit_interval :
  risk_tolerance (profile (record_decision "budget_approval" [("amount", -10000)]
                             (new "op"))) = -0.55
  /\ risk_tolerance (profile (record_decision "budget_approval" [("amount", -10000)]
                                (new "op"))) < 0.
Proof.
  assert (E : risk_tolerance (profile (record_decision "budget_approval" [("amount", -10000)]
                                         (new "op"))) = -0.55).
  { simpl. unfold Rmin. destruct (Rle_dec (-10000 / 1000) 1); lra. }
  split; [exact E | rewrite E; lra].
Qed.

(** The update, as the source computes it: only the upper side is clamped. *)
Lemma risk_tolerance_update amount (ps : parameters) g :
  get "amount" ps = Some amount ->
  risk_tolerance (profile (record_decision "budget_approval" ps g))
  = (1 - 0.1) * risk_tolerance (profile g) + 0.1 * Rmin (amount / 1000) 1.
Proof. intros H. simpl. rewrite H. reflexivity. Qed.

(** On amounts that are not negative the tolerance stays within [0, 1]. *)
Lemma risk_tolerance_stays_in_unit_interval amount (ps : parameters) g :
  get "amount" ps = Some amount -> 0 <= amount ->
  0 <= risk_tolerance (profile g) <= 1 ->
  0 <= risk_tolerance (profile (record_decision "budget_approval" ps g)) <= 1.
Proof.
  intros H Ha Ht. rewrite (risk_tolerance_update amount ps g H).
  unfold Rmin. destruct (Rle_dec (amount / 1000) 1); lra.
Qed.

(** *** [check_anomaly] *)

Lemma check_anomaly_short dt ps g :
  (length (history g) < 10)%nat -> check_anomaly dt ps g = (None, g).
Proof.
  intros H. unfold check_anomaly.
  destruct (Nat.ltb_spec (length (history g)) 10); [reflexivity | lia].
Qed.

Lemma check_anomaly_long dt ps g :
  (10 <= length (history g))%nat ->
  let dev := _calculate_deviation dt ps g in
  (3 <= dev ->
   check_anomaly dt ps g
   = (Some (make_alert CRITICAL true dev dt ps g),
      add_alert (make_alert CRITICAL true dev dt ps g) g))
  /\ (2 <= dev < 3 ->
      check_anomaly dt ps g
      = (Some (make_alert WARNING false dev dt ps g),
         add_alert (make_alert WARNING false dev dt ps g) g))
  /\ (dev < 2 -> check_anomaly dt ps g = (None, g)).
Proof.
  intros H dev. unfold check_anomaly. fold dev.
  destruct (Nat.ltb_spec (length (history g)) 10); [lia|].
  destruct (Rge_dec dev 3), (Rge_dec dev 2); repeat split; intros; try reflexivity; lra.
Qed.









































(** *** The profile and the history *)

Lemma count_types_snoc h r :
  count_types (h ++ [r])
  = <[decision_type r := S (default 0%nat (count_types h !! decision_type r))]> (count_types h).
Proof. unfold count_types. rewrite fold_left_app. reflexivity. Qed.

Lemma update_profile_patterns dt ps p :
  selection_patterns (_update_profile dt ps p)
  = <[dt := S (default 0%nat (selection_patterns p !! dt))]> (selection_patterns p).
Proof. unfold _update_profile. simpl. destruct (selection_patterns p !! dt); reflexivity. Qed.

(** [check_anomaly] writes to the list of alerts only. *)
Lemma check_anomaly_state dt ps g :
  history (snd (check_anomaly dt ps g)) = history g
  /\ profile (snd (check_anomaly dt ps g)) = profile g
  /\ operator_id (snd (check_anomaly dt ps g)) = operator_id g
  /\ alerts (snd (check_anomaly dt ps g))
     = (alerts g ++ match fst (check_anomaly dt ps g) with Some a => [a] | None => [] end)%list.
Proof.
  unfold check_anomaly. destruct (_ <? _)%nat; simpl.
  { rewrite app_nil_r. auto. }
  destruct (Rge_dec _ 3); simpl; [auto|].
  destruct (Rge_dec _ 2); simpl; [auto|]. rewrite app_nil_r. auto.
Qed.

(** The verdict of [check_anomaly] depends on the history and the operator
    only. *)
Lemma check_anomaly_verdict dt ps g g' :
  history g' = history g -> operator_id g' = operator_id g ->
  fst (check_anomaly dt ps g') = fst (check_anomaly dt ps g).
Proof.
  intros Hh Ho. unfold check_anomaly, _calculate_deviation, make_alert. rewrite Hh, Ho.
  destruct (_ <? _)%nat; [reflexivity|].
  destruct (Rge_dec _ 3); [reflexivity|]. destruct (Rge_dec _ 2); reflexivity.
Qed.

Lemma patterns_follow_history operator_id calls :
  selection_patterns (profile (after_calls operator_id calls))
  = count_types (history (after_calls operator_id calls)).
Proof.
  unfold after_calls.
  assert (H : forall g, selection_patterns (profile g) = count_types (history g) ->
                selection_patterns (profile (fold_left run_call calls g))
                = count_types (history (fold_left run_call calls g))).
  { induction calls as [|c calls IH]; intros g Hg; simpl; [exact Hg|].
    apply IH. destruct c as [dt ps|dt ps|]; cbn [run_call].
    - unfold record_decision. cbn [profile history decision_type].
      rewrite update_profile_patterns, count_types_snoc, Hg. reflexivity.
    - destruct (check_anomaly_state dt ps g) as (-> & -> & _). exact Hg.
    - reflexivity. }
  apply H. reflexivity.
Qed.

Lemma count_types_lookup h dt :
  default 0%nat (count_types h !! dt) = historical_count dt h
  /\ (count_types h !! dt = None <-> historical_count dt h = 0%nat).
Proof.
  induction h as [|r h [IH1 IH2]] using rev_ind.
  - unfold count_types. simpl. rewrite lookup_empty. split; [reflexivity | tauto].
  - rewrite count_types_snoc. unfold historical_count in *.
    rewrite List.filter_app, length_app. simpl.
    destruct (String.eqb_spec (decision_type r) dt) as [->|Hne]; simpl.
    + rewrite lookup_insert_eq. simpl. rewrite IH1. split; [lia|].
      split; [discriminate | lia].
    + rewrite lookup_insert_ne by exact Hne. rewrite Nat.add_0_r. split; assumption.
Qed.

(** X17.  In a guardian that has received any calls of [record_decision],
    [check_anomaly] and [reset_baseline], the profile's [selection_patterns]
    counts, for each decision type, the records of that type in the history,
    a type without record having no entry; it is the [decision_types]
    counter that [get_baseline_stats] computes from the history, and
    [get_baseline_stats] returns the empty dictionary exactly when the
    history is empty. *)
Theorem selection_patterns_count_history operator_id calls :
  let g := after_calls operator_id calls in
  (forall dt,
     default 0%nat (selection_patterns (profile g) !! dt) = historical_count dt (history g)
     /\ (selection_patterns (profile g) !! dt = None <-> historical_count dt (history g) = 0%nat))
  /\ (forall stats, get_baseline_stats g = Some stats ->
        decision_types stats = selection_patterns (profile g)
        /\ total_decisions stats = length (history g)
        /\ stats_risk_tolerance stats = risk_tolerance (profile g))
  /\ (get_baseline_stats g = None <-> history g = []).
Proof.
  intros g. pose proof (patterns_follow_history operator_id calls) as Hp. fold g in Hp.
  split; [intros dt; rewrite Hp; apply count_types_lookup|].
  unfold get_baseline_stats. destruct (history g) as [|r h] eqn:E.
  - split; [discriminate | tauto].
  - split; [|split; discriminate].
    intros stats [= <-]. cbn [decision_types total_decisions stats_risk_tolerance].
    rewrite Hp. auto.
Qed.

(** X18.  After any calls the risk tolerance is at most 1, and it is at
    least 0 when no decision was recorded with a negative amount. *)
Theorem risk_tolerance_bounds operator_id calls :
  let g := after_calls operator_id calls in
  risk_tolerance (profile g) <= 1
  /\ (Forall (fun c => match c with
                       | Record_decision dt ps => forall a, get "amount" ps = Some a -> 0 <= a
                       | _ => True
                       end) calls ->
      0 <= risk_tolerance (profile g)).
Proof.
  intros g. unfold g, after_calls.
  assert (Hstep : forall dt ps p,
            (risk_tolerance p <= 1 -> risk_tolerance (_update_profile dt ps p) <= 1)
            /\ ((forall a, get "amount" ps = Some a -> 0 <= a) ->
                0 <= risk_tolerance p -> 0 <= risk_tolerance (_update_profile dt ps p))).
  { intros dt ps p. unfold _update_profile. simpl.
    destruct (String.eqb dt "budget_approval"); [|tauto].
    destruct (get "amount" ps) as [a|]; [|tauto].
    unfold Rmin. split.
    - intros H. destruct (Rle_dec (a / 1000) 1); lra.
    - intros Ha H. specialize (Ha a eq_refl). destruct (Rle_dec (a / 1000) 1); lra. }
  split.
  - assert (H : forall g0, risk_tolerance (profile g0) <= 1 ->
                  risk_tolerance (profile (fold_left run_call calls g0)) <= 1).
    { induction calls as [|c calls IH]; intros g0 Hg; simpl; [exact Hg|].
      apply IH. destruct c as [dt ps|dt ps|]; cbn [run_call].
      - unfold record_decision. cbn [profile]. apply Hstep, Hg.
      - destruct (check_anomaly_state dt ps g0) as (_ & -> & _). exact Hg.
      - simpl. lra. }
    apply H. simpl. lra.
  - intros Hpos.
    assert (H : forall g0, 0 <= risk_tolerance (profile g0) ->
                  0 <= risk_tolerance (profile (fold_left run_call calls g0))).
    { induction Hpos as [|c calls Hc _ IH]; intros g0 Hg; simpl; [exact Hg|].
      apply IH. destruct c as [dt ps|dt ps|]; cbn [run_call].
      - unfold record_decision. cbn [profile]. apply Hstep; assumption.
      - destruct (check_anomaly_state dt ps g0) as (_ & -> & _). exact Hg.
      - simpl. lra. }
    apply H. simpl. lra.
Qed.

(** X18, an instance: two approvals, of 90 and of 110. *)
Lemma risk_tolerance_bounds_witness :
  0 <= risk_tolerance
         (profile (after_calls "op" [Record_decision "budget_approval" [("amount", 90)];
                                     Record_decision "budget_approval" [("amount", 110)]]))
    <= 1.
Proof.
  destruct (risk_tolerance_bounds "op" [Record_decision "budget_approval" [("amount", 90)];
                                        Record_decision "budget_approval" [("amount", 110)]])
    as [Hle Hge].
  split; [|exact Hle]. apply Hge.
  apply Forall_cons. split; [intros a H; simpl in H; injection H as <-; lra|].
  apply Forall_cons. split; [intros a H; simpl in H; injection H as <-; lra|].
  apply Forall_nil_2.
Defined.

(** X19.  [check_anomaly] records nothing: it leaves the history, the
    profile and the operator as they are and appends to the alerts the alert
    it returns, if any.  So the decision checked is not part of the baseline
    until [record_decision] is called, and every later check, of the same
    decision or of another, gets the verdict it would have got before. *)
Theorem check_anomaly_only_adds_alert dt ps g :
  let verdict := fst (check_anomaly dt ps g) in
  let g' := snd (check_anomaly dt ps g) in
  history g' = history g
  /\ profile g' = profile g
  /\ operator_id g' = operator_id g
  /\ alerts g' = (alerts g ++ match verdict with Some a => [a] | None => [] end)%list
  /\ (forall dt' ps', fst (check_anomaly dt' ps' g') = fst (check_anomaly dt' ps' g)).
Proof.
  intros verdict g'. destruct (check_anomaly_state dt ps g) as (Hh & Hp & Ho & Ha).
  split; [exact Hh|]. split; [exact Hp|]. split; [exact Ho|]. split; [exact Ha|].
  intros dt' ps'. apply check_anomaly_verdict; assumption.
Qed.

(** X20.  Only a [budget_approval] that carries an amount, checked against a
    history holding at least one [budget_approval], can raise an alert: for
    every other decision [check_anomaly] returns [None] and changes nothing,
    however long the history. *)
Theorem no_alert_without_budget_amount dt ps g :
  dt <> "budget_approval" \/ get "amount" ps = None
  \/ historical_count "budget_approval" (history g) = 0%nat ->
  check_anomaly dt ps g = (None, g).
Proof.
  intros H.
  destruct (Nat.lt_ge_cases (length (history g)) 10) as [Hs|Hl];
    [apply check_anomaly_short, Hs|].
  apply (check_anomaly_long dt ps g Hl).
  unfold _calculate_deviation.
  destruct (historical_count dt (history g) =? 0)%nat eqn:Ec; [lra|].
  destruct (String.eqb_spec dt "budget_approval") as [->|Hne]; [|lra].
  destruct (get "amount" ps) as [a|]; [|lra].
  destruct H as [H|[H|H]]; [contradiction | discriminate|].
  rewrite H in Ec. discriminate.
Qed.

(** X20, an instance: a template selection after ten approvals. *)
Lemma no_alert_without_budget_amount_witness :
  check_anomaly "template_selection" [] (Scenario.approvals Scenario.around_100)
  = (None, Scenario.approvals Scenario.around_100).
Proof.
  apply (no_alert_without_budget_amount "template_selection" []
           (Scenario.approvals Scenario.around_100)).
  left. discriminate.
Defined.

Lemma history_records (records : list (string * parameters)) : forall g,
  let g' := fold_left (fun g r => record_decision (fst r) (snd r) g) records g in
  length (history g') = (length (history g) + length records)%nat
  /\ alerts g' = alerts g.
Proof.
  induction records as [|r records IH]; intros g; simpl.
  - split; [lia | reflexivity].
  - destruct (IH (record_decision (fst r) (snd r) g)) as [Hl Ha].
    rewrite Hl, Ha. simpl. rewrite length_app. simpl. split; [lia | reflexivity].
Qed.

(** X21.  [reset_baseline] empties the history and the selection patterns
    and puts the risk tolerance back to 0.5, and keeps the alerts; after it
    [get_baseline_stats] is empty, and no check raises an alert until ten
    decisions have been recorded again. *)
Theorem reset_baseline_silences g (records : list (string * parameters)) dt ps :
  (length records < 10)%nat ->
  let g' := fold_left (fun g r => record_decision (fst r) (snd r) g) records
              (reset_baseline g) in
  check_anomaly dt ps g' = (None, g')
  /\ alerts g' = alerts g
  /\ get_baseline_stats (reset_baseline g) = None
  /\ selection_patterns (profile (reset_baseline g)) = ∅
  /\ risk_tolerance (profile (reset_baseline g)) = 0.5.
Proof.
  intros Hlen g'. destruct (history_records records (reset_baseline g)) as [Hl Ha].
  fold g' in Hl, Ha. simpl in Hl.
  split; [apply check_anomaly_short; lia|]. split; [exact Ha|]. repeat split.
Qed.

(** X21, an instance: a check of 500 right after a reset. *)
Lemma reset_baseline_silences_witness :
  check_anomaly "budget_approval" [("amount", 500)]
    (reset_baseline (Scenario.approvals Scenario.around_100))
  = (None, reset_baseline (Scenario.approvals Scenario.around_100)).
Proof.
  destruct (reset_baseline_silences (Scenario.approvals Scenario.around_100) []
              "budget_approval" [("amount", 500)]) as [H _].
  - simpl. lia.
  - exact H.
Defined.

End GuardianFacts.

(** ** The sentinels *)

Module SentinelFacts.
Import Py Sentinels.

Lemma over_budget (current_cost budget : Q) :
  negb (Qle_bool current_cost budget) = true <-> (budget < current_cost)%Q.
Proof.
  rewrite negb_true_iff. split.
  - intros H. apply Qnot_le_lt. intros Hle. apply Qle_bool_iff in Hle. congruence.
  - intros H. destruct (Qle_bool current_cost budget) eqn:E; [|reflexivity].
    apply Qle_bool_iff in E. exfalso. exact (Qlt_not_le _ _ H E).
Qed.

Lemma filter_not_nil {A} (f : A -> bool) l :
  List.filter f l <> [] <-> exists x, In x l /\ f x = true.
Proof.
  split.
  - intros H. destruct (List.filter f l) as [|x l'] eqn:E; [contradiction|].
    exists x. apply filter_In. rewrite E. left. reflexivity.
  - intros (x & Hx) E. apply filter_In in Hx. rewrite E in Hx. exact Hx.
Qed.

(** What [check] does to a sentinel, besides the fields of its class. *)
Lemma check_state st s :
  name (snd (check st s)) = name s
  /\ enabled (snd (check st s)) = enabled s
  /\ alerts (snd (check st s))
     = (alerts s ++ match fst (check st s) with Some a => [a] | None => [] end)%list
  /\ (forall alert, fst (check st s) = Some alert ->
        source alert = name s /\ requires_action alert = true).
Proof.
  unfold check. destruct (enabled s) eqn:En; simpl.
  2:{ rewrite app_nil_r, En. repeat split; discriminate. }
  destruct (own s) as [budget spent|violations|min_confidence].
  - destruct (negb (Qle_bool _ budget)); simpl; rewrite ?app_nil_r.
    + repeat split; try assumption; injection H as <-; reflexivity.
    + repeat split; try assumption; discriminate.
  - destruct (List.filter is_critical _) as [|x l]; simpl; rewrite ?app_nil_r.
    + repeat split; try assumption; discriminate.
    + repeat split; try assumption; injection H as <-; reflexivity.
  - destruct (negb (high_stakes _)); simpl; rewrite ?app_nil_r.
    { repeat split; try assumption; discriminate. }
    destruct (negb (Qle_bool min_confidence _)); simpl; rewrite ?app_nil_r.
    + repeat split; try assumption; injection H as <-; reflexivity.
    + repeat split; try assumption; discriminate.
Qed.

(** X24.  [check] returns an alert exactly when the sentinel is enabled and
    its threshold is passed: for a [CostSentinel] a total cost, 0 when the
    snapshot has none, strictly above the budget; for a [SecuritySentinel]
    some validation result that is a dictionary of severity ["critical"];
    for a [ValidationSentinel] a domain that contains a high-stakes keyword
    together with a confidence, 0 when absent, strictly below the minimum.
    The alert carries the name of the sentinel and requires action; it is
    [CRITICAL] for the first two classes, with the overage or the number of
    failures in its metadata, and [WARNING] for the third; it is appended to
    the alerts of the sentinel.  A disabled sentinel returns [None] and is
    left as it is; an enabled [CostSentinel] takes the total cost as its
    [spent], alert or not. *)
Theorem check_alerts_past_threshold st s :
  let verdict := fst (check st s) in
  let s' := snd (check st s) in
  name s' = name s
  /\ enabled s' = enabled s
  /\ alerts s' = (alerts s ++ match verdict with Some a => [a] | None => [] end)%list
  /\ (enabled s = false -> check st s = (None, s))
  /\ (is_Some verdict
      <-> enabled s = true
          /\ match own s with
             | CostSentinel budget _ => (budget < default 0%Q (total_cost st))%Q
             | SecuritySentinel _ =>
                 exists key result,
                   In (key, result) (default [] (validation_results st))
                   /\ is_critical result = true
             | ValidationSentinel min_confidence =>
                 high_stakes (default EmptyString (domain st)) = true
                 /\ (default 0%Q (confidence st) < min_confidence)%Q
             end)
  /\ (forall alert, verdict = Some alert ->
        source alert = name s
        /\ requires_action alert = true
        /\ match own s with
           | CostSentinel budget _ =>
               level alert = CRITICAL
               /\ dict_get "overage" (metadata alert)
                  = Some (VFloat (default 0%Q (total_cost st) - budget))
           | SecuritySentinel _ =>
               level alert = CRITICAL
               /\ dict_get "count" (metadata alert)
                  = Some (VInt (Z.of_nat
                                  (length (List.filter is_critical
                                             (map snd (default [] (validation_results st)))))))
           | ValidationSentinel _ => level alert = WARNING
           end)
  /\ (forall budget spent, enabled s = true -> own s = CostSentinel budget spent ->
        own s' = CostSentinel budget (default 0%Q (total_cost st))).
Proof.
  intros verdict s'. destruct (check_state st s) as (Hn & He & Ha & Hs).
  split; [exact Hn|]. split; [exact He|]. split; [exact Ha|].
  split; [intros H; unfold check; rewrite H; reflexivity|].
  unfold verdict, s', check. destruct (enabled s) eqn:En; simpl.
  2:{ split; [split; [intros [? ?]; discriminate | intros [? _]; discriminate]|].
      split; [discriminate|]. discriminate. }
  destruct (own s) as [budget spent|violations|min_confidence] eqn:Eo.
  - pose proof (over_budget (default 0%Q (total_cost st)) budget) as Hb.
    destruct (negb (Qle_bool _ budget)); simpl.
    + split; [split; [intros _; split; [reflexivity | apply Hb; reflexivity] | eauto]|].
      split; [|intros b sp _ [= <- _]; reflexivity].
      intros alert [= <-]. repeat split.
    + split; [split; [intros [? ?]; discriminate | intros [_ H]; apply Hb in H; discriminate]|].
      split; [discriminate | intros b sp _ [= <- _]; reflexivity].
  - pose proof (filter_not_nil is_critical (map snd (default [] (validation_results st)))) as Hf.
    destruct (List.filter is_critical _) as [|x l]; simpl.
    + split; [|split; discriminate].
      split; [intros [? ?]; discriminate|]. intros [_ (key & result & Hin & Hc)]. exfalso.
      assert (H : @nil value <> []); [|contradiction].
      apply Hf. exists result. split; [|exact Hc].
      apply in_map_iff. exists (key, result). split; [reflexivity | exact Hin].
    + split; [|split; [|discriminate]].
      * split; [|eauto]. intros _. split; [reflexivity|].
        destruct (proj1 Hf ltac:(discriminate)) as (result & Hin & Hc).
        apply in_map_iff in Hin as ([key r] & <- & Hin). eauto.
      * intros alert [= <-]. repeat split.
  - destruct (high_stakes _) eqn:Eh; simpl.
    2:{ split; [|split; discriminate].
        split; [intros [? ?]; discriminate | intros [_ [? _]]; discriminate]. }
    pose proof (over_budget min_confidence (default 0%Q (confidence st))) as Hb.
    destruct (negb (Qle_bool min_confidence _)); simpl.
    + split; [|split; [|discriminate]].
      * split; [|eauto]. intros _. split; [reflexivity|]. split; [reflexivity|].
        apply Hb. reflexivity.
      * intros alert [= <-]. repeat split.
    + split; [|split; discriminate].
      split; [intros [? ?]; discriminate|]. intros [_ [_ H]]. apply Hb in H. discriminate.
Qed.

(** [CostSentinel(budget=10.0)]: a total cost of 12.0 gives an alert with an
    overage of 2.0, a total cost of 9.99 gives none. *)
Example cost_sentinel_of_ten :
  (metadata <$> fst (check (Scenario.costing 12) (new_cost 10)))
  = Some [("budget", VFloat 10); ("spent", VFloat 12); ("overage", VFloat (12 - 10))]
  /\ (message <$> fst (check (Scenario.costing 12) (new_cost 10)))
     = Some "Budget exceeded: $12.00 > $10.00"
  /\ fst (check (Scenario.costing (999 # 100)) (new_cost 10)) = None
  /\ fst (check (Scenario.costing 10) (new_cost 10)) = None.
Proof. repeat split; vm_compute; reflexivity. Qed.

Lemma insert_same_field {A B} (f : A -> B) (l : list A) i x y :
  l !! i = Some x -> f y = f x -> map f (<[i := y]> l) = map f l.
Proof.
  intros Hi E. change (f <$> <[i := y]> l = f <$> l).
  rewrite list_fmap_insert, E. apply list_insert_id.
  rewrite list_lookup_fmap, Hi. reflexivity.
Qed.

Lemma same_field_lookup {A B} (f : A -> B) (l l' : list A) i x' :
  map f l' = map f l -> l' !! i = Some x' -> exists x, l !! i = Some x /\ f x = f x'.
Proof.
  intros E Hi.
  assert (H : (f <$> l) !! i = Some (f x')).
  { change (f <$> l) with (map f l). rewrite <- E. change (map f l') with (f <$> l').
    rewrite list_lookup_fmap, Hi. reflexivity. }
  rewrite list_lookup_fmap in H. destruct (l !! i) as [x|]; [|discriminate].
  injection H as H. eauto.
Qed.

Lemma check_all_from st refs :
  forall found0 m0,
  exists found,
    fst (fold_left (check_one st) refs (found0, m0)) = (found0 ++ found)%list
    /\ manager_alerts (snd (fold_left (check_one st) refs (found0, m0)))
       = (manager_alerts m0 ++ found)%list
    /\ sentinels (snd (fold_left (check_one st) refs (found0, m0))) = sentinels m0
    /\ map name (heap (snd (fold_left (check_one st) refs (found0, m0)))) = map name (heap m0)
    /\ map enabled (heap (snd (fold_left (check_one st) refs (found0, m0))))
       = map enabled (heap m0)
    /\ length found <= length refs
    /\ (forall alert, In alert found ->
          exists ref s, In ref refs /\ heap m0 !! ref = Some s /\ enabled s = true
                        /\ source alert = name s).
Proof.
  induction refs as [|ref refs IH]; intros found0 m0; cbn [fold_left].
  - exists []. simpl. rewrite !app_nil_r. repeat split; try reflexivity. intros alert [].
  - assert (Hone : exists f1 m1,
               check_one st (found0, m0) ref = ((found0 ++ f1)%list, m1)
               /\ manager_alerts m1 = (manager_alerts m0 ++ f1)%list
               /\ sentinels m1 = sentinels m0
               /\ map name (heap m1) = map name (heap m0)
               /\ map enabled (heap m1) = map enabled (heap m0)
               /\ length f1 <= 1
               /\ (forall alert, In alert f1 ->
                     exists s, heap m0 !! ref = Some s /\ enabled s = true
                               /\ source alert = name s)).
    { unfold check_one. destruct (heap m0 !! ref) as [s|] eqn:Es.
      2:{ exists [], m0. rewrite !app_nil_r. repeat split; try reflexivity; [simpl; lia | intros a []]. }
      destruct (enabled s) eqn:En.
      2:{ exists [], m0. rewrite !app_nil_r. repeat split; try reflexivity; [simpl; lia | intros a []]. }
      destruct (check_state st s) as (Hn & He & _ & Hs).
      destruct (check st s) as [[alert|] s']; simpl in *.
      - eexists [alert], _. split; [reflexivity|]. simpl.
        split; [reflexivity|]. split; [reflexivity|].
        split; [exact (insert_same_field name _ _ _ _ Es Hn)|].
        split; [exact (insert_same_field enabled _ _ _ _ Es He)|].
        split; [simpl; lia|]. intros a [<-|[]]. exists s. split; [reflexivity|].
        split; [exact En | apply (Hs alert eq_refl)].
      - eexists [], _. rewrite !app_nil_r. split; [reflexivity|]. simpl.
        split; [reflexivity|]. split; [reflexivity|].
        split; [exact (insert_same_field name _ _ _ _ Es Hn)|].
        split; [exact (insert_same_field enabled _ _ _ _ Es He)|].
        split; [simpl; lia | intros a []]. }
    destruct Hone as (f1 & m1 & -> & Ha1 & Hs1 & Hn1 & He1 & Hl1 & Hsrc1).
    destruct (IH (found0 ++ f1)%list m1) as (found & H1 & H2 & H3 & H4 & H5 & H6 & H7).
    exists (f1 ++ found)%list. rewrite H1, H2, H3, H4, H5, Ha1, Hs1, Hn1, He1, !app_assoc.
    repeat split; try reflexivity.
    + rewrite length_app. simpl. lia.
    + intros alert Hin. apply in_app_or in Hin as [Hin|Hin].
      * destruct (Hsrc1 alert Hin) as (s & Hs & En & Hsrc). exists ref, s.
        split; [left; reflexivity|]. auto.
      * destruct (H7 alert Hin) as (ref' & s1 & Hr & Hs & En & Hsrc).
        destruct (same_field_lookup name _ _ _ _ Hn1 Hs) as (s0 & Hs0 & Hname).
        destruct (same_field_lookup enabled _ _ _ _ He1 Hs) as (s0' & Hs0' & Hen).
        rewrite Hs0 in Hs0'. injection Hs0' as <-.
        exists ref', s0. split; [right; exact Hr|]. split; [exact Hs0|].
        split; [congruence | congruence].
Qed.

(** X25.  [check_all] returns the alerts of one pass over the managed
    sentinels, at most one per entry of the list, each carrying the name of
    a managed sentinel that is enabled; it appends exactly these alerts to
    the history of the manager, removes no sentinel, renames, enables or
    disables none, and makes [has_critical_alerts] true exactly when it was
    true before or one of the returned alerts is [CRITICAL]. *)
Theorem check_all_collects st m :
  let found := fst (check_all st m) in
  let m' := snd (check_all st m) in
  manager_alerts m' = (manager_alerts m ++ found)%list
  /\ sentinels m' = sentinels m
  /\ map name (heap m') = map name (heap m)
  /\ map enabled (heap m') = map enabled (heap m)
  /\ length found <= length (sentinels m)
  /\ (forall alert, In alert found ->
        exists ref s, In ref (sentinels m) /\ heap m !! ref = Some s /\ enabled s = true
                      /\ source alert = name s)
  /\ has_critical_alerts m'
     = has_critical_alerts m || existsb (fun a => is_critical_level (level a)) found.
Proof.
  intros found m'. unfold found, m', check_all.
  destruct (check_all_from st (sentinels m) [] m) as (l & H1 & H2 & H3 & H4 & H5 & H6 & H7).
  simpl in H1. rewrite H1, H2, H3, H4, H5.
  repeat split; try reflexivity; try assumption.
  unfold has_critical_alerts. rewrite H2. apply existsb_app.
Qed.

Lemma alerts_kept m c :
  is_clear c = false ->
  exists found, manager_alerts (run_call m c) = (manager_alerts m ++ found)%list.
Proof.
  intros Hc. destruct c as [s|ref|nm|ref|ref|ref b|st|]; try discriminate;
    try (exists []; simpl; rewrite app_nil_r; reflexivity).
  simpl. unfold check_all.
  destruct (check_all_from st (sentinels m) [] m) as (l & _ & H2 & _). eauto.
Qed.

(** X26.  [has_critical_alerts] latches: once it is true it stays true
    through every later call on the manager and on the sentinels (checks of
    any snapshot, a raised budget, sentinels disabled or removed) until
    [clear_alerts], after which it is false. *)
Theorem critical_alert_latches m calls :
  has_critical_alerts m = true ->
  forallb (fun c => negb (is_clear c)) calls = true ->
  has_critical_alerts (fold_left run_call calls m) = true
  /\ has_critical_alerts (clear_alerts (fold_left run_call calls m)) = false.
Proof.
  intros Hm Hcalls. split; [|reflexivity].
  revert m Hm. induction calls as [|c calls IH]; intros m Hm; simpl; [exact Hm|].
  simpl in Hcalls. apply andb_true_iff in Hcalls as [Hc Hcalls].
  apply IH; [exact Hcalls|].
  destruct (alerts_kept m c) as [found E]; [apply negb_true_iff, Hc|].
  unfold has_critical_alerts in *. rewrite E, existsb_app, Hm. reflexivity.
Qed.

(** X26, an instance: a budget of 10.0 and a total cost of 12.0, then the
    budget raised to 100.0 and the same snapshot checked again. *)
Lemma critical_alert_latches_witness :
  has_critical_alerts Scenario.tripped = true
  /\ fst (check_all (Scenario.costing 12)
            (run_call Scenario.tripped (Update_budget 0 100))) = []
  /\ has_critical_alerts
       (fold_left run_call [Update_budget 0 100; Check_all (Scenario.costing 12)]
          Scenario.tripped) = true.
Proof.
  assert (H : has_critical_alerts Scenario.tripped = true) by (vm_compute; reflexivity).
  split; [exact H|]. split; [vm_compute; reflexivity|].
  apply (critical_alert_latches Scenario.tripped
           [Update_budget 0 100; Check_all (Scenario.costing 12)]); [exact H | reflexivity].
Defined.

End SentinelFacts.
